(** * End-to-end encrypted chat: the cryptographic envelope layer

    A shallow embedding of the TypeScript sources
    - [src/lib/crypto/symmetric.ts]  (AES-GCM wrapper, Base64 codec),
    - [src/lib/crypto/hash.ts]       (SHA-256 hex digest),
    - [src/lib/crypto/keys.ts]       (key import, ECDH + HKDF derivation),
    - [src/lib/crypto/wrap.ts]       (key wrapping, both paths),
    - [src/lib/crypto/backup.ts]     (passphrase-sealed key backup),
    - [src/pages/Chat.tsx]           (sendMessage, decryptMessage),
    - [src/pages/Analytics.tsx]      (loadMessageAnalytics),
    - [src/pages/Database.tsx]       (truncate),
    together with the properties of the envelope codec.

    Conventions.  An [ArrayBuffer]/[Uint8Array] is a [list byte].  A
    JavaScript string is the list of its UTF-16 code units ([list N]).
    A JavaScript exception is the [Throw] branch of [Result]; [await] is
    sequencing in that monad.  The browser's WebCrypto primitives are
    the fields of the class [Platform]. *)

From Stdlib Require Import List NArith ZArith Lia Bool String Ascii.
From Stdlib.Strings Require Import Byte.
Import ListNotations.

Set Implicit Arguments.
Set Warnings "-register-all".

(** ** JavaScript values used by the sources *)

Definition ArrayBuffer := list byte.
Definition jsstring := list N.

(** A string literal of the source, as code units. *)
Definition js (s : string) : jsstring :=
  List.map N_of_ascii (list_ascii_of_string s).

(** [a === b] on strings *)
Fixpoint jsstring_eqb (a b : jsstring) : bool :=
  match a, b with
  | [], [] => true
  | x :: a', y :: b' => (x =? y)%N && jsstring_eqb a' b'
  | _, _ => false
  end.

(** [s.length] *)
Definition js_length (s : jsstring) : N := N.of_nat (List.length s).

(** [s.includes(t)] *)
Fixpoint js_starts_with (t s : jsstring) : bool :=
  match t, s with
  | [], _ => true
  | _ :: _, [] => false
  | x :: t', y :: s' => (x =? y)%N && js_starts_with t' s'
  end.

Fixpoint js_includes (s t : jsstring) : bool :=
  js_starts_with t s ||
  match s with
  | [] => false
  | _ :: s' => js_includes s' t
  end.

(** ** Exceptions *)

Inductive Exn : Type :=
| InvalidCharacterError   (* DOMException raised by atob / btoa *)
| InvalidAccessError      (* WebCrypto: key not usable for the operation *)
| OperationError          (* WebCrypto: the operation itself failed *)
| DataError               (* WebCrypto: malformed key data *)
| SyntaxError             (* JSON.parse *)
| TypeError               (* property access on null / undefined *)
| Error (message : jsstring). (* new Error(message) *)

Inductive Result (A : Type) : Type :=
| Ok (a : A)
| Throw (e : Exn).

Arguments Ok {A} a.
Arguments Throw {A} e.

Definition bind {A B} (m : Result A) (k : A -> Result B) : Result B :=
  match m with
  | Ok a => k a
  | Throw e => Throw e
  end.

(** [try { m } catch (error) { h error }] *)
Definition try_catch {A} (m : Result A) (h : Exn -> Result A) : Result A :=
  match m with
  | Ok a => Ok a
  | Throw e => h e
  end.

Declare Scope js_scope.
Delimit Scope js_scope with js.
Notation "x <- m ;; k" := (bind m (fun x => k))
  (at level 61, m at next level, right associativity) : js_scope.
Open Scope js_scope.

Definition is_ok {A} (r : Result A) : bool :=
  match r with Ok _ => true | Throw _ => false end.

(** ** symmetric.ts: the binary/text codec

    [btoa] and [atob] are the browser's; they are written out here after
    the WHATWG "forgiving-base64" encode and decode algorithms. *)

Module Base64.

(** The Base64 alphabet: index to code unit. *)
Definition b64_char (i : N) : N :=
  if (i <? 26)%N then (65 + i)%N
  else if (i <? 52)%N then (71 + i)%N
  else if (i <? 62)%N then (i - 4)%N
  else if (i =? 62)%N then 43%N
  else 47%N.

(** Code unit to index; [None] outside the alphabet. *)
Definition b64_index (c : N) : option N :=
  if ((65 <=? c) && (c <=? 90))%N then Some (c - 65)%N
  else if ((97 <=? c) && (c <=? 122))%N then Some (c - 71)%N
  else if ((48 <=? c) && (c <=? 57))%N then Some (c + 4)%N
  else if (c =? 43)%N then Some 62%N
  else if (c =? 47)%N then Some 63%N
  else None.

Definition pad_char : N := 61%N. (* '=' *)

(** Three octets become four sextets; a short tail becomes two or three. *)
Fixpoint to_sextets (l : list N) : list N :=
  match l with
  | [] => []
  | [a] => [a / 4; (a mod 4) * 16]%N
  | [a; b] => [a / 4; (a mod 4) * 16 + b / 16; (b mod 16) * 4]%N
  | a :: b :: c :: rest =>
      (a / 4 :: (a mod 4) * 16 + b / 16 :: (b mod 16) * 4 + c / 64
         :: c mod 64 :: to_sextets rest)%N
  end.

Fixpoint padding (l : list N) : list N :=
  match l with
  | [] => []
  | [_] => [pad_char; pad_char]
  | [_; _] => [pad_char]
  | _ :: _ :: _ :: rest => padding rest
  end.

Definition encode (l : list N) : jsstring :=
  List.map b64_char (to_sextets l) ++ padding l.

(** [btoa(s)]: throws when [s] holds a code unit above U+00FF. *)
Definition btoa (s : jsstring) : Result jsstring :=
  if forallb (fun c => (c <=? 255)%N) s then Ok (encode s)
  else Throw InvalidCharacterError.

(** TAB, LF, FF, CR, SPACE *)
Definition is_ascii_whitespace (c : N) : bool :=
  ((c =? 9) || (c =? 10) || (c =? 12) || (c =? 13) || (c =? 32))%N.

Definition strip_padding (d : jsstring) : jsstring :=
  match rev d with
  | 61%N :: 61%N :: r => rev r
  | 61%N :: r => rev r
  | _ => d
  end.

Fixpoint indices (d : jsstring) : option (list N) :=
  match d with
  | [] => Some []
  | c :: d' =>
      match b64_index c, indices d' with
      | Some i, Some is' => Some (i :: is')
      | _, _ => None
      end
  end.

(** Four sextets give three octets; a tail of three gives two (two bits
    dropped), a tail of two gives one (four bits dropped). *)
Fixpoint of_sextets (s : list N) : list N :=
  match s with
  | s0 :: s1 :: s2 :: s3 :: rest =>
      (s0 * 4 + s1 / 16 :: (s1 mod 16) * 16 + s2 / 4
         :: (s2 mod 4) * 64 + s3 :: of_sextets rest)%N
  | [s0; s1; s2] => [s0 * 4 + s1 / 16; (s1 mod 16) * 16 + s2 / 4]%N
  | [s0; s1] => [s0 * 4 + s1 / 16]%N
  | _ => []
  end.

(** [atob(s)] *)
Definition atob (s : jsstring) : Result jsstring :=
  let d := List.filter (fun c => negb (is_ascii_whitespace c)) s in
  let d := if (List.length d mod 4 =? 0)%nat then strip_padding d else d in
  if (List.length d mod 4 =? 1)%nat then Throw InvalidCharacterError
  else match indices d with
       | Some sx => Ok (of_sextets sx)
       | None => Throw InvalidCharacterError
       end.

(** Lists of octets, lists of sextets. *)
Definition octets (l : list N) : Prop := Forall (fun a => (a < 256)%N) l.
Definition sextets (l : list N) : Prop := Forall (fun a => (a < 64)%N) l.

End Base64.

(** [bytes[i] = n]: assignment into a [Uint8Array] keeps the low octet. *)
Definition to_uint8 (n : N) : byte :=
  match Byte.of_N (n mod 256) with
  | Some b => b
  | None => x00
  end.

(** [arrayBufferToBase64]: one [String.fromCharCode(bytes[i])] per octet,
    then [btoa]. *)
Definition arrayBufferToBase64 (buffer : ArrayBuffer) : Result jsstring :=
  let binary := List.map Byte.to_N buffer in
  Base64.btoa binary.

(** [base64ToArrayBuffer]: [atob], then one [charCodeAt(i)] per unit. *)
Definition base64ToArrayBuffer (base64 : jsstring) : Result ArrayBuffer :=
  binary <- Base64.atob base64 ;;
  Ok (List.map to_uint8 binary).

(** [stringToArrayBuffer] and [arrayBufferToString] are [TextEncoder] and
    [TextDecoder]; [sha256Hex] writes each digest octet as two lowercase
    hexadecimal digits ([b.toString(16).padStart(2, '0')]). *)
Definition hex_digit (n : N) : N :=
  if (n <? 10)%N then (48 + n)%N else (87 + n)%N.

Definition hex_of_byte (b : byte) : jsstring :=
  let n := Byte.to_N b in [hex_digit (n / 16); hex_digit (n mod 16)].

Definition hex_string (digest : ArrayBuffer) : jsstring :=
  List.concat (List.map hex_of_byte digest).

(** ** JSON values

    Objects are association lists in insertion order; a number is kept
    as the platform's own number type. *)
Inductive Json (Number : Type) : Type :=
| JNull
| JBool (b : bool)
| JNumber (n : Number)
| JString (s : jsstring)
| JArray (items : list (Json Number))
| JObject (fields : list (jsstring * Json Number)).

Arguments JNull {Number}.
Arguments JBool {Number} b.
Arguments JNumber {Number} n.
Arguments JString {Number} s.
Arguments JArray {Number} items.
Arguments JObject {Number} fields.

(** ** The platform: WebCrypto, the encoders and JSON

    What the browser computes is not part of the repository; the sources
    are embedded over this interface.  Key material of the asymmetric
    algorithms is opaque. *)
Class Platform : Type := {
  Number : Type;
  EcPrivate : Type;
  EcPublic : Type;
  RsaPrivate : Type;
  RsaPublic : Type;
  ec_public_of : EcPrivate -> EcPublic;
  rsa_public_of : RsaPrivate -> RsaPublic;
  (** AES-GCM with a 128-bit tag: key, nonce, data *)
  aes_gcm_seal : ArrayBuffer -> ArrayBuffer -> ArrayBuffer -> ArrayBuffer;
  aes_gcm_open : ArrayBuffer -> ArrayBuffer -> ArrayBuffer -> option ArrayBuffer;
  (** ECDH over P-256: the 256-bit shared secret *)
  ecdh_p256 : EcPrivate -> EcPublic -> option ArrayBuffer;
  (** HKDF-SHA-256: input keying material, salt, info, output bits *)
  hkdf_sha256 : ArrayBuffer -> ArrayBuffer -> ArrayBuffer -> N -> ArrayBuffer;
  (** PBKDF2-HMAC-SHA-256: password, salt, iterations, output bits *)
  pbkdf2_sha256 : ArrayBuffer -> ArrayBuffer -> N -> N -> ArrayBuffer;
  (** RSA-OAEP with SHA-256: public key, encoding seed, message *)
  rsa_oaep_seal : RsaPublic -> ArrayBuffer -> ArrayBuffer -> option ArrayBuffer;
  rsa_oaep_open : RsaPrivate -> ArrayBuffer -> option ArrayBuffer;
  sha256 : ArrayBuffer -> ArrayBuffer;
  (** [importKey("jwk", ...)] of a public ECDH key, of a public RSA key *)
  jwk_ec_public : Json Number -> option EcPublic;
  jwk_rsa_public : Json Number -> option RsaPublic;
  (** [TextEncoder.encode], [TextDecoder.decode] *)
  utf8_encode : jsstring -> ArrayBuffer;
  utf8_decode : ArrayBuffer -> jsstring;
  (** [JSON.stringify(value, null, indent)], [JSON.parse] *)
  JSON_stringify : N -> Json Number -> jsstring;
  JSON_parse : jsstring -> option (Json Number);
  (** [String(n)] for a number *)
  number_to_string : Number -> jsstring
}.

(** What the proofs ask of the platform. *)
Class PlatformLaws (W : Platform) : Prop := {
  aes_gcm_open_seal :
    forall key iv data, aes_gcm_open key iv (aes_gcm_seal key iv data) = Some data;
  ecdh_agreement :
    forall a b, exists secret,
      ecdh_p256 a (ec_public_of b) = Some secret /\
      ecdh_p256 b (ec_public_of a) = Some secret;
  rsa_oaep_open_seal :
    forall d seed data wrapped,
      rsa_oaep_seal (rsa_public_of d) seed data = Some wrapped ->
      rsa_oaep_open d wrapped = Some data;
  JSON_text_utf8 :
    forall indent j,
      utf8_decode (utf8_encode (JSON_stringify indent j)) = JSON_stringify indent j;
  (** the object of three string properties that [backup.ts] writes *)
  JSON_parse_stringify_sealed :
    forall indent ciphertext iv salt,
      let j := JObject [(js "ciphertext", JString ciphertext);
                        (js "iv", JString iv);
                        (js "salt", JString salt)] in
      JSON_parse (JSON_stringify indent j) = Some j
}.

Section WebCrypto.
Context {W : Platform}.

Definition JsonValue := Json Number.

(** [obj.name], for the own property names the sources read: [None] is
    [undefined]; reading a property of [null] throws.  ([JSON.parse]
    builds objects without repeated names.) *)
Definition get_property (v : JsonValue) (name : jsstring)
  : Result (option JsonValue) :=
  match v with
  | JNull => Throw TypeError
  | JObject fields =>
      Ok (match List.find (fun kv => jsstring_eqb (fst kv) name) fields with
          | Some kv => Some (snd kv)
          | None => None
          end)
  | _ => Ok None
  end.

(** [String(v)], as applied by [atob] to its argument. *)
Fixpoint json_to_string (v : JsonValue) : jsstring :=
  match v with
  | JNull => js "null"
  | JBool true => js "true"
  | JBool false => js "false"
  | JNumber n => number_to_string n
  | JString s => s
  | JArray items =>
      (fix join (l : list JsonValue) : jsstring :=
         match l with
         | [] => []
         | [x] => match x with JNull => [] | _ => json_to_string x end
         | x :: rest =>
             match x with JNull => [] | _ => json_to_string x end
               ++ js "," ++ join rest
         end) items
  | JObject _ => js "[object Object]"
  end.

Definition to_string (v : option JsonValue) : jsstring :=
  match v with
  | None => js "undefined"
  | Some j => json_to_string j
  end.

(** *** CryptoKey objects *)

Inductive KeyUsage : Type :=
| U_encrypt | U_decrypt | U_wrapKey | U_unwrapKey | U_deriveKey | U_deriveBits.

Inductive KeyAlgorithm : Type := AES_GCM | ECDH | RSA_OAEP | HKDF | PBKDF2.

Inductive KeyMaterial : Type :=
| Secret (raw : ArrayBuffer)
| EcPriv (d : EcPrivate)
| EcPub (q : EcPublic)
| RsaPriv (d : RsaPrivate)
| RsaPub (e : RsaPublic).

Record CryptoKey : Type := {
  algorithm : KeyAlgorithm;
  extractable : bool;
  usages : list KeyUsage;
  material : KeyMaterial
}.

Definition usage_eqb (a b : KeyUsage) : bool :=
  match a, b with
  | U_encrypt, U_encrypt | U_decrypt, U_decrypt | U_wrapKey, U_wrapKey
  | U_unwrapKey, U_unwrapKey | U_deriveKey, U_deriveKey
  | U_deriveBits, U_deriveBits => true
  | _, _ => false
  end.

Definition alg_eqb (a b : KeyAlgorithm) : bool :=
  match a, b with
  | AES_GCM, AES_GCM | ECDH, ECDH | RSA_OAEP, RSA_OAEP | HKDF, HKDF
  | PBKDF2, PBKDF2 => true
  | _, _ => false
  end.

(** The check every [crypto.subtle] operation starts with: the key is of
    the named algorithm and allows the usage. *)
Definition usable (key : CryptoKey) (alg : KeyAlgorithm) (u : KeyUsage) : bool :=
  alg_eqb key.(algorithm) alg && existsb (usage_eqb u) key.(usages).

(** *** crypto.subtle *)

(** [encrypt({name: "AES-GCM", iv}, key, data)] *)
Definition subtle_encrypt_AES_GCM (iv : ArrayBuffer) (key : CryptoKey)
           (data : ArrayBuffer) : Result ArrayBuffer :=
  if usable key AES_GCM U_encrypt then
    match key.(material) with
    | Secret raw => Ok (aes_gcm_seal raw iv data)
    | _ => Throw InvalidAccessError
    end
  else Throw InvalidAccessError.

(** [decrypt({name: "AES-GCM", iv}, key, data)] *)
Definition subtle_decrypt_AES_GCM (iv : ArrayBuffer) (key : CryptoKey)
           (data : ArrayBuffer) : Result ArrayBuffer :=
  if usable key AES_GCM U_decrypt then
    match key.(material) with
    | Secret raw =>
        match aes_gcm_open raw iv data with
        | Some plain => Ok plain
        | None => Throw OperationError
        end
    | _ => Throw InvalidAccessError
    end
  else Throw InvalidAccessError.

(** [deriveBits({name: "ECDH", public}, key, 256)] *)
Definition subtle_deriveBits_ECDH (public key : CryptoKey) : Result ArrayBuffer :=
  if usable key ECDH U_deriveBits then
    match key.(material), public.(algorithm), public.(material) with
    | EcPriv d, ECDH, EcPub q =>
        match ecdh_p256 d q with
        | Some secret => Ok secret
        | None => Throw OperationError
        end
    | _, _, _ => Throw InvalidAccessError
    end
  else Throw InvalidAccessError.

(** [importKey("raw", data, {name}, false, usages)] for the two
    derivation algorithms. *)
Definition subtle_importKey_raw_KDF (alg : KeyAlgorithm) (data : ArrayBuffer)
           (usages : list KeyUsage) : Result CryptoKey :=
  Ok {| algorithm := alg; extractable := false; usages := usages;
        material := Secret data |}.

(** [deriveKey({name: "HKDF", salt, info, hash: "SHA-256"}, baseKey,
    {name: "AES-GCM", length: 256}, extractable, usages)] *)
Definition subtle_deriveKey_HKDF (salt info : ArrayBuffer) (baseKey : CryptoKey)
           (extractable : bool) (usages : list KeyUsage) : Result CryptoKey :=
  if usable baseKey HKDF U_deriveKey then
    match baseKey.(material) with
    | Secret ikm =>
        Ok {| algorithm := AES_GCM; extractable := extractable;
              usages := usages;
              material := Secret (hkdf_sha256 ikm salt info 256) |}
    | _ => Throw InvalidAccessError
    end
  else Throw InvalidAccessError.

(** [deriveKey({name: "PBKDF2", salt, iterations, hash: "SHA-256"},
    baseKey, {name: "AES-GCM", length: 256}, extractable, usages)] *)
Definition subtle_deriveKey_PBKDF2 (salt : ArrayBuffer) (iterations : N)
           (baseKey : CryptoKey) (extractable : bool)
           (usages : list KeyUsage) : Result CryptoKey :=
  if usable baseKey PBKDF2 U_deriveKey then
    match baseKey.(material) with
    | Secret password =>
        if (iterations =? 0)%N then Throw OperationError
        else Ok {| algorithm := AES_GCM; extractable := extractable;
                   usages := usages;
                   material := Secret (pbkdf2_sha256 password salt iterations 256) |}
    | _ => Throw InvalidAccessError
    end
  else Throw InvalidAccessError.

(** [exportKey("raw", key)] as performed inside [wrapKey]. *)
Definition export_raw (key : CryptoKey) : Result ArrayBuffer :=
  if key.(extractable) then
    match key.(material) with
    | Secret raw => Ok raw
    | _ => Throw InvalidAccessError
    end
  else Throw InvalidAccessError.

(** [importKey("raw", data, {name: "AES-GCM", length: 256}, extractable,
    usages)] as performed inside [unwrapKey]: the data must be an AES
    key of 128, 192 or 256 bits. *)
Definition import_raw_AES_GCM (data : ArrayBuffer) (extractable : bool)
           (usages : list KeyUsage) : Result CryptoKey :=
  let n := List.length data in
  if ((n =? 16) || (n =? 24) || (n =? 32))%nat then
    match usages with
    | [] => Throw SyntaxError
    | _ => Ok {| algorithm := AES_GCM; extractable := extractable;
                 usages := usages; material := Secret data |}
    end
  else Throw DataError.

(** [wrapKey("raw", key, wrappingKey, {name: "AES-GCM", iv})] *)
Definition subtle_wrapKey_AES_GCM (key wrappingKey : CryptoKey)
           (iv : ArrayBuffer) : Result ArrayBuffer :=
  if usable wrappingKey AES_GCM U_wrapKey then
    raw <- export_raw key ;;
    match wrappingKey.(material) with
    | Secret kek => Ok (aes_gcm_seal kek iv raw)
    | _ => Throw InvalidAccessError
    end
  else Throw InvalidAccessError.

(** [unwrapKey("raw", wrappedKey, unwrappingKey, {name: "AES-GCM", iv},
    {name: "AES-GCM", length: 256}, extractable, usages)] *)
Definition subtle_unwrapKey_AES_GCM (wrappedKey : ArrayBuffer)
           (unwrappingKey : CryptoKey) (iv : ArrayBuffer)
           (extractable : bool) (usages : list KeyUsage) : Result CryptoKey :=
  if usable unwrappingKey AES_GCM U_unwrapKey then
    match unwrappingKey.(material) with
    | Secret kek =>
        match aes_gcm_open kek iv wrappedKey with
        | Some raw => import_raw_AES_GCM raw extractable usages
        | None => Throw OperationError
        end
    | _ => Throw InvalidAccessError
    end
  else Throw InvalidAccessError.

(** [wrapKey("raw", key, wrappingKey, {name: "RSA-OAEP"})]; [seed] is
    the randomness the encoding draws. *)
Definition subtle_wrapKey_RSA_OAEP (seed : ArrayBuffer)
           (key wrappingKey : CryptoKey) : Result ArrayBuffer :=
  if usable wrappingKey RSA_OAEP U_wrapKey then
    raw <- export_raw key ;;
    match wrappingKey.(material) with
    | RsaPub e =>
        match rsa_oaep_seal e seed raw with
        | Some wrapped => Ok wrapped
        | None => Throw OperationError
        end
    | _ => Throw InvalidAccessError
    end
  else Throw InvalidAccessError.

(** [unwrapKey("raw", wrappedKey, unwrappingKey, {name: "RSA-OAEP"},
    {name: "AES-GCM", length: 256}, extractable, usages)] *)
Definition subtle_unwrapKey_RSA_OAEP (wrappedKey : ArrayBuffer)
           (unwrappingKey : CryptoKey)
           (extractable : bool) (usages : list KeyUsage) : Result CryptoKey :=
  if usable unwrappingKey RSA_OAEP U_unwrapKey then
    match unwrappingKey.(material) with
    | RsaPriv d =>
        match rsa_oaep_open d wrappedKey with
        | Some raw => import_raw_AES_GCM raw extractable usages
        | None => Throw OperationError
        end
    | _ => Throw InvalidAccessError
    end
  else Throw InvalidAccessError.

End WebCrypto.

(** ** Randomness

    [crypto.getRandomValues] reads the next octets of an entropy tape;
    code that draws randomness threads the read position. *)
Definition Tape := nat -> byte.

Definition Rand (A : Type) : Type := Tape -> nat -> Result (A * nat).

Definition ret {A} (a : A) : Rand A := fun _ pos => Ok (a, pos).

Definition bindR {A B} (m : Rand A) (k : A -> Rand B) : Rand B :=
  fun tape pos =>
    match m tape pos with
    | Ok (a, pos') => k a tape pos'
    | Throw e => Throw e
    end.

Definition lift {A} (m : Result A) : Rand A :=
  fun _ pos =>
    match m with
    | Ok a => Ok (a, pos)
    | Throw e => Throw e
    end.

Definition try_catchR {A} (m : Rand A) (h : Exn -> Rand A) : Rand A :=
  fun tape pos =>
    match m tape pos with
    | Ok r => Ok r
    | Throw e => h e tape pos
    end.

Notation "x <~ m ;; k" := (bindR m (fun x => k))
  (at level 61, m at next level, right associativity) : js_scope.

(** [crypto.getRandomValues(new Uint8Array(n))] *)
Definition getRandomValues (n : nat) : Rand ArrayBuffer :=
  fun tape pos => Ok (List.map tape (seq pos n), (pos + n)%nat).

(** [x!.f]: reading through a null reference throws. *)
Definition non_null {A} (x : option A) : Result A :=
  match x with
  | Some a => Ok a
  | None => Throw TypeError
  end.

Section CryptoLibrary.
Context {W : Platform}.

(** *** symmetric.ts *)

Definition genAesGcmKey : Rand CryptoKey :=
  raw <~ getRandomValues 32 ;;
  ret {| algorithm := AES_GCM; extractable := true;
         usages := [U_encrypt; U_decrypt]; material := Secret raw |}.

Definition aesGcmEncrypt (key : CryptoKey) (iv data : ArrayBuffer)
  : Result ArrayBuffer :=
  subtle_encrypt_AES_GCM iv key data.

Definition aesGcmDecrypt (key : CryptoKey) (iv ciphertext : ArrayBuffer)
  : Result ArrayBuffer :=
  subtle_decrypt_AES_GCM iv key ciphertext.

Definition generateIV : Rand ArrayBuffer := getRandomValues 12.

Definition generateSalt : Rand ArrayBuffer := getRandomValues 16.

Definition stringToArrayBuffer (str : jsstring) : ArrayBuffer := utf8_encode str.

Definition arrayBufferToString (buffer : ArrayBuffer) : jsstring :=
  utf8_decode buffer.

(** *** hash.ts *)

Definition sha256Hex (data : ArrayBuffer + jsstring) : jsstring :=
  let buffer := match data with
                | inr str => utf8_encode str
                | inl buf => buf
                end in
  hex_string (sha256 buffer).

(** *** keys.ts *)

Record KeyPair : Type := { publicKey : CryptoKey; privateKey : CryptoKey }.

(** The pair [generateECDHKeypair] returns when the platform draws the
    private scalar [d]: extractable, the private half usable for
    [deriveKey] and [deriveBits]. *)
Definition generateECDHKeypair (d : EcPrivate) : KeyPair :=
  {| publicKey := {| algorithm := ECDH; extractable := true; usages := [];
                     material := EcPub (ec_public_of d) |};
     privateKey := {| algorithm := ECDH; extractable := true;
                      usages := [U_deriveKey; U_deriveBits];
                      material := EcPriv d |} |}.

(** The pair [generateRSAKeypair] returns when the platform draws the
    private key [d]. *)
Definition generateRSAKeypair (d : RsaPrivate) : KeyPair :=
  {| publicKey := {| algorithm := RSA_OAEP; extractable := true;
                     usages := [U_wrapKey];
                     material := RsaPub (rsa_public_of d) |};
     privateKey := {| algorithm := RSA_OAEP; extractable := true;
                      usages := [U_unwrapKey];
                      material := RsaPriv d |} |}.

Definition importECDHPublicJwk (jwk : JsonValue) : Result CryptoKey :=
  match jwk_ec_public jwk with
  | Some q => Ok {| algorithm := ECDH; extractable := true; usages := [];
                    material := EcPub q |}
  | None => Throw DataError
  end.

Definition importRSAPublicJwk (jwk : JsonValue) : Result CryptoKey :=
  match jwk_rsa_public jwk with
  | Some e => Ok {| algorithm := RSA_OAEP; extractable := true;
                    usages := [U_wrapKey]; material := RsaPub e |}
  | None => Throw DataError
  end.

Definition deriveKEK_ECDH (senderPriv recipientPub : CryptoKey)
           (salt : ArrayBuffer) (info : jsstring) : Result CryptoKey :=
  sharedSecret <- subtle_deriveBits_ECDH recipientPub senderPriv ;;
  baseKey <- subtle_importKey_raw_KDF HKDF sharedSecret [U_deriveKey] ;;
  subtle_deriveKey_HKDF salt (utf8_encode info) baseKey false
                        [U_wrapKey; U_unwrapKey].

(** *** wrap.ts *)

Definition wrapAesKeyWithECDH (aesKey senderPrivECDH recipientPubECDH : CryptoKey)
           (salt : ArrayBuffer) : Result ArrayBuffer :=
  kek <- deriveKEK_ECDH senderPrivECDH recipientPubECDH salt (js "wrap") ;;
  subtle_wrapKey_AES_GCM aesKey kek (firstn 12 salt).

Definition unwrapAesKeyWithECDH (wrappedKey : ArrayBuffer)
           (recipientPrivECDH senderPubECDH : CryptoKey)
           (salt : ArrayBuffer) : Result CryptoKey :=
  kek <- deriveKEK_ECDH recipientPrivECDH senderPubECDH salt (js "wrap") ;;
  subtle_unwrapKey_AES_GCM wrappedKey kek (firstn 12 salt) false [U_decrypt].

Definition wrapAesKeyWithRSA (aesKey recipientRsaPub : CryptoKey)
  : Rand ArrayBuffer :=
  seed <~ getRandomValues 32 ;;
  lift (subtle_wrapKey_RSA_OAEP seed aesKey recipientRsaPub).

Definition unwrapAesKeyWithRSA (wrappedKey : ArrayBuffer)
           (recipientRsaPriv : CryptoKey) : Result CryptoKey :=
  subtle_unwrapKey_RSA_OAEP wrappedKey recipientRsaPriv false [U_decrypt].

(** *** backup.ts *)

Definition pbkdf2_iterations : N := 200000.

Definition deriveKeyFromPassphrase (passphrase : jsstring) (salt : ArrayBuffer)
  : Result CryptoKey :=
  passphraseKey <- subtle_importKey_raw_KDF PBKDF2 (utf8_encode passphrase)
                                            [U_deriveKey] ;;
  subtle_deriveKey_PBKDF2 salt pbkdf2_iterations passphraseKey false
                          [U_encrypt; U_decrypt].

(** [interface BackupData], as the object literal the source builds. *)
Definition BackupData (ecdhPrivateJwk rsaPrivateJwk : JsonValue) : JsonValue :=
  JObject [(js "ecdhPrivateJwk", ecdhPrivateJwk);
           (js "rsaPrivateJwk", rsaPrivateJwk)].

(** [interface SealedBackup] *)
Definition SealedBackup (ciphertext iv salt : jsstring) : JsonValue :=
  JObject [(js "ciphertext", JString ciphertext);
           (js "iv", JString iv);
           (js "salt", JString salt)].

(** A [Blob] built from one string holds its UTF-8 octets. *)
Record Blob : Type := { blob_bytes : ArrayBuffer; blob_type : jsstring }.

Definition blob_of_string (text type : jsstring) : Blob :=
  {| blob_bytes := utf8_encode text; blob_type := type |}.

Definition blob_text (b : Blob) : jsstring := utf8_decode b.(blob_bytes).

Definition json_parse (text : jsstring) : Result JsonValue :=
  match JSON_parse text with
  | Some j => Ok j
  | None => Throw SyntaxError
  end.

Definition exportKeysSealed (ecdhPrivateJwk rsaPrivateJwk : JsonValue)
           (passphrase : jsstring) : Rand Blob :=
  let backupData := BackupData ecdhPrivateJwk rsaPrivateJwk in
  salt <~ generateSalt ;;
  iv <~ generateIV ;;
  key <~ lift (deriveKeyFromPassphrase passphrase salt) ;;
  let plaintext := stringToArrayBuffer (JSON_stringify 0 backupData) in
  ciphertext <~ lift (aesGcmEncrypt key iv plaintext) ;;
  ciphertext64 <~ lift (arrayBufferToBase64 ciphertext) ;;
  iv64 <~ lift (arrayBufferToBase64 iv) ;;
  salt64 <~ lift (arrayBufferToBase64 salt) ;;
  let sealed := SealedBackup ciphertext64 iv64 salt64 in
  ret (blob_of_string (JSON_stringify 2 sealed) (js "application/json")).

Definition BackupRestoreError : Exn :=
  Error (js "Invalid passphrase or corrupted backup file").

Definition importKeysSealed (blob : Blob) (passphrase : jsstring)
  : Result JsonValue :=
  let text := blob_text blob in
  sealed <- json_parse text ;;
  sealed_salt <- get_property sealed (js "salt") ;;
  salt <- base64ToArrayBuffer (to_string sealed_salt) ;;
  sealed_iv <- get_property sealed (js "iv") ;;
  iv <- base64ToArrayBuffer (to_string sealed_iv) ;;
  sealed_ciphertext <- get_property sealed (js "ciphertext") ;;
  ciphertext <- base64ToArrayBuffer (to_string sealed_ciphertext) ;;
  key <- deriveKeyFromPassphrase passphrase salt ;;
  try_catch
    (plaintext <- aesGcmDecrypt key iv ciphertext ;;
     json_parse (arrayBufferToString plaintext))
    (fun _ => Throw BackupRestoreError).

End CryptoLibrary.

(** ** Chat.tsx *)

Section Chat.
Context {W : Platform}.

(** The [file_meta] column. *)
Record FileMeta : Type := {
  meta_name : jsstring;
  meta_type : jsstring;
  meta_size : N;
  meta_iv : jsstring;
  meta_salt : jsstring;
  meta_wrapped_key : jsstring;
  meta_wrap_alg : jsstring;
  encrypted_data_base64 : option jsstring;
  storage_type : option jsstring
}.

(** A row of the [messages] table: what [sendMessage] inserts and what
    [decryptMessage] is handed back ([id] and [created_at], which the
    store adds, are read by neither). *)
Record Message : Type := {
  chat_id : jsstring;
  sender_id : jsstring;
  recipient_id : jsstring;
  ciphertext_base64 : jsstring;
  iv_base64 : jsstring;
  wrapped_key_base64 : jsstring;
  wrap_alg : jsstring;
  salt_base64 : jsstring;
  hash_hex : jsstring;
  file_url : option jsstring;
  file_meta : option FileMeta
}.

(** A row of the [user_keys] table. *)
Record UserKeysRow : Type := {
  ecdh_public_key_jwk : JsonValue;
  rsa_public_key_jwk : JsonValue
}.

(** [useCryptoKeys().keys] *)
Record CryptoKeys : Type := {
  ecdhKeyPair : option KeyPair;
  rsaKeyPair : option KeyPair
}.

(** The component state the two functions close over, and the
    [user_keys] table they query. *)
Record ChatState : Type := {
  user : option jsstring;
  keys : option CryptoKeys;
  recipient : option UserKeysRow;
  recipientId : jsstring;
  chatId : option jsstring;
  user_keys : jsstring -> option UserKeysRow
}.

(** Lines 270-307 of [decryptMessage]: decode the envelope, unwrap the
    message key by the recorded algorithm, decrypt. *)
Definition decryptMessage_payload (st : ChatState) (msg : Message)
  : Result ArrayBuffer :=
  match st.(keys), st.(recipient), st.(user) with
  | Some keys, Some recipient, Some user =>
      iv <- base64ToArrayBuffer msg.(iv_base64) ;;
      salt <- base64ToArrayBuffer msg.(salt_base64) ;;
      ciphertext <- base64ToArrayBuffer msg.(ciphertext_base64) ;;
      wrappedKey <- base64ToArrayBuffer msg.(wrapped_key_base64) ;;
      aesKey <-
        (if jsstring_eqb msg.(wrap_alg) (js "ECDH") then
           if jsstring_eqb msg.(sender_id) user then
             recipientEcdhPub <-
               importECDHPublicJwk recipient.(ecdh_public_key_jwk) ;;
             own <- non_null keys.(ecdhKeyPair) ;;
             unwrapAesKeyWithECDH wrappedKey own.(privateKey)
                                  recipientEcdhPub salt
           else
             senderEcdhPub <-
               (if jsstring_eqb msg.(sender_id) st.(recipientId) then
                  importECDHPublicJwk recipient.(ecdh_public_key_jwk)
                else
                  match st.(user_keys) msg.(sender_id) with
                  | Some senderData =>
                      importECDHPublicJwk senderData.(ecdh_public_key_jwk)
                  | None => Throw (Error (js "Sender keys not found"))
                  end) ;;
             own <- non_null keys.(ecdhKeyPair) ;;
             unwrapAesKeyWithECDH wrappedKey own.(privateKey)
                                  senderEcdhPub salt
         else
           own <- non_null keys.(rsaKeyPair) ;;
           unwrapAesKeyWithRSA wrappedKey own.(privateKey)) ;;
      aesGcmDecrypt aesKey iv ciphertext
  | _, _, _ => Throw (Error (js "Keys, recipient, or user not loaded"))
  end.

(** [decryptMessage], its [text] result.  The file branch that follows
    in the source returns this same text on each of its paths. *)
Definition decryptMessage (st : ChatState) (msg : Message) : Result jsstring :=
  decrypted <- decryptMessage_payload st msg ;;
  Ok (arrayBufferToString decrypted).

(** The wrap step, written twice in [sendMessage] (file key, message
    key): the agreement path inside [try], the RSA path in [catch]. *)
Definition wrap_prefer_ECDH (keys : CryptoKeys) (aesKey : CryptoKey)
           (recipientEcdhPub recipientRsaPub : CryptoKey) (salt : ArrayBuffer)
  : Rand (ArrayBuffer * jsstring) :=
  try_catchR
    (lift (own <- non_null keys.(ecdhKeyPair) ;;
           wrappedKey <- wrapAesKeyWithECDH aesKey own.(privateKey)
                                             recipientEcdhPub salt ;;
           Ok (wrappedKey, js "ECDH")))
    (fun _ =>
       wrappedKey <~ wrapAesKeyWithRSA aesKey recipientRsaPub ;;
       ret (wrappedKey, js "RSA-OAEP")).

(** Lines 607-641 of [sendMessage]: the envelope for [plaintext]. *)
Definition sendMessage_seal (chat user recipientId : jsstring)
           (keys : CryptoKeys) (recipientEcdhPub recipientRsaPub : CryptoKey)
           (plaintext : ArrayBuffer)
           (fileUrl : option jsstring) (fileMeta : option FileMeta)
  : Rand Message :=
  aesKey <~ genAesGcmKey ;;
  iv <~ generateIV ;;
  salt <~ generateSalt ;;
  ciphertext <~ lift (aesGcmEncrypt aesKey iv plaintext) ;;
  wrapped <~ wrap_prefer_ECDH keys aesKey recipientEcdhPub recipientRsaPub salt ;;
  hashed <~ lift (arrayBufferToBase64 ciphertext) ;;
  let hash := sha256Hex (inr hashed) in
  ciphertextBase64 <~ lift (arrayBufferToBase64 ciphertext) ;;
  iv64 <~ lift (arrayBufferToBase64 iv) ;;
  wrapped64 <~ lift (arrayBufferToBase64 (fst wrapped)) ;;
  salt64 <~ lift (arrayBufferToBase64 salt) ;;
  ret {| chat_id := chat;
         sender_id := user;
         recipient_id := recipientId;
         ciphertext_base64 := ciphertextBase64;
         iv_base64 := iv64;
         wrapped_key_base64 := wrapped64;
         wrap_alg := snd wrapped;
         salt_base64 := salt64;
         hash_hex := hash;
         file_url := fileUrl;
         file_meta := fileMeta |}.

(** *** The file payload: blob store first, inline as fallback *)

Inductive StatusCode : Type :=
| StatusString (s : jsstring)
| StatusNumber (n : Z).

(** The error object of a storage call. *)
Record StorageError : Type := {
  message : option jsstring;
  statusCode : option StatusCode
}.

(** What the blob store answers to the calls [sendMessage] makes:
    the first [upload], [createBucket], the second [upload]. *)
Record StorageOutcome : Type := {
  upload_error : option StorageError;
  create_bucket_error : option StorageError;
  retry_error : option StorageError
}.

(** [err.message?.includes(t)] *)
Definition message_includes (err : StorageError) (t : jsstring) : bool :=
  match err.(message) with
  | Some m => js_includes m t
  | None => false
  end.

Definition inline_threshold : N := 5 * 1024 * 1024.

Definition store_inline (fileMeta : FileMeta) (encryptedBase64 : jsstring)
  : FileMeta :=
  {| meta_name := fileMeta.(meta_name);
     meta_type := fileMeta.(meta_type);
     meta_size := fileMeta.(meta_size);
     meta_iv := fileMeta.(meta_iv);
     meta_salt := fileMeta.(meta_salt);
     meta_wrapped_key := fileMeta.(meta_wrapped_key);
     meta_wrap_alg := fileMeta.(meta_wrap_alg);
     encrypted_data_base64 := Some encryptedBase64;
     storage_type := Some (js "inline") |}.

(** Lines 515-593 of [sendMessage]: the storage policy, from the
    answer to the first upload to the final [fileMeta]. *)
Definition sendMessage_store (out : StorageOutcome) (fileMeta : FileMeta)
           (encryptedBase64 : jsstring) : Result FileMeta :=
  let small := (js_length encryptedBase64 <? inline_threshold)%N in
  match out.(upload_error) with
  | None => Ok fileMeta
  | Some uploadError =>
      if small then Ok (store_inline fileMeta encryptedBase64)
      else
        state <-
          (if message_includes uploadError (js "Bucket")
              || message_includes uploadError (js "not found")
              || match uploadError.(statusCode) with
                 | Some (StatusString s) => jsstring_eqb s (js "404")
                 | Some (StatusNumber n) => (n =? 404)%Z
                 | None => false
                 end
           then
             match out.(create_bucket_error) with
             | None =>
                 match out.(retry_error) with
                 | None => Ok (fileMeta, None)
                 | Some retryError =>
                     if message_includes retryError (js "row-level security")
                        || message_includes retryError (js "RLS")
                     then
                       if small
                       then Ok (store_inline fileMeta encryptedBase64, None)
                       else Throw (Error (js "File too large for inline storage. Please set up storage bucket policies in Supabase Dashboard."))
                     else Ok (fileMeta, Some uploadError)
                 end
             | Some _ =>
                 if small
                 then Ok (store_inline fileMeta encryptedBase64, None)
                 else Ok (fileMeta, Some uploadError)
             end
           else Ok (fileMeta, Some uploadError)) ;;
        match snd state with
        | Some err =>
            if small then Ok (store_inline (fst state) encryptedBase64)
            else Throw (Error (js "File upload failed: " ++
                               match err.(message) with
                               | Some (c :: m) => c :: m
                               | _ => js "Storage not available"
                               end))
        | None => Ok (fst state)
        end
  end.

(** [File] *)
Record File : Type := {
  file_name : jsstring;
  file_type : jsstring;
  file_bytes : ArrayBuffer
}.

Definition file_size (f : File) : N := N.of_nat (List.length f.(file_bytes)).

(** ECMAScript WhiteSpace and LineTerminator code points, as removed by
    [String.prototype.trim]. *)
Definition is_js_whitespace (c : N) : bool :=
  ((c =? 9) || (c =? 10) || (c =? 11) || (c =? 12) || (c =? 13) || (c =? 32)
   || (c =? 160) || (c =? 5760) || ((8192 <=? c) && (c <=? 8202))
   || (c =? 8232) || (c =? 8233) || (c =? 8239) || (c =? 8287)
   || (c =? 12288) || (c =? 65279))%N.

(** [!message.trim()] *)
Definition is_blank (message : jsstring) : bool := forallb is_js_whitespace message.

(** [sendMessage], from the guard to the row it inserts; [None] when the
    guard returns.  [formatFileSize] (floating point) is a parameter. *)
Definition sendMessage (formatFileSize : N -> jsstring)
           (st : ChatState) (storage : StorageOutcome)
           (message : jsstring) (selectedFile : option File)
  : Rand (option Message) :=
  let no_file := match selectedFile with Some _ => false | None => true end in
  match st.(chatId), st.(keys), st.(recipient), st.(user) with
  | Some chat, Some keys, Some recipient, Some user =>
      if is_blank message && no_file then ret None
      else
        recipientEcdhPub <~
          lift (importECDHPublicJwk recipient.(ecdh_public_key_jwk)) ;;
        recipientRsaPub <~
          lift (importRSAPublicJwk recipient.(rsa_public_key_jwk)) ;;
        content <~
          match selectedFile with
          | Some file =>
              fileAesKey <~ genAesGcmKey ;;
              fileIv <~ generateIV ;;
              fileSalt <~ generateSalt ;;
              encryptedFile <~
                lift (aesGcmEncrypt fileAesKey fileIv file.(file_bytes)) ;;
              fileWrapped <~
                wrap_prefer_ECDH keys fileAesKey recipientEcdhPub
                                 recipientRsaPub fileSalt ;;
              encryptedBase64 <~ lift (arrayBufferToBase64 encryptedFile) ;;
              fileIv64 <~ lift (arrayBufferToBase64 fileIv) ;;
              fileSalt64 <~ lift (arrayBufferToBase64 fileSalt) ;;
              fileWrapped64 <~ lift (arrayBufferToBase64 (fst fileWrapped)) ;;
              let fileMeta :=
                {| meta_name := file.(file_name);
                   meta_type := file.(file_type);
                   meta_size := file_size file;
                   meta_iv := fileIv64;
                   meta_salt := fileSalt64;
                   meta_wrapped_key := fileWrapped64;
                   meta_wrap_alg := snd fileWrapped;
                   encrypted_data_base64 := None;
                   storage_type := None |} in
              stored <~ lift (sendMessage_store storage fileMeta encryptedBase64) ;;
              ret (stringToArrayBuffer
                     ([55357; 56526; 32]%N ++ file.(file_name) ++ js " ("
                        ++ formatFileSize (file_size file) ++ js ")"),
                   Some stored)
          | None => ret (stringToArrayBuffer message, None)
          end ;;
        row <~ sendMessage_seal chat user st.(recipientId) keys
                 recipientEcdhPub recipientRsaPub (fst content) None
                 (snd content) ;;
        ret (Some row)
  | _, _, _, _ => ret None
  end.

End Chat.

(** ** Analytics.tsx *)

Section Analytics.
Context {W : Platform}.

(** The two verdicts [loadMessageAnalytics] records for a message, and
    the text it decrypted. *)
Record MessageAnalytics : Type := {
  hash_verified : bool;
  decryption_success : bool;
  decrypted : jsstring
}.

(** The inner [try] of the loop body: unwrap, then decrypt. *)
Definition analytics_decrypt (keys : CryptoKeys) (msg : Message)
           (otherPartyEcdhPub : option CryptoKey)
           (iv salt ciphertext wrappedKey : ArrayBuffer) : Result jsstring :=
  aesKeyForDecrypt <-
    match jsstring_eqb msg.(wrap_alg) (js "ECDH"), otherPartyEcdhPub with
    | true, Some pub =>
        own <- non_null keys.(ecdhKeyPair) ;;
        unwrapAesKeyWithECDH wrappedKey own.(privateKey) pub salt
    | _, _ =>
        own <- non_null keys.(rsaKeyPair) ;;
        unwrapAesKeyWithRSA wrappedKey own.(privateKey)
    end ;;
  decryptedBuffer <- aesGcmDecrypt aesKeyForDecrypt iv ciphertext ;;
  Ok (arrayBufferToString decryptedBuffer).

(** The body of the [for (const msg of messages)] loop of
    [loadMessageAnalytics], up to the two verdicts. *)
Definition analyzeMessage (user : jsstring) (keys : CryptoKeys)
           (user_keys : jsstring -> option UserKeysRow) (msg : Message)
  : MessageAnalytics :=
  let attempt :=
    iv <- base64ToArrayBuffer msg.(iv_base64) ;;
    salt <- base64ToArrayBuffer msg.(salt_base64) ;;
    ciphertext <- base64ToArrayBuffer msg.(ciphertext_base64) ;;
    wrappedKey <- base64ToArrayBuffer msg.(wrapped_key_base64) ;;
    let computedHash := sha256Hex (inr msg.(ciphertext_base64)) in
    let hashVerified := jsstring_eqb computedHash msg.(hash_hex) in
    let otherPartyId :=
      if jsstring_eqb msg.(sender_id) user
      then msg.(recipient_id) else msg.(sender_id) in
    let otherPartyEcdhPub :=
      match user_keys otherPartyId with
      | Some otherPartyKeys =>
          if jsstring_eqb msg.(wrap_alg) (js "ECDH") then
            match importECDHPublicJwk otherPartyKeys.(ecdh_public_key_jwk) with
            | Ok key => Some key
            | Throw _ => None
            end
          else None
      | None => None
      end in
    let outcome :=
      analytics_decrypt keys msg otherPartyEcdhPub iv salt ciphertext
                        wrappedKey in
    Ok {| hash_verified := hashVerified;
          decryption_success := is_ok outcome;
          decrypted := match outcome with Ok text => text | Throw _ => [] end |}
  in
  match attempt with
  | Ok analytics => analytics
  | Throw _ => {| hash_verified := false; decryption_success := false;
                  decrypted := [] |}
  end.

End Analytics.

(** ** Notions the statements use *)

Section Identities.
Context {W : Platform}.

(** The key pairs an identity holds: one agreement pair, one
    encapsulation pair. *)
Definition identity_keys (d : EcPrivate) (r : RsaPrivate) : CryptoKeys :=
  {| ecdhKeyPair := Some (generateECDHKeypair d);
     rsaKeyPair := Some (generateRSAKeypair r) |}.

(** The [user_keys] row publishes the public halves of [d] and [r]. *)
Definition publishes (row : UserKeysRow) (d : EcPrivate) (r : RsaPrivate) : Prop :=
  jwk_ec_public row.(ecdh_public_key_jwk) = Some (ec_public_of d) /\
  jwk_rsa_public row.(rsa_public_key_jwk) = Some (rsa_public_of r).

(** The one-time key, nonce and salt [sendMessage_seal] draws when the
    tape stands at [pos]. *)
Definition drawn_key (tape : Tape) (pos : nat) : CryptoKey :=
  {| algorithm := AES_GCM; extractable := true;
     usages := [U_encrypt; U_decrypt];
     material := Secret (List.map tape (seq pos 32)) |}.

Definition drawn_iv (tape : Tape) (pos : nat) : ArrayBuffer :=
  List.map tape (seq (pos + 32) 12).

Definition drawn_salt (tape : Tape) (pos : nat) : ArrayBuffer :=
  List.map tape (seq (pos + 32 + 12) 16).

(** The agreement-path attempt inside the [try] of the wrap step. *)
Definition agreement_attempt (keys : CryptoKeys) (aesKey recipientEcdhPub : CryptoKey)
           (salt : ArrayBuffer) : Result ArrayBuffer :=
  own <- non_null keys.(ecdhKeyPair) ;;
  wrapAesKeyWithECDH aesKey own.(privateKey) recipientEcdhPub salt.

Definition with_wrap_alg (msg : Message) (tag : jsstring) : Message :=
  {| chat_id := msg.(chat_id); sender_id := msg.(sender_id);
     recipient_id := msg.(recipient_id);
     ciphertext_base64 := msg.(ciphertext_base64);
     iv_base64 := msg.(iv_base64);
     wrapped_key_base64 := msg.(wrapped_key_base64);
     wrap_alg := tag;
     salt_base64 := msg.(salt_base64);
     hash_hex := msg.(hash_hex);
     file_url := msg.(file_url); file_meta := msg.(file_meta) |}.

Definition with_hash_hex (msg : Message) (hash : jsstring) : Message :=
  {| chat_id := msg.(chat_id); sender_id := msg.(sender_id);
     recipient_id := msg.(recipient_id);
     ciphertext_base64 := msg.(ciphertext_base64);
     iv_base64 := msg.(iv_base64);
     wrapped_key_base64 := msg.(wrapped_key_base64);
     wrap_alg := msg.(wrap_alg);
     salt_base64 := msg.(salt_base64);
     hash_hex := hash;
     file_url := msg.(file_url); file_meta := msg.(file_meta) |}.

(** The row [sendMessage_seal] assembles around a wrapped key and its
    tag, for the key, nonce and salt drawn at [pos]. *)
Definition sealed_message (chat user recipientId : jsstring)
           (plaintext : ArrayBuffer) (tape : Tape) (pos : nat)
           (wrappedKey : ArrayBuffer) (tag : jsstring)
           (fileUrl : option jsstring) (fileMeta : option FileMeta) : Message :=
  let ciphertext :=
    aes_gcm_seal (List.map tape (seq pos 32)) (drawn_iv tape pos) plaintext in
  let encoded := Base64.encode (List.map Byte.to_N ciphertext) in
  {| chat_id := chat;
     sender_id := user;
     recipient_id := recipientId;
     ciphertext_base64 := encoded;
     iv_base64 := Base64.encode (List.map Byte.to_N (drawn_iv tape pos));
     wrapped_key_base64 := Base64.encode (List.map Byte.to_N wrappedKey);
     wrap_alg := tag;
     salt_base64 := Base64.encode (List.map Byte.to_N (drawn_salt tape pos));
     hash_hex := sha256Hex (inr encoded);
     file_url := fileUrl;
     file_meta := fileMeta |}.

(** The same component state, holding of the receiver's key pairs only
    the one the tag of [msg] names. *)
Definition only_tagged_keys (st : ChatState) (msg : Message) : ChatState :=
  {| user := st.(user);
     keys := match st.(keys) with
             | Some k =>
                 Some (if jsstring_eqb msg.(wrap_alg) (js "ECDH")
                       then {| ecdhKeyPair := k.(ecdhKeyPair); rsaKeyPair := None |}
                       else {| ecdhKeyPair := None; rsaKeyPair := k.(rsaKeyPair) |})
             | None => None
             end;
     recipient := st.(recipient);
     recipientId := st.(recipientId); chatId := st.(chatId);
     user_keys := st.(user_keys) |}.

(** The four Base64 columns of the row decode. *)
Definition columns_decode (msg : Message) : bool :=
  is_ok (base64ToArrayBuffer msg.(iv_base64)) &&
  is_ok (base64ToArrayBuffer msg.(salt_base64)) &&
  is_ok (base64ToArrayBuffer msg.(ciphertext_base64)) &&
  is_ok (base64ToArrayBuffer msg.(wrapped_key_base64)).

(** The salt and nonce [exportKeysSealed] draws at [pos], and the blob it
    writes. *)
Definition backup_salt (tape : Tape) (pos : nat) : ArrayBuffer :=
  List.map tape (seq pos 16).

Definition backup_iv (tape : Tape) (pos : nat) : ArrayBuffer :=
  List.map tape (seq (pos + 16) 12).

Definition backup_key (passphrase : jsstring) (salt : ArrayBuffer) : ArrayBuffer :=
  pbkdf2_sha256 (utf8_encode passphrase) salt pbkdf2_iterations 256.

Definition sealed_backup (ecdhPrivateJwk rsaPrivateJwk : JsonValue)
           (passphrase : jsstring) (tape : Tape) (pos : nat) : JsonValue :=
  let salt := backup_salt tape pos in
  let iv := backup_iv tape pos in
  let plaintext := utf8_encode (JSON_stringify 0 (BackupData ecdhPrivateJwk
                                                             rsaPrivateJwk)) in
  SealedBackup
    (Base64.encode (List.map Byte.to_N
                      (aes_gcm_seal (backup_key passphrase salt) iv plaintext)))
    (Base64.encode (List.map Byte.to_N iv))
    (Base64.encode (List.map Byte.to_N salt)).

(** The agreement-path wrap in the words of the specification: the raw
    key bytes, AES-GCM-encrypted under HKDF-SHA256(ECDH(own private,
    peer public), salt, "wrap"), the first 12 salt bytes as nonce. *)
Definition wrapWithAgreement_spec (raw : ArrayBuffer) (ownPriv : EcPrivate)
           (peerPub : EcPublic) (salt : ArrayBuffer) : option ArrayBuffer :=
  match ecdh_p256 ownPriv peerPub with
  | Some secret =>
      let kek := hkdf_sha256 secret salt (utf8_encode (js "wrap")) 256 in
      Some (aes_gcm_seal kek (firstn 12 salt) raw)
  | None => None
  end.

End Identities.

(** ** A small platform

    A concrete instance of the interface, with arithmetic in place of the
    curve and reversible byte shuffles in place of the ciphers.  It serves
    to run the embedded code on concrete inputs. *)
Module Toy.

Fixpoint bytes_eqb (a b : ArrayBuffer) : bool :=
  match a, b with
  | [], [] => true
  | x :: a', y :: b' => Byte.eqb x y && bytes_eqb a' b'
  | _, _ => false
  end.

Definition tag (key iv : ArrayBuffer) : ArrayBuffer :=
  firstn 16 (key ++ iv ++ repeat x00 16).

Definition seal (key iv data : ArrayBuffer) : ArrayBuffer :=
  rev data ++ tag key iv.

Definition open (key iv sealed : ArrayBuffer) : option ArrayBuffer :=
  let n := (List.length sealed - 16)%nat in
  if (16 <=? List.length sealed)%nat && bytes_eqb (skipn n sealed) (tag key iv)
  then Some (rev (firstn n sealed))
  else None.

Definition modulus : N := 251.

Definition public_of (d : N) : N := ((d * 3) mod modulus)%N.

Definition agree (d q : N) : option ArrayBuffer :=
  Some [to_uint8 ((d * q) mod modulus)].

Definition kdf (ikm salt info : ArrayBuffer) (bits : N) : ArrayBuffer :=
  firstn (N.to_nat (bits / 8)) (ikm ++ salt ++ info ++ repeat x00 (N.to_nat (bits / 8))).

Definition pbkdf (password salt : ArrayBuffer) (iterations bits : N) : ArrayBuffer :=
  kdf password salt [to_uint8 iterations] bits.

Definition rsa_public (d : N) : N := (d + 100)%N.

Definition rsa_seal (e : N) (seed data : ArrayBuffer) : option ArrayBuffer :=
  if (List.length data <=? 446)%nat then Some (to_uint8 e :: rev data) else None.

Definition rsa_open (d : N) (sealed : ArrayBuffer) : option ArrayBuffer :=
  match sealed with
  | h :: r => if Byte.eqb h (to_uint8 (rsa_public d)) then Some (rev r) else None
  | [] => None
  end.

(** A 256-bit rolling checksum, most significant octet last. *)
Definition digest (data : ArrayBuffer) : ArrayBuffer :=
  let h := fold_left (fun acc b => ((acc * 257 + Byte.to_N b + 1) mod 2 ^ 256)%N)
                     data 0%N in
  List.map (fun i => to_uint8 (h / 256 ^ N.of_nat i)) (seq 0 32).

Definition jwk_number (j : Json Z) : option N :=
  match j with
  | JNumber z => Some (Z.to_N z)
  | _ => None
  end.

(** Text encoding: one octet below 255 per code unit, after one octet 255
    for every 255 the unit exceeds it by. *)
Definition encode_text (s : jsstring) : ArrayBuffer :=
  List.flat_map
    (fun c => repeat xff (N.to_nat (c / 255)) ++ [to_uint8 (c mod 255)]) s.

Fixpoint decode_units (acc : N) (l : ArrayBuffer) : jsstring :=
  match l with
  | [] => []
  | b :: r =>
      if Byte.eqb b xff then decode_units (acc + 255) r
      else (acc + Byte.to_N b)%N :: decode_units 0 r
  end.

Definition decode_text (l : ArrayBuffer) : jsstring := decode_units 0 l.

(** JSON text: a tag per value, lengths before strings and lists. *)
Fixpoint write_value (j : Json Z) : jsstring :=
  match j with
  | JNull => [0%N]
  | JBool b => [1%N; if b then 1%N else 0%N]
  | JNumber z => [2%N; if (z <? 0)%Z then 1%N else 0%N; Z.to_N (Z.abs z)]
  | JString s => 3%N :: N.of_nat (List.length s) :: s
  | JArray items =>
      4%N :: N.of_nat (List.length items) ::
        (fix go (l : list (Json Z)) : jsstring :=
           match l with
           | [] => []
           | x :: r => write_value x ++ go r
           end) items
  | JObject fields =>
      5%N :: N.of_nat (List.length fields) ::
        (fix go (l : list (jsstring * Json Z)) : jsstring :=
           match l with
           | [] => []
           | (k, v) :: r =>
               N.of_nat (List.length k) :: k ++ write_value v ++ go r
           end) fields
  end.

Definition stringify (indent : N) (j : Json Z) : jsstring :=
  indent :: write_value j.

Definition take_string (l : jsstring) : option (jsstring * jsstring) :=
  match l with
  | n :: r =>
      if (N.of_nat (List.length r) <? n)%N then None
      else Some (firstn (N.to_nat n) r, skipn (N.to_nat n) r)
  | [] => None
  end.

Section Reader.
Variable read : jsstring -> option (Json Z * jsstring).

Fixpoint read_items (k : nat) (l : jsstring) : option (list (Json Z) * jsstring) :=
  match k with
  | O => Some ([], l)
  | S k' =>
      match read l with
      | Some (x, l') =>
          match read_items k' l' with
          | Some (xs, l'') => Some (x :: xs, l'')
          | None => None
          end
      | None => None
      end
  end.

Fixpoint read_fields (k : nat) (l : jsstring)
  : option (list (jsstring * Json Z) * jsstring) :=
  match k with
  | O => Some ([], l)
  | S k' =>
      match take_string l with
      | Some (key, l1) =>
          match read l1 with
          | Some (v, l2) =>
              match read_fields k' l2 with
              | Some (fs, l3) => Some ((key, v) :: fs, l3)
              | None => None
              end
          | None => None
          end
      | None => None
      end
  end.

End Reader.

Fixpoint read_value (fuel : nat) (l : jsstring) : option (Json Z * jsstring) :=
  match fuel with
  | O => None
  | S fuel' =>
      match l with
      | 0%N :: r => Some (JNull, r)
      | 1%N :: b :: r => Some (JBool (negb (b =? 0)%N), r)
      | 2%N :: sg :: m :: r =>
          Some (JNumber (if (sg =? 0)%N then Z.of_N m else (- Z.of_N m)%Z), r)
      | 3%N :: r =>
          match take_string r with
          | Some (s, r') => Some (JString s, r')
          | None => None
          end
      | 4%N :: n :: r =>
          match read_items (read_value fuel') (N.to_nat n) r with
          | Some (xs, r') => Some (JArray xs, r')
          | None => None
          end
      | 5%N :: n :: r =>
          match read_fields (read_value fuel') (N.to_nat n) r with
          | Some (fs, r') => Some (JObject fs, r')
          | None => None
          end
      | _ => None
      end
  end.

Definition parse (text : jsstring) : option (Json Z) :=
  match text with
  | _ :: body =>
      match read_value 64 body with
      | Some (j, []) => Some j
      | _ => None
      end
  | [] => None
  end.

Definition platform : Platform :=
  {| Number := Z;
     EcPrivate := N; EcPublic := N; RsaPrivate := N; RsaPublic := N;
     ec_public_of := public_of;
     rsa_public_of := rsa_public;
     aes_gcm_seal := seal;
     aes_gcm_open := open;
     ecdh_p256 := agree;
     hkdf_sha256 := kdf;
     pbkdf2_sha256 := pbkdf;
     rsa_oaep_seal := rsa_seal;
     rsa_oaep_open := rsa_open;
     sha256 := digest;
     jwk_ec_public := jwk_number;
     jwk_rsa_public := jwk_number;
     utf8_encode := encode_text;
     utf8_decode := decode_text;
     JSON_stringify := stringify;
     JSON_parse := parse;
     number_to_string := fun _ => js "0" |}.

End Toy.

(** ** Two identities on the small platform *)

Module Scenario.

Definition tape : Tape := fun n => to_uint8 (N.of_nat (7 * n + 3)).

Definition alice_ec : N := 5.
Definition alice_rsa : N := 11.
Definition bob_ec : N := 9.
Definition bob_rsa : N := 13.

Definition row_of (d r : N) : UserKeysRow (W := Toy.platform) :=
  @Build_UserKeysRow Toy.platform
    (JNumber (Z.of_N (Toy.public_of d)))
    (JNumber (Z.of_N (Toy.rsa_public r))).

Definition alice_row := row_of alice_ec alice_rsa.
Definition bob_row := row_of bob_ec bob_rsa.

Definition alice_keys : CryptoKeys (W := Toy.platform) :=
  identity_keys (W := Toy.platform) alice_ec alice_rsa.

(** Alice without an agreement key pair: her wrap attempt throws. *)
Definition alice_keys_rsa_only : CryptoKeys (W := Toy.platform) :=
  {| ecdhKeyPair := None;
     rsaKeyPair := Some (generateRSAKeypair (W := Toy.platform) alice_rsa) |}.

Definition bob_public_ecdh : CryptoKey (W := Toy.platform) :=
  (generateECDHKeypair (W := Toy.platform) bob_ec).(publicKey).

Definition bob_public_rsa : CryptoKey (W := Toy.platform) :=
  (generateRSAKeypair (W := Toy.platform) bob_rsa).(publicKey).

(** Bob's chat with Alice. *)
Definition bob_state : ChatState (W := Toy.platform) :=
  {| user := Some (js "bob");
     keys := Some (identity_keys (W := Toy.platform) bob_ec bob_rsa);
     recipient := Some alice_row;
     recipientId := js "alice";
     chatId := Some (js "room");
     user_keys := fun _ => None |}.

Definition greeting : jsstring := js "attack at dawn".

Definition plaintext : ArrayBuffer :=
  stringToArrayBuffer (W := Toy.platform) greeting.

Definition empty_row : Message :=
  {| chat_id := []; sender_id := []; recipient_id := [];
     ciphertext_base64 := []; iv_base64 := []; wrapped_key_base64 := [];
     wrap_alg := []; salt_base64 := []; hash_hex := [];
     file_url := None; file_meta := None |}.

Definition sealed_by (senderKeys : CryptoKeys (W := Toy.platform)) : Message :=
  match sendMessage_seal (W := Toy.platform) (js "room") (js "alice") (js "bob")
                         senderKeys bob_public_ecdh bob_public_rsa
                         plaintext None None tape 0 with
  | Ok (row, _) => row
  | Throw _ => empty_row
  end.

(** The row Alice's seal produces with both key pairs, and with the RSA
    pair only. *)
Definition agreement_row : Message := sealed_by alice_keys.
Definition rsa_row : Message := sealed_by alice_keys_rsa_only.

(** The RSA-wrapped row under a tag that is neither of the two. *)
Definition foo_row : Message := with_wrap_alg rsa_row (js "FOO").

(** The agreement-wrapped row with another stored hash. *)
Definition rehashed_row : Message := with_hash_hex agreement_row (js "00").

Definition bundle_ecdh : Json Z := JObject [(js "d", JString (js "Zm9v"))].
Definition bundle_rsa : Json Z := JObject [(js "d", JString (js "YmFy"))].
Definition passphrase : jsstring := js "correct-pass".

End Scenario.

(** ** More of the sources *)

(** *** hash.ts: the diagnostics *)

(** [n.toString(2)] for a non-negative integer *)
Fixpoint binary_digits (p : positive) : jsstring :=
  match p with
  | xH => [49%N]
  | xO q => binary_digits q ++ [48%N]
  | xI q => binary_digits q ++ [49%N]
  end.

Definition toString2 (n : N) : jsstring :=
  match n with
  | N0 => [48%N]
  | Npos p => binary_digits p
  end.

(** [s.split(c)] for a separator of one character *)
Fixpoint js_split (c : N) (s : jsstring) : list jsstring :=
  match s with
  | [] => [[]]
  | x :: r =>
      if (x =? c)%N then [] :: js_split c r
      else match js_split c r with
           | h :: t => (x :: h) :: t
           | [] => [[x]]
           end
  end.

(** [xor.toString(2).split('1').length - 1] *)
Definition set_bits (xor : N) : N :=
  (N.of_nat (List.length (js_split 49 (toString2 xor))) - 1)%N.

Fixpoint hamming_loop (bytesA bytesB : ArrayBuffer) (distance : N) : N :=
  match bytesA, bytesB with
  | x :: a', y :: b' =>
      hamming_loop a' b'
        (distance + set_bits (N.lxor (Byte.to_N x) (Byte.to_N y)))
  | _, _ => distance
  end.

Definition hammingDistanceBits (a b : ArrayBuffer) : Result N :=
  if (List.length a =? List.length b)%nat then Ok (hamming_loop a b 0)
  else Throw (Error (js "Buffers must be same length for Hamming distance")).

(** [copy[i] = f(copy[i])] on a [Uint8Array]: nothing is written out of
    range. *)
Fixpoint uint8_update (l : ArrayBuffer) (i : nat) (f : byte -> byte)
  : ArrayBuffer :=
  match l, i with
  | [], _ => []
  | x :: r, O => f x :: r
  | x :: r, S j => x :: uint8_update r j f
  end.

(** [flipRandomBit]; [byteIndex] and [bitIndex] are the two values
    [Math.floor(Math.random() * n)] returned, for [n = copy.length] and
    [n = 8]. *)
Definition flipRandomBit (byteIndex : nat) (bitIndex : N) (data : ArrayBuffer)
  : ArrayBuffer :=
  uint8_update data byteIndex
    (fun x => to_uint8 (N.lxor (Byte.to_N x) (N.shiftl 1 bitIndex))).

(** A [Set] of strings, in insertion order. *)
Definition set_has (s : list jsstring) (x : jsstring) : bool :=
  existsb (jsstring_eqb x) s.

Definition set_add (s : list jsstring) (x : jsstring) : list jsstring :=
  if set_has s x then s else s ++ [x].

Record CollisionReport : Type := {
  tested : N;
  collisions : N;
  uniqueHashes : N
}.

Section Diagnostics.
Context {W : Platform}.

Fixpoint testHashCollisions_loop (todo : nat) (hashes : list jsstring)
         (collided : N) : Rand (list jsstring * N) :=
  match todo with
  | O => ret (hashes, collided)
  | S todo' =>
      randomData <~ getRandomValues 64 ;;
      let hash := sha256Hex (inl randomData) in
      if set_has hashes hash
      then testHashCollisions_loop todo' hashes (collided + 1)
      else testHashCollisions_loop todo' (set_add hashes hash) collided
  end.

Definition testHashCollisions (count : nat) : Rand CollisionReport :=
  state <~ testHashCollisions_loop count [] 0 ;;
  ret {| tested := N.of_nat count;
         collisions := snd state;
         uniqueHashes := N.of_nat (List.length (fst state)) |}.

End Diagnostics.

(** *** Analytics.tsx: more of the page *)

Definition chunkSize : nat := 64 * 1024.

(** [crypto.getRandomValues] with its quota of 65536 octets a call.  (The
    fixed sizes 12, 16, 32 and 64 above are within it.) *)
Definition getRandomValues_quota (n : nat) : Rand ArrayBuffer :=
  if (N.of_nat n <=? 65536)%N then getRandomValues n
  else fun _ _ => Throw (Error (js "QuotaExceededError")).

(** [result.set(chunk, offset)] *)
Definition typed_array_set (result chunk : ArrayBuffer) (offset : nat)
  : Result ArrayBuffer :=
  if (offset + List.length chunk <=? List.length result)%nat
  then Ok (firstn offset result ++ chunk
             ++ skipn (offset + List.length chunk) result)
  else Throw (Error (js "RangeError")).

Fixpoint generateLargeRandomData_loop (todo i sizeBytes : nat)
         (result : ArrayBuffer) : Rand ArrayBuffer :=
  match todo with
  | O => ret result
  | S todo' =>
      let chunkStart := (i * chunkSize)%nat in
      let chunkEnd := Nat.min (chunkStart + chunkSize) sizeBytes in
      let chunkSizeActual := (chunkEnd - chunkStart)%nat in
      chunk <~ getRandomValues_quota chunkSizeActual ;;
      result' <~ lift (typed_array_set result chunk chunkStart) ;;
      generateLargeRandomData_loop todo' (S i) sizeBytes result'
  end.

(** [generateLargeRandomData]; [Math.ceil(sizeBytes / chunkSize)] is the
    rounded-up quotient. *)
Definition generateLargeRandomData (sizeBytes : nat) : Rand ArrayBuffer :=
  let chunks := ((sizeBytes + (chunkSize - 1)) / chunkSize)%nat in
  generateLargeRandomData_loop chunks 0 sizeBytes (repeat x00 sizeBytes).

Section AnalyticsMore.
Context {W : Platform}.

(** [unwrapAesKeyForAnalytics]; [None] is [null]. *)
Definition unwrapAesKeyForAnalytics (wrappedKey : ArrayBuffer)
           (wrapAlg : jsstring) (userPrivECDH userPrivRSA : option CryptoKey)
           (otherPartyPubECDH : option CryptoKey) (salt : ArrayBuffer)
  : option CryptoKey :=
  let attempt : Result (option CryptoKey) :=
    match jsstring_eqb wrapAlg (js "ECDH"), userPrivECDH, otherPartyPubECDH with
    | true, Some priv, Some pub =>
        kek <- deriveKEK_ECDH priv pub salt (js "wrap") ;;
        key <- subtle_unwrapKey_AES_GCM wrappedKey kek (firstn 12 salt) false
                                        [U_encrypt; U_decrypt] ;;
        Ok (Some key)
    | _, _, _ =>
        match jsstring_eqb wrapAlg (js "RSA-OAEP"), userPrivRSA with
        | true, Some priv =>
            key <- subtle_unwrapKey_RSA_OAEP wrappedKey priv false
                                             [U_encrypt; U_decrypt] ;;
            Ok (Some key)
        | _, _ => Ok None
        end
    end in
  match attempt with
  | Ok key => key
  | Throw _ => None
  end.

(** [allHashes]: the [Set] of the [hash_hex] of all loaded rows. *)
Definition allHashes (messages : list Message) : list jsstring :=
  fold_left (fun hashes m => set_add hashes m.(hash_hex)) messages [].

(** [collision_resistant] as [loadMessageAnalytics] records it for [msg]:
    [Array.from(allHashes).filter(h => h === msg.hash_hex).length === 1] *)
Definition collision_resistant (messages : list Message) (msg : Message) : bool :=
  (List.length (List.filter (fun h => jsstring_eqb h msg.(hash_hex))
                            (allHashes messages)) =? 1)%nat.

End AnalyticsMore.

(** *** Chat.tsx: the file branch of decryptMessage, the message list *)

(** [a || b] on strings, and the truth value of a string *)
Definition or_default (a b : jsstring) : jsstring :=
  match a with
  | [] => b
  | _ => a
  end.

Definition truthy (a : jsstring) : bool :=
  match a with
  | [] => false
  | _ => true
  end.

Section ChatMore.
Context {W : Platform}.

(** The [file] member of the result; the object URL stands for the blob
    it was created from. *)
Record DecryptedFile : Type := {
  shown_blob : Blob;
  shown_name : jsstring;
  shown_type : jsstring;
  shown_size : N
}.

(** What [decryptMessage] resolves to. *)
Record Decrypted : Type := {
  shown_text : jsstring;
  shown_file : option DecryptedFile
}.

(** The body of the inner [try] of [decryptMessage] (lines 314-417);
    [Ok None] is a [return { text: decryptedText }] inside it.
    [download] answers [storage.from('encrypted-files').download(url)],
    [None] for a download error. *)
Definition decryptMessage_file (st : ChatState) (keys : CryptoKeys)
           (recipient : UserKeysRow) (user : jsstring)
           (download : jsstring -> option ArrayBuffer)
           (msg : Message) (meta : FileMeta) : Result (option DecryptedFile) :=
  let from_storage : Result (option ArrayBuffer) :=
    match msg.(file_url) with
    | Some (c :: url) => Ok (download (c :: url))
    | _ => Ok None
    end in
  fetched <-
    match meta.(storage_type), meta.(encrypted_data_base64) with
    | Some kind, Some (c :: data) =>
        if jsstring_eqb kind (js "inline") then
          buffer <- base64ToArrayBuffer (c :: data) ;;
          Ok (Some buffer)
        else from_storage
    | _, _ => from_storage
    end ;;
  match fetched with
  | None => Ok None
  | Some encryptedFileBuffer =>
      if negb (truthy meta.(meta_iv)) || negb (truthy meta.(meta_salt))
         || negb (truthy meta.(meta_wrapped_key))
      then Ok None
      else
        fileIv <- base64ToArrayBuffer meta.(meta_iv) ;;
        fileSalt <- base64ToArrayBuffer meta.(meta_salt) ;;
        fileWrappedKey <- base64ToArrayBuffer meta.(meta_wrapped_key) ;;
        let fileWrapAlg := or_default meta.(meta_wrap_alg) msg.(wrap_alg) in
        fileAesKey <-
          (if jsstring_eqb fileWrapAlg (js "ECDH") then
             otherPartyEcdhPub <-
               (if jsstring_eqb msg.(sender_id) user then
                  importECDHPublicJwk recipient.(ecdh_public_key_jwk)
                else if jsstring_eqb msg.(sender_id) st.(recipientId) then
                  importECDHPublicJwk recipient.(ecdh_public_key_jwk)
                else
                  match st.(user_keys) msg.(sender_id) with
                  | Some senderData =>
                      importECDHPublicJwk senderData.(ecdh_public_key_jwk)
                  | None => Throw (Error (js "Sender keys not found"))
                  end) ;;
             own <- non_null keys.(ecdhKeyPair) ;;
             unwrapAesKeyWithECDH fileWrappedKey own.(privateKey)
                                  otherPartyEcdhPub fileSalt
           else
             own <- non_null keys.(rsaKeyPair) ;;
             unwrapAesKeyWithRSA fileWrappedKey own.(privateKey)) ;;
        decryptedFileBuffer <- aesGcmDecrypt fileAesKey fileIv encryptedFileBuffer ;;
        let type := or_default meta.(meta_type) (js "application/octet-stream") in
        Ok (Some {| shown_blob := {| blob_bytes := decryptedFileBuffer;
                                     blob_type := type |};
                    shown_name := or_default meta.(meta_name) (js "file");
                    shown_type := type;
                    shown_size := meta.(meta_size) |})
  end.

(** [decryptMessage] with both members of its result. *)
Definition decryptMessage_result (st : ChatState)
           (download : jsstring -> option ArrayBuffer) (msg : Message)
  : Result Decrypted :=
  match st.(keys), st.(recipient), st.(user) with
  | Some keys, Some recipient, Some user =>
      decrypted <- decryptMessage_payload st msg ;;
      let decryptedText := arrayBufferToString decrypted in
      match msg.(file_meta) with
      | Some meta =>
          Ok {| shown_text := decryptedText;
                shown_file :=
                  match decryptMessage_file st keys recipient user download
                                            msg meta with
                  | Ok file => file
                  | Throw _ => None
                  end |}
      | None => Ok {| shown_text := decryptedText; shown_file := None |}
      end
  | _, _, _ => Throw (Error (js "Keys, recipient, or user not loaded"))
  end.

(** An element of the [messages] state: the row and what is shown. *)
Record ShownMessage : Type := {
  shown_row : Message;
  decryptedContent : jsstring;
  decryptedFile : option DecryptedFile
}.

(** The [map] callback of [loadMessages], also the [INSERT] handler of
    [subscribeToMessages]. *)
Definition show_message (st : ChatState)
           (download : jsstring -> option ArrayBuffer) (msg : Message)
  : ShownMessage :=
  match decryptMessage_result st download msg with
  | Ok decrypted =>
      {| shown_row := msg; decryptedContent := decrypted.(shown_text);
         decryptedFile := decrypted.(shown_file) |}
  | Throw _ =>
      {| shown_row := msg; decryptedContent := js "[Decryption failed]";
         decryptedFile := None |}
  end.

(** [loadMessages], from the rows the query returned to the new state. *)
Definition loadMessages (st : ChatState)
           (download : jsstring -> option ArrayBuffer) (data : list Message)
  : list ShownMessage :=
  List.map (show_message st download) data.

End ChatMore.

(** Strings compare by code units ([a < b]). *)
Fixpoint js_string_ltb (a b : jsstring) : bool :=
  match a, b with
  | _, [] => false
  | [], _ :: _ => true
  | x :: a', y :: b' =>
      if (x <? y)%N then true
      else if (y <? x)%N then false
      else js_string_ltb a' b'
  end.

(** [array.sort()] on strings: ascending by code units, stable. *)
Fixpoint js_sort_insert (x : jsstring) (l : list jsstring) : list jsstring :=
  match l with
  | [] => [x]
  | y :: r => if js_string_ltb y x then y :: js_sort_insert x r else x :: l
  end.

Definition js_sort (l : list jsstring) : list jsstring :=
  fold_right js_sort_insert [] l.

(** [array.join(sep)] *)
Fixpoint js_join (sep : jsstring) (l : list jsstring) : jsstring :=
  match l with
  | [] => []
  | [x] => x
  | x :: r => x ++ sep ++ js_join sep r
  end.

(** [roomId] of [loadRecipientAndChat]:
    [[user.id, recipientId].sort().join('-')] *)
Definition roomId (user recipientId : jsstring) : jsstring :=
  js_join (js "-") (js_sort [user; recipientId]).

(** *** Database.tsx *)

(** [truncate]; [str.substring(0, len)] is the first [len] code units. *)
Definition truncate (showFull : bool) (str : jsstring) (len : nat) : jsstring :=
  if showFull then str
  else if (len <? List.length str)%nat then firstn len str ++ js "..."
       else str.

(** *** What sendMessage writes for a file *)

Section FileRows.
Context {W : Platform}.

(** The [fileMeta] object as initialised at lines 506-514, for the file
    key, nonce and salt drawn at [pos]. *)
Definition sealed_file_meta (file : File) (tape : Tape) (pos : nat)
           (wrappedKey : ArrayBuffer) (tag : jsstring) : FileMeta :=
  {| meta_name := file.(file_name);
     meta_type := file.(file_type);
     meta_size := file_size file;
     meta_iv := Base64.encode (List.map Byte.to_N (drawn_iv tape pos));
     meta_salt := Base64.encode (List.map Byte.to_N (drawn_salt tape pos));
     meta_wrapped_key := Base64.encode (List.map Byte.to_N wrappedKey);
     meta_wrap_alg := tag;
     encrypted_data_base64 := None;
     storage_type := None |}.

(** The encrypted file, Base64-encoded. *)
Definition sealed_file_base64 (file : File) (tape : Tape) (pos : nat) : jsstring :=
  Base64.encode
    (List.map Byte.to_N
       (aes_gcm_seal (List.map tape (seq pos 32)) (drawn_iv tape pos)
                     file.(file_bytes))).

(** The text that stands for a file (line 602). *)
Definition file_caption (formatFileSize : N -> jsstring) (file : File)
  : ArrayBuffer :=
  stringToArrayBuffer
    ([55357; 56526; 32]%N ++ file.(file_name) ++ js " ("
       ++ formatFileSize (file_size file) ++ js ")").

End FileRows.

(** ** Alice writes to Bob *)

Module Attachment.

(** Alice's chat with Bob. *)
Definition alice_state : ChatState (W := Toy.platform) :=
  {| user := Some (js "alice");
     keys := Some Scenario.alice_keys;
     recipient := Some Scenario.bob_row;
     recipientId := js "bob";
     chatId := Some (js "room");
     user_keys := fun _ => None |}.



Definition note : File :=
  {| file_name := js "note.txt"; file_type := js "text/plain";
     file_bytes := [x68; x69; x21] |}.

Definition formatFileSize (size : N) : jsstring := js "3 Bytes".

(** A blob store without the bucket, and one that takes the upload. *)
Definition refused : StorageOutcome :=
  {| upload_error := Some {| message := Some (js "Bucket not found");
                             statusCode := Some (StatusNumber 404) |};
     create_bucket_error := None; retry_error := None |}.

Definition accepted : StorageOutcome :=
  {| upload_error := None; create_bucket_error := None; retry_error := None |}.

(** The row Alice's [sendMessage] returns at the start of the tape. *)
Definition sent (st : ChatState (W := Toy.platform)) (storage : StorageOutcome)
           (selectedFile : option File) : Message :=
  match sendMessage (W := Toy.platform) formatFileSize st storage
                    Scenario.greeting selectedFile Scenario.tape 0 with
  | Ok (Some row, _) => row
  | _ => Scenario.empty_row
  end.

(** The one-time key drawn at the start of the tape, wrapped by Alice
    for Bob. *)
Definition wrapped_for_bob : ArrayBuffer :=
  match wrapAesKeyWithECDH (W := Toy.platform)
          (drawn_key (W := Toy.platform) Scenario.tape 0)
          (generateECDHKeypair (W := Toy.platform) Scenario.alice_ec).(privateKey)
          Scenario.bob_public_ecdh (drawn_salt Scenario.tape 0) with
  | Ok wrapped => wrapped
  | Throw _ => []
  end.

End Attachment.

(* ================================================================== *)
(** * Properties *)

(** ** The Base64 codec *)

Module Base64Facts.
Import Base64.

(** Lists are consumed three octets at a time. *)
Lemma list_ind3 (A : Type) (P : list A -> Prop) :
  P [] -> (forall a, P [a]) -> (forall a b, P [a; b]) ->
  (forall a b c r, P r -> P (a :: b :: c :: r)) ->
  forall l, P l.
Proof.
  intros H0 H1 H2 H3.
  assert (H : forall l, P l /\ (forall a, P (a :: l)) /\
                        (forall a b, P (a :: b :: l))).
  { induction l as [|x l [IH0 [IH1 IH2]]]; [now auto|].
    split; [apply IH1|]. split; [intro a; apply IH2|].
    intros a b. apply H3, IH0. }
  intro l. apply (H l).
Qed.

(** A check on every index below a bound, run once. *)
Lemma below_forallb (f : N -> bool) (n : nat) :
  forallb f (List.map N.of_nat (seq 0 n)) = true ->
  forall i, (i < N.of_nat n)%N -> f i = true.
Proof.
  intros H i Hi. rewrite forallb_forall in H. apply H.
  apply in_map_iff. exists (N.to_nat i). split; [apply N2Nat.id|].
  apply in_seq. lia.
Qed.

Lemma b64_index_char i : (i < 64)%N -> b64_index (b64_char i) = Some i.
Proof.
  intro Hi.
  apply (below_forallb
           (fun i => match b64_index (b64_char i) with
                     | Some j => (j =? i)%N
                     | None => false
                     end) 64) in Hi; [|now vm_compute].
  destruct (b64_index (b64_char i)); [|discriminate].
  apply N.eqb_eq in Hi. now subst.
Qed.

Lemma b64_char_plain i :
  (i < 64)%N ->
  is_ascii_whitespace (b64_char i) = false /\ b64_char i <> pad_char.
Proof.
  intro Hi.
  apply (below_forallb
           (fun i => negb (is_ascii_whitespace (b64_char i))
                     && negb (b64_char i =? pad_char)%N) 64) in Hi;
    [|now vm_compute].
  apply andb_true_iff in Hi. destruct Hi as [Hw Hp].
  apply negb_true_iff in Hw, Hp. apply N.eqb_neq in Hp. now split.
Qed.

Ltac euclid := zify; Z.to_euclidean_division_equations; lia.

Lemma to_sextets_range l : octets l -> sextets (to_sextets l).
Proof.
  unfold octets, sextets.
  induction l as [|a|a b|a b c r IH] using list_ind3; intro H; simpl.
  - constructor.
  - inversion_clear H. repeat constructor; euclid.
  - inversion_clear H as [|? ? Ha H']. inversion_clear H' as [|? ? Hb _].
    repeat constructor; euclid.
  - inversion_clear H as [|? ? Ha H']. inversion_clear H' as [|? ? Hb H''].
    inversion_clear H'' as [|? ? Hc Hr].
    repeat (constructor; [euclid|]). now apply IH.
Qed.

Lemma of_to_sextets l : octets l -> of_sextets (to_sextets l) = l.
Proof.
  unfold octets.
  induction l as [|a|a b|a b c r IH] using list_ind3; intro H; simpl.
  - reflexivity.
  - inversion_clear H. f_equal. euclid.
  - inversion_clear H as [|? ? Ha H']. inversion_clear H' as [|? ? Hb _].
    f_equal; [euclid|]. f_equal. euclid.
  - inversion_clear H as [|? ? Ha H']. inversion_clear H' as [|? ? Hb H''].
    inversion_clear H'' as [|? ? Hc Hr].
    rewrite (IH Hr).
    f_equal; [euclid|]. f_equal; [euclid|]. f_equal. euclid.
Qed.

Lemma indices_chars sx : sextets sx -> indices (List.map b64_char sx) = Some sx.
Proof.
  induction 1 as [|i sx Hi _ IH]; simpl; [reflexivity|].
  now rewrite (b64_index_char Hi), IH.
Qed.

Lemma mod4_step n : (S (S (S (S n))) mod 4 = n mod 4)%nat.
Proof.
  replace (S (S (S (S n)))) with (n + 1 * 4)%nat by lia.
  apply Nat.Div0.mod_add.
Qed.

(** The encoder's output is a whole number of four-character groups. *)
Lemma encode_length_mod4 l : (List.length (encode l) mod 4 = 0)%nat.
Proof.
  unfold encode.
  induction l as [|a|a b|a b c r IH] using list_ind3; try reflexivity.
  cbn [to_sextets padding List.map app List.length].
  now rewrite mod4_step.
Qed.

Lemma to_sextets_length_mod4 l : (List.length (to_sextets l) mod 4 <> 1)%nat.
Proof.
  induction l as [|a|a b|a b c r IH] using list_ind3; try (now vm_compute).
  cbn [to_sextets List.length].
  now rewrite mod4_step.
Qed.

Lemma padding_cases l :
  padding l = [] \/ padding l = [pad_char] \/ padding l = [pad_char; pad_char].
Proof.
  induction l using list_ind3; simpl; auto.
Qed.

Lemma strip_padding_spec cs pad :
  Forall (fun c => c <> pad_char) cs ->
  pad = [] \/ pad = [pad_char] \/ pad = [pad_char; pad_char] ->
  strip_padding (cs ++ pad) = cs.
Proof.
  intros Hcs Hpad. unfold strip_padding. rewrite rev_app_distr.
  assert (Hlast : match rev cs with
                  | [] => True
                  | c :: _ => c <> pad_char
                  end).
  { destruct (rev cs) as [|c r] eqn:E; [exact I|].
    rewrite Forall_forall in Hcs. apply Hcs.
    apply in_rev. rewrite E. now left. }
  destruct Hpad as [-> | [-> | ->]]; cbn [rev app].
  - rewrite app_nil_r.
    destruct (rev cs) as [|c r] eqn:E; [reflexivity|].
    unfold pad_char in Hlast.
    destruct c as [|p]; [reflexivity|].
    do 6 (destruct p as [p|p|]; try reflexivity). contradiction.
  - unfold pad_char at 1. cbn.
    destruct (rev cs) as [|c r] eqn:E.
    + rewrite <- (rev_involutive cs), E. reflexivity.
    + unfold pad_char in Hlast.
      destruct c as [|p]; [now rewrite <- E, rev_involutive|].
      do 6 (destruct p as [p|p|];
            try (now rewrite <- E, rev_involutive)).
      contradiction.
  - unfold pad_char. cbn. now rewrite rev_involutive.
Qed.

Lemma filter_id (A : Type) (f : A -> bool) (l : list A) :
  Forall (fun x => f x = true) l -> List.filter f l = l.
Proof.
  induction 1 as [|x l Hx _ IH]; simpl; [reflexivity|].
  now rewrite Hx, IH.
Qed.

(** Decoding what the encoder wrote gives the octets back. *)
Lemma atob_encode l : octets l -> atob (encode l) = Ok l.
Proof.
  intro Hl. pose proof (to_sextets_range Hl) as Hsx.
  unfold atob.
  rewrite filter_id.
  2:{ unfold encode. apply Forall_app. split.
      - apply Forall_map. eapply Forall_impl; [|exact Hsx].
        intros i Hi. cbv beta. now rewrite (proj1 (b64_char_plain Hi)).
      - destruct (padding_cases l) as [-> | [-> | ->]];
          repeat constructor. }
  rewrite encode_length_mod4. cbn [Nat.eqb].
  unfold encode. rewrite strip_padding_spec.
  2:{ apply Forall_map. eapply Forall_impl; [|exact Hsx].
      intros i Hi. exact (proj2 (b64_char_plain Hi)). }
  2:{ apply padding_cases. }
  rewrite length_map.
  destruct (Nat.eqb_spec (List.length (to_sextets l) mod 4) 1) as [E|_].
  - now apply to_sextets_length_mod4 in E.
  - now rewrite (indices_chars Hsx), (of_to_sextets Hl).
Qed.

Lemma to_N_octets (b : ArrayBuffer) : octets (List.map Byte.to_N b).
Proof.
  apply Forall_map, Forall_forall. intros x _.
  pose proof (Byte.to_N_bounded x). lia.
Qed.

Lemma to_uint8_to_N (x : byte) : to_uint8 (Byte.to_N x) = x.
Proof.
  unfold to_uint8. pose proof (Byte.to_N_bounded x).
  rewrite N.mod_small by lia. now rewrite Byte.of_to_N.
Qed.

Lemma btoa_binary (b : ArrayBuffer) :
  btoa (List.map Byte.to_N b) = Ok (encode (List.map Byte.to_N b)).
Proof.
  unfold btoa.
  replace (forallb _ _) with true; [reflexivity|].
  symmetry. apply forallb_forall. intros c Hc.
  apply in_map_iff in Hc. destruct Hc as [x [<- _]].
  pose proof (Byte.to_N_bounded x). apply N.leb_le. lia.
Qed.

End Base64Facts.

(** [arrayBufferToBase64] never throws: its binary string holds octets. *)
Lemma arrayBufferToBase64_ok (b : ArrayBuffer) :
  arrayBufferToBase64 b = Ok (Base64.encode (List.map Byte.to_N b)).
Proof. apply Base64Facts.btoa_binary. Qed.

Lemma base64ToArrayBuffer_encode (b : ArrayBuffer) :
  base64ToArrayBuffer (Base64.encode (List.map Byte.to_N b)) = Ok b.
Proof.
  unfold base64ToArrayBuffer.
  rewrite Base64Facts.atob_encode by apply Base64Facts.to_N_octets.
  cbn [bind]. f_equal. rewrite map_map.
  rewrite <- (map_id b) at 2. apply map_ext, Base64Facts.to_uint8_to_N.
Qed.

(** C10. For every byte buffer [b], [arrayBufferToBase64 b] returns, and
    [base64ToArrayBuffer] of the string it returns is a buffer of the
    same length holding the same bytes. *)
Theorem base64_roundtrip (b : ArrayBuffer) :
  (base64 <- arrayBufferToBase64 b ;; base64ToArrayBuffer base64) = Ok b.
Proof.
  rewrite arrayBufferToBase64_ok. cbn [bind].
  apply base64ToArrayBuffer_encode.
Qed.

(** ** The small platform obeys the laws *)

Module ToyFacts.
Import Toy.

Lemma bytes_eqb_refl a : bytes_eqb a a = true.
Proof.
  induction a as [|x a IH]; simpl; [reflexivity|].
  now rewrite (Byte.byte_dec_lb eq_refl), IH.
Qed.

Lemma tag_length key iv : List.length (tag key iv) = 16%nat.
Proof.
  unfold tag. rewrite length_firstn, !length_app, repeat_length. lia.
Qed.

Lemma open_seal key iv data : open key iv (seal key iv data) = Some data.
Proof.
  unfold open, seal.
  rewrite length_app, length_rev, tag_length.
  replace (List.length data + 16 - 16)%nat with (List.length (rev data) + 0)%nat
    by (rewrite length_rev; lia).
  rewrite skipn_app, firstn_app_2.
  rewrite Nat.add_0_r, skipn_all, firstn_O, app_nil_r.
  replace (List.length (rev data) - List.length (rev data))%nat with 0%nat by lia.
  cbn [skipn app]. rewrite bytes_eqb_refl, rev_involutive.
  replace (16 <=? List.length data + 16)%nat with true
    by (symmetry; apply Nat.leb_le; lia).
  reflexivity.
Qed.

Lemma agree_sym a b :
  exists secret, agree a (public_of b) = Some secret /\
                 agree b (public_of a) = Some secret.
Proof.
  unfold agree, public_of. eexists. split; [reflexivity|].
  do 3 f_equal.
  rewrite !N.Div0.mul_mod_idemp_r. f_equal. lia.
Qed.

Lemma rsa_open_seal d seed data wrapped :
  rsa_seal (rsa_public d) seed data = Some wrapped ->
  rsa_open d wrapped = Some data.
Proof.
  unfold rsa_seal, rsa_open.
  destruct (List.length data <=? 446)%nat; [|discriminate].
  intro H. injection H as <-.
  now rewrite (Byte.byte_dec_lb eq_refl), rev_involutive.
Qed.

Lemma to_N_to_uint8 m : (m < 256)%N -> Byte.to_N (to_uint8 m) = m.
Proof.
  intro Hm. unfold to_uint8. rewrite N.mod_small by exact Hm.
  destruct (Byte.of_N m) as [b|] eqn:E.
  - now apply Byte.to_of_N.
  - apply Byte.of_N_None_iff in E. lia.
Qed.

Lemma low_octet_not_ff m : (m < 255)%N -> Byte.eqb (to_uint8 m) xff = false.
Proof.
  intro Hm. destruct (Byte.eqb (to_uint8 m) xff) eqn:E; [|reflexivity].
  apply Byte.byte_dec_bl in E.
  assert (H : Byte.to_N (to_uint8 m) = 255%N) by now rewrite E.
  rewrite to_N_to_uint8 in H by lia. lia.
Qed.

Lemma decode_unit acc q m rest :
  (m < 255)%N ->
  decode_units acc (repeat xff q ++ to_uint8 m :: rest)
  = (acc + 255 * N.of_nat q + m)%N :: decode_units 0 rest.
Proof.
  intro Hm. revert acc. induction q as [|q IH]; intro acc.
  - cbn [repeat app decode_units].
    rewrite (low_octet_not_ff Hm), to_N_to_uint8 by lia. f_equal. lia.
  - cbn [repeat app decode_units]. change (Byte.eqb xff xff) with true.
    cbv iota. rewrite IH. f_equal. lia.
Qed.

Lemma decode_encode_text s : decode_text (encode_text s) = s.
Proof.
  unfold decode_text, encode_text.
  induction s as [|c s IH]; [reflexivity|].
  cbn [flat_map]. rewrite <- app_assoc. cbn [app].
  rewrite decode_unit by (apply N.mod_lt; discriminate).
  rewrite IH. f_equal. rewrite N2Nat.id.
  pose proof (N.div_mod c 255). lia.
Qed.

Lemma take_string_app s rest :
  take_string (N.of_nat (List.length s) :: s ++ rest) = Some (s, rest).
Proof.
  unfold take_string.
  replace (N.of_nat (List.length (s ++ rest)) <? N.of_nat (List.length s))%N
    with false
    by (symmetry; apply N.ltb_ge; rewrite length_app; lia).
  rewrite Nat2N.id.
  replace (List.length s) with (List.length s + 0)%nat at 1 by lia.
  rewrite firstn_app_2, firstn_O, app_nil_r.
  now rewrite skipn_app, skipn_all, Nat.sub_diag.
Qed.

Lemma read_string fuel s rest :
  read_value (S fuel) (3%N :: N.of_nat (List.length s) :: s ++ rest)
  = Some (JString s, rest).
Proof.
  change (read_value (S fuel) (3%N :: N.of_nat (List.length s) :: s ++ rest))
    with (match take_string (N.of_nat (List.length s) :: s ++ rest) with
          | Some (s, r') => Some (JString (Number := Z) s, r')
          | None => None
          end).
  now rewrite take_string_app.
Qed.

Lemma read_object fuel n r :
  read_value (S fuel) (5%N :: n :: r) =
  match read_fields (read_value fuel) (N.to_nat n) r with
  | Some (fs, r') => Some (JObject fs, r')
  | None => None
  end.
Proof. reflexivity. Qed.

(** One property whose value is a string. *)
Lemma read_field_string fuel k key s rest :
  read_fields (read_value (S fuel)) (S k)
              (N.of_nat (List.length key) :: key ++
                 3%N :: N.of_nat (List.length s) :: s ++ rest) =
  match read_fields (read_value (S fuel)) k rest with
  | Some (fs, l3) => Some ((key, JString s) :: fs, l3)
  | None => None
  end.
Proof.
  cbn [read_fields]. rewrite take_string_app. now rewrite read_string.
Qed.

Lemma parse_stringify_sealed indent c i s :
  let j := JObject [(js "ciphertext", JString c); (js "iv", JString i);
                    (js "salt", JString s)] in
  parse (stringify indent j) = Some j.
Proof.
  intro j. subst j. unfold parse, stringify.
  change (write_value (JObject [(js "ciphertext", JString c);
                                (js "iv", JString i); (js "salt", JString s)]))
    with (5%N :: 3%N ::
            N.of_nat (List.length (js "ciphertext")) :: js "ciphertext" ++
              (3%N :: N.of_nat (List.length c) :: c ++
            N.of_nat (List.length (js "iv")) :: js "iv" ++
              (3%N :: N.of_nat (List.length i) :: i ++
            N.of_nat (List.length (js "salt")) :: js "salt" ++
              (3%N :: N.of_nat (List.length s) :: s ++ [])))).
  change 64%nat with (S (S 62)).
  rewrite read_object.
  change (N.to_nat 3) with 3%nat.
  rewrite !read_field_string.
  reflexivity.
Qed.

Lemma laws : PlatformLaws platform.
Proof.
  constructor.
  - exact open_seal.
  - exact agree_sym.
  - exact rsa_open_seal.
  - intros indent j. apply decode_encode_text.
  - exact parse_stringify_sealed.
Qed.

End ToyFacts.

(** ** Key agreement and wrapping *)

Section WrapFacts.
Context {W : Platform}.

(** The key-encryption key, when both keys fit the derivation. *)
Lemma deriveKEK_ECDH_eq (priv pub : CryptoKey) d q salt info :
  usable priv ECDH U_deriveBits = true ->
  priv.(material) = EcPriv d ->
  pub.(algorithm) = ECDH ->
  pub.(material) = EcPub q ->
  deriveKEK_ECDH priv pub salt info =
  match ecdh_p256 d q with
  | Some secret =>
      Ok {| algorithm := AES_GCM; extractable := false;
            usages := [U_wrapKey; U_unwrapKey];
            material := Secret (hkdf_sha256 secret salt (utf8_encode info) 256) |}
  | None => Throw OperationError
  end.
Proof.
  intros Hu Hd Ha Hq.
  unfold deriveKEK_ECDH, subtle_deriveBits_ECDH.
  rewrite Hu, Hd, Ha, Hq.
  destruct (ecdh_p256 d q) as [secret|]; reflexivity.
Qed.

Context {L : PlatformLaws W}.

(** Wrapping for [b] with [a]'s private key, then unwrapping with the
    roles swapped. *)
Lemma unwrap_wrap_ECDH (aesKey : CryptoKey) raw a b salt :
  aesKey.(extractable) = true ->
  aesKey.(material) = Secret raw ->
  List.length raw = 32%nat ->
  exists wrapped,
    wrapAesKeyWithECDH aesKey (generateECDHKeypair a).(privateKey)
                       (generateECDHKeypair b).(publicKey) salt = Ok wrapped /\
    unwrapAesKeyWithECDH wrapped (generateECDHKeypair b).(privateKey)
                         (generateECDHKeypair a).(publicKey) salt =
    Ok {| algorithm := AES_GCM; extractable := false; usages := [U_decrypt];
          material := Secret raw |}.
Proof.
  intros He Hm Hlen.
  destruct (ecdh_agreement a b) as [secret [Hab Hba]].
  unfold wrapAesKeyWithECDH, unwrapAesKeyWithECDH.
  rewrite (@deriveKEK_ECDH_eq _ _ a (ec_public_of b)) by reflexivity.
  rewrite (@deriveKEK_ECDH_eq _ _ b (ec_public_of a)) by reflexivity.
  rewrite Hab, Hba. cbn [bind].
  unfold subtle_wrapKey_AES_GCM, subtle_unwrapKey_AES_GCM, export_raw.
  cbn [usable algorithm usages alg_eqb existsb usage_eqb orb andb material].
  rewrite He, Hm. cbn [bind]. eexists. split; [reflexivity|].
  rewrite aes_gcm_open_seal.
  unfold import_raw_AES_GCM. rewrite Hlen. reflexivity.
Qed.

End WrapFacts.

(** C4. For every extractable AES key with raw bytes [raw], every private
    agreement key [d], public agreement key [q] and salt,
    [wrapAesKeyWithECDH] is AES-GCM encryption of [raw] under
    HKDF-SHA256(ECDH(d, q), salt, "wrap") with the first 12 salt bytes as
    nonce; and for two agreement key pairs and a 256-bit key,
    [unwrapAesKeyWithECDH] with the roles swapped and the same salt gives
    the raw key back. *)
Theorem wrapAesKeyWithECDH_construction
        {W : Platform} (L : PlatformLaws W)
        (aesKey senderPriv recipientPub : CryptoKey)
        (raw : ArrayBuffer) (d : EcPrivate) (q : EcPublic)
        (a b : EcPrivate) (salt : ArrayBuffer) :
  aesKey.(extractable) = true ->
  aesKey.(material) = Secret raw ->
  List.length raw = 32%nat ->
  usable senderPriv ECDH U_deriveBits = true ->
  senderPriv.(material) = EcPriv d ->
  recipientPub.(algorithm) = ECDH ->
  recipientPub.(material) = EcPub q ->
  wrapAesKeyWithECDH aesKey senderPriv recipientPub salt =
    match wrapWithAgreement_spec raw d q salt with
    | Some wrapped => Ok wrapped
    | None => Throw OperationError
    end
  /\
  exists wrapped,
    wrapAesKeyWithECDH aesKey (generateECDHKeypair a).(privateKey)
                       (generateECDHKeypair b).(publicKey) salt = Ok wrapped /\
    unwrapAesKeyWithECDH wrapped (generateECDHKeypair b).(privateKey)
                         (generateECDHKeypair a).(publicKey) salt =
    Ok {| algorithm := AES_GCM; extractable := false; usages := [U_decrypt];
          material := Secret raw |}.
Proof.
  intros He Hm Hlen Hu Hd Ha Hq. split.
  - unfold wrapAesKeyWithECDH, wrapWithAgreement_spec.
    rewrite (@deriveKEK_ECDH_eq W senderPriv recipientPub d q salt (js "wrap")
                                Hu Hd Ha Hq).
    destruct (ecdh_p256 d q) as [secret|]; [|reflexivity].
    cbn [bind]. unfold subtle_wrapKey_AES_GCM, export_raw.
    cbn [usable algorithm usages alg_eqb existsb usage_eqb orb andb material].
    now rewrite He, Hm.
  - now apply unwrap_wrap_ECDH.
Qed.



(** ** The envelope codec *)

Section EnvelopeFacts.
Context {W : Platform}.

(** The wrap step, by the outcome of its first attempt. *)
Lemma wrap_prefer_ECDH_run keys aesKey recipientEcdhPub recipientRsaPub salt
      (tape : Tape) (pos : nat) :
  wrap_prefer_ECDH keys aesKey recipientEcdhPub recipientRsaPub salt tape pos =
  match agreement_attempt keys aesKey recipientEcdhPub salt with
  | Ok wrappedKey => Ok ((wrappedKey, js "ECDH"), pos)
  | Throw _ =>
      match subtle_wrapKey_RSA_OAEP (List.map tape (seq pos 32)) aesKey
                                    recipientRsaPub with
      | Ok wrappedKey => Ok ((wrappedKey, js "RSA-OAEP"), (pos + 32)%nat)
      | Throw e => Throw e
      end
  end.
Proof.
  unfold wrap_prefer_ECDH, try_catchR, lift, agreement_attempt.
  destruct (non_null (ecdhKeyPair keys)) as [own|e]; cbn [bind].
  - destruct (wrapAesKeyWithECDH aesKey (privateKey own) recipientEcdhPub salt);
      cbn [bind]; [reflexivity|].
    unfold wrapAesKeyWithRSA, bindR, getRandomValues, lift, ret.
    now destruct (subtle_wrapKey_RSA_OAEP _ aesKey recipientRsaPub).
  - unfold wrapAesKeyWithRSA, bindR, getRandomValues, lift, ret.
    now destruct (subtle_wrapKey_RSA_OAEP _ aesKey recipientRsaPub).
Qed.

(** [sendMessage_seal], by the outcome of its wrap step. *)
Lemma sendMessage_seal_run chat user rid keys recipientEcdhPub recipientRsaPub
      plaintext fileUrl fileMeta (tape : Tape) (pos : nat) :
  sendMessage_seal chat user rid keys recipientEcdhPub recipientRsaPub
                   plaintext fileUrl fileMeta tape pos =
  match wrap_prefer_ECDH keys (drawn_key tape pos) recipientEcdhPub
                         recipientRsaPub (drawn_salt tape pos)
                         tape (pos + 32 + 12 + 16)%nat with
  | Ok (wrapped, pos') =>
      Ok (sealed_message chat user rid plaintext tape pos
                         (fst wrapped) (snd wrapped) fileUrl fileMeta, pos')
  | Throw e => Throw e
  end.
Proof.
  unfold sendMessage_seal, genAesGcmKey, generateIV, generateSalt.
  unfold bindR at 1. unfold bindR at 1. cbn [getRandomValues ret].
  unfold bindR at 1. cbn [getRandomValues].
  unfold bindR at 1. cbn [getRandomValues].
  unfold bindR at 1.
  unfold aesGcmEncrypt, subtle_encrypt_AES_GCM.
  cbn [usable algorithm usages alg_eqb existsb usage_eqb orb andb material lift].
  unfold bindR at 1.
  fold (drawn_key tape pos). fold (drawn_iv tape pos). fold (drawn_salt tape pos).
  destruct (wrap_prefer_ECDH _ _ _ _ _ _ _) as [[wrapped pos']|e]; [|reflexivity].
  unfold bindR, lift, ret. rewrite !arrayBufferToBase64_ok.
  reflexivity.
Qed.

Lemma jsstring_eqb_refl s : jsstring_eqb s s = true.
Proof.
  induction s as [|c s IH]; [reflexivity|].
  cbn [jsstring_eqb]. now rewrite N.eqb_refl, IH.
Qed.

Lemma jsstring_eqb_eq a b : jsstring_eqb a b = true <-> a = b.
Proof.
  split; [|intros ->; apply jsstring_eqb_refl].
  revert b. induction a as [|x a IH]; intros [|y b] H; try discriminate.
  - reflexivity.
  - cbn [jsstring_eqb] in H. apply andb_true_iff in H. destruct H as [Hx Hab].
    apply N.eqb_eq in Hx. apply IH in Hab. now subst.
Qed.

Lemma import_published_ecdh row d r :
  publishes row d r ->
  importECDHPublicJwk row.(ecdh_public_key_jwk)
  = Ok (generateECDHKeypair d).(publicKey).
Proof.
  intros [He _]. unfold importECDHPublicJwk. now rewrite He.
Qed.

Lemma import_published_rsa row d r :
  publishes row d r ->
  importRSAPublicJwk row.(rsa_public_key_jwk)
  = Ok (generateRSAKeypair r).(publicKey).
Proof.
  intros [_ Hr]. unfold importRSAPublicJwk. now rewrite Hr.
Qed.

Lemma drawn_key_length (tape : Tape) pos :
  List.length (List.map tape (seq pos 32)) = 32%nat.
Proof. now rewrite length_map, length_seq. Qed.

Context {L : PlatformLaws W}.

(** A key that came out of an unwrap opens what the one-time key sealed. *)
Lemma aesGcmDecrypt_unwrapped raw iv data :
  aesGcmDecrypt {| algorithm := AES_GCM; extractable := false;
                   usages := [U_decrypt]; material := Secret raw |}
                iv (aes_gcm_seal raw iv data) = Ok data.
Proof.
  unfold aesGcmDecrypt, subtle_decrypt_AES_GCM.
  cbn [usable algorithm usages alg_eqb existsb usage_eqb orb andb material].
  now rewrite aes_gcm_open_seal.
Qed.

(** Sealing for the identity [(b, rb)] with the identity [(a, ra)]. *)
Lemma seal_for_identity chat S R a ra b rb plaintext fileUrl fileMeta
      (tape : Tape) (pos : nat) :
  exists wrapped,
    wrapAesKeyWithECDH (drawn_key tape pos) (generateECDHKeypair a).(privateKey)
                       (generateECDHKeypair b).(publicKey)
                       (drawn_salt tape pos) = Ok wrapped /\
    unwrapAesKeyWithECDH wrapped (generateECDHKeypair b).(privateKey)
                         (generateECDHKeypair a).(publicKey)
                         (drawn_salt tape pos) =
      Ok {| algorithm := AES_GCM; extractable := false; usages := [U_decrypt];
            material := Secret (List.map tape (seq pos 32)) |} /\
    sendMessage_seal chat S R (identity_keys a ra)
                     (generateECDHKeypair b).(publicKey)
                     (generateRSAKeypair rb).(publicKey)
                     plaintext fileUrl fileMeta tape pos =
      Ok (sealed_message chat S R plaintext tape pos wrapped (js "ECDH")
                         fileUrl fileMeta, (pos + 32 + 12 + 16)%nat).
Proof.
  destruct (@unwrap_wrap_ECDH W L (drawn_key tape pos)
              (List.map tape (seq pos 32)) a b (drawn_salt tape pos)
              eq_refl eq_refl (drawn_key_length tape pos))
    as [wrapped [Hw Hu]].
  exists wrapped. split; [exact Hw|]. split; [exact Hu|].
  rewrite sendMessage_seal_run, wrap_prefer_ECDH_run.
  unfold agreement_attempt. cbn [identity_keys ecdhKeyPair non_null bind].
  now rewrite Hw.
Qed.

(** Opening, as the peer of the sender, an agreement-tagged row. *)
Lemma open_sealed_ECDH (st : ChatState) chat S R a ra b rb rowA plaintext
      fileUrl fileMeta (tape : Tape) (pos : nat) wrapped :
  st.(user) = Some R ->
  st.(keys) = Some (identity_keys b rb) ->
  st.(recipient) = Some rowA ->
  st.(recipientId) = S ->
  publishes rowA a ra ->
  unwrapAesKeyWithECDH wrapped (generateECDHKeypair b).(privateKey)
                       (generateECDHKeypair a).(publicKey)
                       (drawn_salt tape pos) =
    Ok {| algorithm := AES_GCM; extractable := false; usages := [U_decrypt];
          material := Secret (List.map tape (seq pos 32)) |} ->
  decryptMessage_payload
    st (sealed_message chat S R plaintext tape pos wrapped (js "ECDH")
                       fileUrl fileMeta) = Ok plaintext.
Proof.
  intros Hu Hk Hr Hid Hpub Hunwrap.
  unfold decryptMessage_payload. rewrite Hu, Hk, Hr, Hid.
  cbn [sealed_message iv_base64 salt_base64 ciphertext_base64
       wrapped_key_base64 wrap_alg sender_id].
  rewrite !base64ToArrayBuffer_encode. cbn [bind].
  rewrite (jsstring_eqb_refl (js "ECDH")).
  rewrite (jsstring_eqb_refl S).
  rewrite (import_published_ecdh Hpub).
  destruct (jsstring_eqb S R); cbn [bind identity_keys ecdhKeyPair non_null];
    rewrite Hunwrap; cbn [bind]; apply aesGcmDecrypt_unwrapped.
Qed.


(** [sendMessage] itself, for a text message without a file. *)
Lemma sendMessage_text_roundtrip formatFileSize (sender receiver : ChatState)
      storage message chat S R a ra b rb rowA rowB (tape : Tape) (pos : nat) :
  is_blank message = false ->
  sender.(chatId) = Some chat ->
  sender.(user) = Some S ->
  sender.(keys) = Some (identity_keys a ra) ->
  sender.(recipient) = Some rowB ->
  sender.(recipientId) = R ->
  publishes rowA a ra ->
  publishes rowB b rb ->
  receiver.(user) = Some R ->
  receiver.(keys) = Some (identity_keys b rb) ->
  receiver.(recipient) = Some rowA ->
  receiver.(recipientId) = S ->
  exists row pos',
    sendMessage formatFileSize sender storage message None tape pos
    = Ok (Some row, pos') /\
    decryptMessage receiver row
    = Ok (arrayBufferToString (stringToArrayBuffer message)).
Proof.
  intros Hblank Hc Hs Hk Hr Hid HA HB Hu' Hk' Hr' Hid'.
  destruct (seal_for_identity chat S R a ra b rb (stringToArrayBuffer message)
                              None None tape pos)
    as [wrapped [_ [Hunwrap Hseal]]].
  unfold sendMessage. rewrite Hc, Hs, Hk, Hr, Hid, Hblank.
  cbn [andb]. rewrite (import_published_ecdh HB), (import_published_rsa HB).
  unfold bindR at 1. cbn [lift]. unfold bindR at 1. cbn [lift].
  unfold bindR at 1. cbn [ret fst snd]. unfold bindR at 1.
  rewrite Hseal. cbn [ret]. do 2 eexists. split; [reflexivity|].
  assert (Hopen : decryptMessage_payload receiver
                    (sealed_message chat S R (stringToArrayBuffer message)
                                    tape pos wrapped (js "ECDH") None None)
                  = Ok (stringToArrayBuffer message))
    by (eapply open_sealed_ECDH; eassumption).
  unfold decryptMessage. now rewrite Hopen.
Qed.

End EnvelopeFacts.

(** C1. For every plaintext [P] and every pair of identities, each with
    an agreement key pair and an encapsulation key pair whose public
    halves are published, [sendMessage_seal] (fresh one-time key, 12-byte
    nonce and 16-byte salt from the entropy tape) produces an envelope,
    and opening it with the recipient's private keys and the sender's
    published key returns exactly [P]. *)
Theorem envelope_roundtrip
        {W : Platform} (L : PlatformLaws W)
        (tape : Tape) (pos : nat) (P : ArrayBuffer)
        (chat S R : jsstring)
        (a : EcPrivate) (ra : RsaPrivate) (b : EcPrivate) (rb : RsaPrivate)
        (rowA rowB : UserKeysRow)
        (recipientEcdhPub recipientRsaPub : CryptoKey)
        (fileUrl : option jsstring) (fileMeta : option FileMeta)
        (receiver : ChatState) :
  publishes rowA a ra ->
  publishes rowB b rb ->
  importECDHPublicJwk rowB.(ecdh_public_key_jwk) = Ok recipientEcdhPub ->
  importRSAPublicJwk rowB.(rsa_public_key_jwk) = Ok recipientRsaPub ->
  receiver.(user) = Some R ->
  receiver.(keys) = Some (identity_keys b rb) ->
  receiver.(recipient) = Some rowA ->
  receiver.(recipientId) = S ->
  exists envelope pos',
    sendMessage_seal chat S R (identity_keys a ra)
                     recipientEcdhPub recipientRsaPub P fileUrl fileMeta
                     tape pos = Ok (envelope, pos') /\
    decryptMessage_payload receiver envelope = Ok P /\
    decryptMessage receiver envelope = Ok (arrayBufferToString P).
Proof.
  intros HA HB HimpE HimpR Hu Hk Hr Hid.
  rewrite (import_published_ecdh HB) in HimpE.
  rewrite (import_published_rsa HB) in HimpR.
  injection HimpE as <-. injection HimpR as <-.
  destruct (@seal_for_identity W L chat S R a ra b rb P fileUrl fileMeta tape pos)
    as [wrapped [_ [Hunwrap Hseal]]].
  do 2 eexists. split; [exact Hseal|].
  assert (Hopen : decryptMessage_payload receiver
                    (sealed_message chat S R P tape pos wrapped (js "ECDH")
                                    fileUrl fileMeta) = Ok P).
  { eapply open_sealed_ECDH; eassumption. }
  split; [exact Hopen|].
  unfold decryptMessage. now rewrite Hopen.
Qed.

(** C3. In every seal the agreement path is attempted first: when the
    attempt returns, the envelope carries its result under the tag
    'ECDH'; when it throws, whatever the exception, the key is wrapped by
    RSA-OAEP and the tag is 'RSA-OAEP'.  In open, the unwrap path depends
    on the tag alone: the outcome is that of a receiver who holds only
    the key pair the tag names, so the other path is never tried. *)
Theorem wrap_selection_policy
        {W : Platform} (chat S R : jsstring) (senderKeys : CryptoKeys)
        (recipientEcdhPub recipientRsaPub : CryptoKey) (P : ArrayBuffer)
        (fileUrl : option jsstring) (fileMeta : option FileMeta)
        (tape : Tape) (pos : nat) (st : ChatState) (msg : Message) :
  sendMessage_seal chat S R senderKeys recipientEcdhPub recipientRsaPub P
                   fileUrl fileMeta tape pos =
    match agreement_attempt senderKeys (drawn_key tape pos) recipientEcdhPub
                            (drawn_salt tape pos) with
    | Ok wrappedKey =>
        Ok (sealed_message chat S R P tape pos wrappedKey (js "ECDH")
                           fileUrl fileMeta, (pos + 32 + 12 + 16)%nat)
    | Throw _ =>
        match wrapAesKeyWithRSA (drawn_key tape pos) recipientRsaPub
                                tape (pos + 32 + 12 + 16)%nat with
        | Ok (wrappedKey, pos') =>
            Ok (sealed_message chat S R P tape pos wrappedKey (js "RSA-OAEP")
                               fileUrl fileMeta, pos')
        | Throw e => Throw e
        end
    end
  /\
  decryptMessage_payload st msg =
    decryptMessage_payload (only_tagged_keys st msg) msg.
Proof.
  split.
  - rewrite sendMessage_seal_run, wrap_prefer_ECDH_run.
    destruct (agreement_attempt _ _ _ _); [reflexivity|].
    unfold wrapAesKeyWithRSA, bindR, getRandomValues, lift.
    now destruct (subtle_wrapKey_RSA_OAEP _ _ _).
  - unfold decryptMessage_payload, only_tagged_keys.
    cbn [keys recipient user recipientId user_keys].
    destruct (keys st) as [k|]; [|reflexivity].
    destruct (recipient st) as [row|]; [|reflexivity].
    destruct (user st) as [u|]; [|reflexivity].
    destruct (jsstring_eqb (wrap_alg msg) (js "ECDH")); reflexivity.
Qed.

(** When the tagged path fails, the failure is the outcome: an
    agreement-tagged row whose unwrap throws is not retried by RSA. *)
Lemma no_fallback_in_open {W : Platform} (st : ChatState) (msg : Message)
      k row u iv salt ciphertext wrappedKey pub own e :
  st.(keys) = Some k -> st.(recipient) = Some row -> st.(user) = Some u ->
  base64ToArrayBuffer msg.(iv_base64) = Ok iv ->
  base64ToArrayBuffer msg.(salt_base64) = Ok salt ->
  base64ToArrayBuffer msg.(ciphertext_base64) = Ok ciphertext ->
  base64ToArrayBuffer msg.(wrapped_key_base64) = Ok wrappedKey ->
  msg.(wrap_alg) = js "ECDH" ->
  msg.(sender_id) = u ->
  importECDHPublicJwk row.(ecdh_public_key_jwk) = Ok pub ->
  k.(ecdhKeyPair) = Some own ->
  unwrapAesKeyWithECDH wrappedKey own.(privateKey) pub salt = Throw e ->
  decryptMessage_payload st msg = Throw e.
Proof.
  intros Hk Hr Hu Hiv Hsalt Hct Hwk Htag Hs Himp Hown Hunwrap.
  unfold decryptMessage_payload.
  rewrite Hk, Hr, Hu, Hiv, Hsalt, Hct, Hwk, Htag, Hs. cbn [bind].
  rewrite !jsstring_eqb_refl, Himp, Hown. cbn [bind non_null].
  now rewrite Hunwrap.
Qed.

(** C5. For every envelope [sendMessage_seal] produces, the stored
    Base64 ciphertext encodes the AES-GCM output, the stored hash is the
    SHA-256 hex digest of that Base64 text, and the check the analytics
    pass makes from the stored fields alone succeeds, whatever keys the
    checking party holds. *)
Theorem integrity_hash_over_encoded_ciphertext
        {W : Platform} (chat S R : jsstring) (senderKeys : CryptoKeys)
        (recipientEcdhPub recipientRsaPub : CryptoKey) (P : ArrayBuffer)
        (fileUrl : option jsstring) (fileMeta : option FileMeta)
        (tape : Tape) (pos : nat) (envelope : Message) (pos' : nat) :
  sendMessage_seal chat S R senderKeys recipientEcdhPub recipientRsaPub P
                   fileUrl fileMeta tape pos = Ok (envelope, pos') ->
  arrayBufferToBase64
    (aes_gcm_seal (List.map tape (seq pos 32)) (drawn_iv tape pos) P)
    = Ok envelope.(ciphertext_base64) /\
  envelope.(hash_hex)
    = hex_string (sha256 (utf8_encode envelope.(ciphertext_base64))) /\
  envelope.(hash_hex) = sha256Hex (inr envelope.(ciphertext_base64)) /\
  forall user holder directory,
    (analyzeMessage user holder directory envelope).(hash_verified) = true.
Proof.
  rewrite sendMessage_seal_run.
  destruct (wrap_prefer_ECDH _ _ _ _ _ _ _) as [[wrapped p]|e]; [|discriminate].
  intro H. injection H as <- <-.
  split; [apply arrayBufferToBase64_ok|].
  split; [reflexivity|]. split; [reflexivity|].
  intros user holder directory. unfold analyzeMessage.
  cbn [sealed_message iv_base64 salt_base64 ciphertext_base64
       wrapped_key_base64 hash_hex].
  rewrite !base64ToArrayBuffer_encode. cbn [bind hash_verified].
  apply jsstring_eqb_refl.
Qed.

(** C6, as the code has it.  The tag is a string; 'ECDH' selects the
    agreement path and every other value, 'RSA-OAEP' or not, selects the
    RSA path: a row with any other tag opens exactly as the same row
    tagged 'RSA-OAEP' does. *)
Theorem other_tags_open_as_RSA
        {W : Platform} (st : ChatState) (msg : Message) :
  msg.(wrap_alg) <> js "ECDH" ->
  decryptMessage_payload st msg =
    decryptMessage_payload st (with_wrap_alg msg (js "RSA-OAEP")) /\
  decryptMessage st msg = decryptMessage st (with_wrap_alg msg (js "RSA-OAEP")).
Proof.
  intro Htag.
  assert (H : decryptMessage_payload st msg =
              decryptMessage_payload st (with_wrap_alg msg (js "RSA-OAEP"))).
  { unfold decryptMessage_payload.
    cbn [with_wrap_alg iv_base64 salt_base64 ciphertext_base64
         wrapped_key_base64 wrap_alg sender_id].
    destruct (jsstring_eqb (wrap_alg msg) (js "ECDH")) eqn:E.
    - apply jsstring_eqb_eq in E. contradiction.
    - reflexivity. }
  split; [exact H|]. unfold decryptMessage. now rewrite H.
Qed.

(** C2, as the code has it.  [decryptMessage] never reads the stored
    hash: its outcome is the same whatever [hash_hex] holds.  The
    analytics pass recomputes the hash of the stored Base64 ciphertext
    and compares; it records that verdict and the decryption verdict
    separately, and the decryption verdict does not depend on the stored
    hash. *)
Theorem hash_checked_by_analytics_only
        {W : Platform} (st : ChatState) (msg : Message) (h : jsstring)
        (user : jsstring) (holder : CryptoKeys)
        (directory : jsstring -> option UserKeysRow) :
  decryptMessage st (with_hash_hex msg h) = decryptMessage st msg /\
  (analyzeMessage user holder directory msg).(hash_verified)
    = columns_decode msg &&
      jsstring_eqb (sha256Hex (inr msg.(ciphertext_base64))) msg.(hash_hex) /\
  (analyzeMessage user holder directory (with_hash_hex msg h)).(decryption_success)
    = (analyzeMessage user holder directory msg).(decryption_success).
Proof.
  split; [reflexivity|]. split.
  - unfold analyzeMessage, columns_decode.
    destruct (base64ToArrayBuffer (iv_base64 msg)); [|reflexivity].
    destruct (base64ToArrayBuffer (salt_base64 msg)); [|reflexivity].
    destruct (base64ToArrayBuffer (ciphertext_base64 msg)); [|reflexivity].
    destruct (base64ToArrayBuffer (wrapped_key_base64 msg)); reflexivity.
  - unfold analyzeMessage.
    cbn [with_hash_hex iv_base64 salt_base64 ciphertext_base64
         wrapped_key_base64 wrap_alg sender_id recipient_id].
    destruct (base64ToArrayBuffer (iv_base64 msg)); [|reflexivity].
    destruct (base64ToArrayBuffer (salt_base64 msg)); [|reflexivity].
    destruct (base64ToArrayBuffer (ciphertext_base64 msg)); [|reflexivity].
    destruct (base64ToArrayBuffer (wrapped_key_base64 msg)); reflexivity.
Qed.



(** ** The two identities at work *)

Example agreement_row_tag : Scenario.agreement_row.(wrap_alg) = js "ECDH".
Proof. vm_compute. reflexivity. Qed.

Example rsa_row_tag : Scenario.rsa_row.(wrap_alg) = js "RSA-OAEP".
Proof. vm_compute. reflexivity. Qed.

Example bob_opens_agreement_row :
  decryptMessage (W := Toy.platform) Scenario.bob_state Scenario.agreement_row
  = Ok Scenario.greeting.
Proof. vm_compute. reflexivity. Qed.

Example bob_opens_rsa_row :
  decryptMessage (W := Toy.platform) Scenario.bob_state Scenario.rsa_row
  = Ok Scenario.greeting.
Proof. vm_compute. reflexivity. Qed.

(** C6, counterexample.  A row tagged 'FOO' is not refused: Bob opens it
    through the RSA path and gets the text. *)
Lemma third_tag_is_not_a_decode_error :
  Scenario.foo_row.(wrap_alg) = js "FOO" /\
  decryptMessage (W := Toy.platform) Scenario.bob_state Scenario.foo_row
  = Ok Scenario.greeting.
Proof. split; vm_compute; reflexivity. Qed.

(** C2, counterexample.  The stored hash of the row differs from the
    hash of its ciphertext, and [decryptMessage] returns the text without
    reporting anything. *)
Lemma hash_mismatch_goes_unreported :
  jsstring_eqb
    (sha256Hex (W := Toy.platform) (inr Scenario.rehashed_row.(ciphertext_base64)))
    Scenario.rehashed_row.(hash_hex) = false /\
  decryptMessage (W := Toy.platform) Scenario.bob_state Scenario.rehashed_row
  = Ok Scenario.greeting.
Proof. split; vm_compute; reflexivity. Qed.

(** On that row the analytics pass gives its two verdicts apart: the hash
    does not verify, the decryption succeeds. *)
Example analytics_two_verdicts :
  let a := analyzeMessage (W := Toy.platform) (js "bob")
             (identity_keys (W := Toy.platform) Scenario.bob_ec Scenario.bob_rsa)
             (fun _ => Some Scenario.alice_row) Scenario.rehashed_row in
  a.(hash_verified) = false /\ a.(decryption_success) = true /\
  a.(decrypted) = Scenario.greeting.
Proof. vm_compute. repeat split. Qed.

(** ** The file payload: size policy *)

Lemma encode_length_nat l :
  List.length (Base64.encode l) = (4 * ((List.length l + 2) / 3))%nat.
Proof.
  unfold Base64.encode.
  induction l as [|a|a b|a b c r IH] using Base64Facts.list_ind3;
    try reflexivity.
  cbn [Base64.to_sextets Base64.padding List.map app List.length].
  rewrite IH.
  replace (S (S (S (List.length r))) + 2)%nat
    with (1 * 3 + (List.length r + 2))%nat by lia.
  rewrite Nat.div_add_l by discriminate. lia.
Qed.

(** The Base64 text of [n] octets has [4 * ceil(n / 3)] characters. *)
Lemma encode_length (b : ArrayBuffer) :
  js_length (Base64.encode (List.map Byte.to_N b))
  = (4 * ((N.of_nat (List.length b) + 2) / 3))%N.
Proof.
  unfold js_length. rewrite encode_length_nat, length_map.
  rewrite Nat2N.inj_mul, Nat2N.inj_div, Nat2N.inj_add. reflexivity.
Qed.

(** Measured on the ciphertext, the threshold is 3,932,157 octets. *)
Lemma inline_threshold_in_octets (b : ArrayBuffer) :
  (js_length (Base64.encode (List.map Byte.to_N b)) < inline_threshold)%N
  <-> (N.of_nat (List.length b) <= 3932157)%N.
Proof.
  rewrite encode_length. unfold inline_threshold.
  generalize (N.of_nat (List.length b)). intro n.
  change (5 * 1024 * 1024)%N with 5242880%N.
  split; intro H; zify; Z.to_euclidean_division_equations; lia.
Qed.

Lemma sendMessage_store_small out fileMeta s uploadError :
  out.(upload_error) = Some uploadError ->
  (js_length s <? inline_threshold)%N = true ->
  sendMessage_store out fileMeta s = Ok (store_inline fileMeta s).
Proof.
  intros Hup Hs. unfold sendMessage_store. now rewrite Hup, Hs.
Qed.

Lemma sendMessage_store_large out fileMeta s uploadError :
  out.(upload_error) = Some uploadError ->
  (js_length s <? inline_threshold)%N = false ->
  (exists e, sendMessage_store out fileMeta s = Throw e) \/
  (sendMessage_store out fileMeta s = Ok fileMeta /\
   out.(create_bucket_error) = None /\ out.(retry_error) = None).
Proof.
  intros Hup Hs. unfold sendMessage_store. rewrite Hup, Hs.
  destruct (_ || _ || _).
  - destruct (create_bucket_error out) as [ce|].
    + left. cbn [bind snd fst]. eexists. reflexivity.
    + destruct (retry_error out) as [re|].
      * destruct (_ || _); cbn [bind snd fst]; left; eexists; reflexivity.
      * right. now cbn [bind snd fst].
  - left. cbn [bind snd fst]. eexists. reflexivity.
Qed.

(** C9, as the code has it.  When the first upload fails, the encrypted
    payload is inlined exactly when its Base64 text is shorter than
    5 * 1024 * 1024 characters, that is when the ciphertext has at most
    3,932,157 octets; otherwise nothing is inlined: the send throws,
    unless the bucket could be created and the second upload went
    through. *)
Theorem inline_fallback_by_encoded_length
        (out : StorageOutcome) (fileMeta : FileMeta)
        (encryptedFile : ArrayBuffer) (encryptedBase64 : jsstring)
        (uploadError : StorageError) :
  arrayBufferToBase64 encryptedFile = Ok encryptedBase64 ->
  out.(upload_error) = Some uploadError ->
  ((js_length encryptedBase64 < inline_threshold)%N <->
   (N.of_nat (List.length encryptedFile) <= 3932157)%N) /\
  ((js_length encryptedBase64 < inline_threshold)%N ->
   sendMessage_store out fileMeta encryptedBase64
   = Ok (store_inline fileMeta encryptedBase64)) /\
  ((inline_threshold <= js_length encryptedBase64)%N ->
   (exists e, sendMessage_store out fileMeta encryptedBase64 = Throw e) \/
   (sendMessage_store out fileMeta encryptedBase64 = Ok fileMeta /\
    out.(create_bucket_error) = None /\ out.(retry_error) = None)).
Proof.
  intros Henc Hup. rewrite arrayBufferToBase64_ok in Henc.
  injection Henc as <-.
  split; [apply inline_threshold_in_octets|]. split.
  - intro H. eapply sendMessage_store_small; [exact Hup|]. now apply N.ltb_lt.
  - intro H. eapply sendMessage_store_large; [exact Hup|]. now apply N.ltb_ge.
Qed.

(** C9, counterexample.  A ciphertext of 4,000,000 octets is below
    5 MiB, yet after a failed upload it is not inlined: the send
    throws. *)
Lemma below_5MiB_yet_not_inlined :
  let encryptedFile := repeat x00 (N.to_nat 4000000) in
  let fileMeta :=
    {| meta_name := js "a.bin"; meta_type := js "application/octet-stream";
       meta_size := 3999984; meta_iv := []; meta_salt := [];
       meta_wrapped_key := []; meta_wrap_alg := js "ECDH";
       encrypted_data_base64 := None; storage_type := None |} in
  let out :=
    {| upload_error := Some {| message := Some (js "quota exceeded");
                               statusCode := None |};
       create_bucket_error := None; retry_error := None |} in
  (N.of_nat (List.length encryptedFile) < 5 * 1024 * 1024)%N /\
  exists encryptedBase64,
    arrayBufferToBase64 encryptedFile = Ok encryptedBase64 /\
    sendMessage_store out fileMeta encryptedBase64
    = Throw (Error (js "File upload failed: quota exceeded")).
Proof.
  intros encryptedFile fileMeta out.
  assert (Hlen : N.of_nat (List.length encryptedFile) = 4000000%N).
  { unfold encryptedFile. now rewrite repeat_length, N2Nat.id. }
  split; [now rewrite Hlen|].
  exists (Base64.encode (List.map Byte.to_N encryptedFile)).
  split; [apply arrayBufferToBase64_ok|].
  assert (Hbig : (js_length (Base64.encode (List.map Byte.to_N encryptedFile))
                  <? inline_threshold)%N = false).
  { rewrite encode_length, Hlen. reflexivity. }
  generalize dependent (Base64.encode (List.map Byte.to_N encryptedFile)).
  intros s Hbig. unfold sendMessage_store. cbv zeta.
  cbn [upload_error out]. rewrite Hbig. reflexivity.
Qed.

(** ** The backup sealer *)

Section BackupFacts.
Context {W : Platform}.

(** The sealing key: PBKDF2-HMAC-SHA256 of the passphrase, under the
    given salt, with the one iteration count of the module. *)
Lemma deriveKeyFromPassphrase_eq passphrase salt :
  deriveKeyFromPassphrase passphrase salt =
  Ok {| algorithm := AES_GCM; extractable := false;
        usages := [U_encrypt; U_decrypt];
        material := Secret (pbkdf2_sha256 (utf8_encode passphrase) salt
                                          pbkdf2_iterations 256) |}.
Proof. reflexivity. Qed.

Lemma sealed_properties c i s :
  get_property (SealedBackup c i s) (js "salt") = Ok (Some (JString s)) /\
  get_property (SealedBackup c i s) (js "iv") = Ok (Some (JString i)) /\
  get_property (SealedBackup c i s) (js "ciphertext") = Ok (Some (JString c)).
Proof. repeat split. Qed.

Lemma exportKeysSealed_run e r passphrase (tape : Tape) (pos : nat) :
  exportKeysSealed e r passphrase tape pos =
  Ok (blob_of_string (JSON_stringify 2 (sealed_backup e r passphrase tape pos))
                     (js "application/json"),
      (pos + 16 + 12)%nat).
Proof.
  unfold exportKeysSealed, generateSalt, generateIV.
  unfold bindR at 1. cbn [getRandomValues].
  unfold bindR at 1. cbn [getRandomValues].
  rewrite deriveKeyFromPassphrase_eq.
  unfold bindR at 1. cbn [lift].
  unfold aesGcmEncrypt, subtle_encrypt_AES_GCM.
  cbn [usable algorithm usages alg_eqb existsb usage_eqb orb andb material].
  unfold bindR, lift, ret. rewrite !arrayBufferToBase64_ok.
  reflexivity.
Qed.

Context {L : PlatformLaws W}.

(** Unsealing, with the sealing passphrase, a blob holding the JSON text
    of a sealed backup. *)
Lemma importKeysSealed_sealed e r passphrase (tape : Tape) (pos : nat) type :
  JSON_parse (JSON_stringify 0 (BackupData e r)) = Some (BackupData e r) ->
  importKeysSealed
    (blob_of_string (JSON_stringify 2 (sealed_backup e r passphrase tape pos)) type)
    passphrase
  = Ok (BackupData e r).
Proof.
  intro Hjson. unfold importKeysSealed, blob_text, blob_of_string.
  cbn [blob_bytes]. rewrite JSON_text_utf8.
  unfold json_parse at 1, sealed_backup, SealedBackup.
  rewrite JSON_parse_stringify_sealed. cbn [bind].
  change (JObject [(js "ciphertext", JString ?c); (js "iv", JString ?i);
                   (js "salt", JString ?s)])
    with (SealedBackup c i s).
  destruct (sealed_properties
              (Base64.encode
                 (List.map Byte.to_N
                    (aes_gcm_seal
                       (backup_key passphrase (backup_salt tape pos))
                       (backup_iv tape pos)
                       (utf8_encode (JSON_stringify 0 (BackupData e r))))))
              (Base64.encode (List.map Byte.to_N (backup_iv tape pos)))
              (Base64.encode (List.map Byte.to_N (backup_salt tape pos))))
    as [Hs [Hi Hc]].
  rewrite Hs. cbn [bind to_string json_to_string].
  rewrite base64ToArrayBuffer_encode. cbn [bind].
  rewrite Hi. cbn [bind to_string json_to_string].
  rewrite base64ToArrayBuffer_encode. cbn [bind].
  rewrite Hc. cbn [bind to_string json_to_string].
  rewrite base64ToArrayBuffer_encode. cbn [bind].
  rewrite deriveKeyFromPassphrase_eq. cbn [bind].
  unfold aesGcmDecrypt, subtle_decrypt_AES_GCM.
  cbn [usable algorithm usages alg_eqb existsb usage_eqb orb andb material].
  fold (backup_key passphrase (backup_salt tape pos)).
  rewrite aes_gcm_open_seal. cbn [bind].
  unfold arrayBufferToString. rewrite JSON_text_utf8.
  unfold json_parse. now rewrite Hjson.
Qed.

End BackupFacts.

(** C7. For every bundle of two private JWKs that JSON carries
    unchanged and every passphrase, [exportKeysSealed] writes a blob, and
    [importKeysSealed] with the same passphrase returns the bundle.  The
    blob stores the 16 fresh salt octets; the sealing key is
    PBKDF2-HMAC-SHA256 of the passphrase under that salt, with one
    iteration count, 200,000, for sealing and unsealing. *)
Theorem backup_roundtrip
        {W : Platform} (L : PlatformLaws W)
        (ecdhPrivateJwk rsaPrivateJwk : JsonValue) (passphrase : jsstring)
        (tape : Tape) (pos : nat) :
  JSON_parse (JSON_stringify 0 (BackupData ecdhPrivateJwk rsaPrivateJwk))
  = Some (BackupData ecdhPrivateJwk rsaPrivateJwk) ->
  exists blob,
    exportKeysSealed ecdhPrivateJwk rsaPrivateJwk passphrase tape pos
    = Ok (blob, (pos + 16 + 12)%nat) /\
    blob_text blob
    = JSON_stringify 2 (sealed_backup ecdhPrivateJwk rsaPrivateJwk passphrase
                                      tape pos) /\
    List.length (backup_salt tape pos) = 16%nat /\
    (forall salt,
        deriveKeyFromPassphrase passphrase salt =
        Ok {| algorithm := AES_GCM; extractable := false;
              usages := [U_encrypt; U_decrypt];
              material := Secret (pbkdf2_sha256 (utf8_encode passphrase) salt
                                                pbkdf2_iterations 256) |}) /\
    (200000 <= pbkdf2_iterations)%N /\
    importKeysSealed blob passphrase
    = Ok (BackupData ecdhPrivateJwk rsaPrivateJwk).
Proof.
  intro Hjson. eexists. split; [apply exportKeysSealed_run|].
  split; [apply JSON_text_utf8|].
  split; [unfold backup_salt; now rewrite length_map, length_seq|].
  split; [intro salt; apply deriveKeyFromPassphrase_eq|].
  split; [discriminate|].
  now apply importKeysSealed_sealed.
Qed.

(** An unsealing failure after the decoding steps is the one opaque
    error. *)
Lemma importKeysSealed_opaque_after_decoding
      {W : Platform} (blob : Blob) (passphrase : jsstring)
      sealed v1 salt v2 iv v3 ciphertext :
  JSON_parse (blob_text blob) = Some sealed ->
  get_property sealed (js "salt") = Ok v1 ->
  base64ToArrayBuffer (to_string v1) = Ok salt ->
  get_property sealed (js "iv") = Ok v2 ->
  base64ToArrayBuffer (to_string v2) = Ok iv ->
  get_property sealed (js "ciphertext") = Ok v3 ->
  base64ToArrayBuffer (to_string v3) = Ok ciphertext ->
  (exists bundle, importKeysSealed blob passphrase = Ok bundle) \/
  importKeysSealed blob passphrase = Throw BackupRestoreError.
Proof.
  intros Hp H1 Hs H2 Hi H3 Hc.
  assert (Hp' : json_parse (blob_text blob) = Ok sealed)
    by (unfold json_parse; now rewrite Hp).
  unfold importKeysSealed.
  rewrite Hp'. cbn [bind]. rewrite H1. cbn [bind]. rewrite Hs. cbn [bind].
  rewrite H2. cbn [bind]. rewrite Hi. cbn [bind].
  rewrite H3. cbn [bind]. rewrite Hc. cbn [bind].
  rewrite deriveKeyFromPassphrase_eq. cbn [bind].
  destruct (aesGcmDecrypt _ iv ciphertext) as [plaintext|e]; cbn [bind try_catch].
  - destruct (json_parse (arrayBufferToString plaintext)) as [bundle|e];
      cbn [try_catch].
    + left. now exists bundle.
    + now right.
  - now right.
Qed.

(** A passphrase whose key does not open the ciphertext gets the opaque
    error. *)
Lemma importKeysSealed_wrong_key
      {W : Platform} (blob : Blob) (passphrase : jsstring)
      sealed v1 salt v2 iv v3 ciphertext :
  JSON_parse (blob_text blob) = Some sealed ->
  get_property sealed (js "salt") = Ok v1 ->
  base64ToArrayBuffer (to_string v1) = Ok salt ->
  get_property sealed (js "iv") = Ok v2 ->
  base64ToArrayBuffer (to_string v2) = Ok iv ->
  get_property sealed (js "ciphertext") = Ok v3 ->
  base64ToArrayBuffer (to_string v3) = Ok ciphertext ->
  aes_gcm_open (backup_key passphrase salt) iv ciphertext = None ->
  importKeysSealed blob passphrase = Throw BackupRestoreError.
Proof.
  intros Hp H1 Hs H2 Hi H3 Hc Hopen.
  assert (Hp' : json_parse (blob_text blob) = Ok sealed)
    by (unfold json_parse; now rewrite Hp).
  unfold importKeysSealed.
  rewrite Hp'. cbn [bind]. rewrite H1. cbn [bind]. rewrite Hs. cbn [bind].
  rewrite H2. cbn [bind]. rewrite Hi. cbn [bind].
  rewrite H3. cbn [bind]. rewrite Hc. cbn [bind].
  rewrite deriveKeyFromPassphrase_eq. cbn [bind].
  unfold aesGcmDecrypt, subtle_decrypt_AES_GCM.
  cbn [usable algorithm usages alg_eqb existsb usage_eqb orb andb material].
  fold (backup_key passphrase salt). now rewrite Hopen.
Qed.

Example wrong_passphrase_is_opaque :
  match exportKeysSealed (W := Toy.platform) Scenario.bundle_ecdh
                         Scenario.bundle_rsa Scenario.passphrase
                         Scenario.tape 0 with
  | Ok (blob, _) => importKeysSealed (W := Toy.platform) blob (js "wrong-pass")
  | Throw e => Throw e
  end = Throw BackupRestoreError.
Proof. vm_compute. reflexivity. Qed.

(** C8, the failing inputs.  A backup file that is not JSON text, or
    whose salt is not Base64, makes [importKeysSealed] throw the parser's
    or the decoder's own exception, from before its [try]: an error other
    than the opaque one, which tells a damaged file from a wrong
    passphrase. *)
Theorem damaged_backup_escapes_opaque_error
        {W : Platform} (blob : Blob) (passphrase : jsstring) :
  (JSON_parse (blob_text blob) = None \/
   exists c i, JSON_parse (blob_text blob) = Some (SealedBackup c i (js "!"))) ->
  (importKeysSealed blob passphrase = Throw SyntaxError \/
   importKeysSealed blob passphrase = Throw InvalidCharacterError) /\
  importKeysSealed blob passphrase <> Throw BackupRestoreError.
Proof.
  intros [Hnone | [c [i Hbad]]].
  - assert (H : importKeysSealed blob passphrase = Throw SyntaxError).
    { unfold importKeysSealed, json_parse at 1. now rewrite Hnone. }
    split; [now left|]. rewrite H. discriminate.
  - assert (H : importKeysSealed blob passphrase = Throw InvalidCharacterError).
    { unfold importKeysSealed, json_parse at 1. rewrite Hbad. cbn [bind].
      destruct (sealed_properties c i (js "!")) as [Hs _]. rewrite Hs.
      reflexivity. }
    split; [now right|]. rewrite H. discriminate.
Qed.

(** ** The statements at the two identities *)

(** C1 at Alice and Bob: Alice seals the greeting, Bob opens it. *)
Lemma envelope_roundtrip_witness :
  exists envelope pos',
    sendMessage_seal (W := Toy.platform) (js "room") (js "alice") (js "bob")
                     Scenario.alice_keys Scenario.bob_public_ecdh
                     Scenario.bob_public_rsa Scenario.plaintext None None
                     Scenario.tape 0 = Ok (envelope, pos') /\
    decryptMessage_payload Scenario.bob_state envelope = Ok Scenario.plaintext /\
    decryptMessage Scenario.bob_state envelope
    = Ok (arrayBufferToString (W := Toy.platform) Scenario.plaintext).
Proof.
  apply (@envelope_roundtrip Toy.platform ToyFacts.laws Scenario.tape 0
           Scenario.plaintext (js "room") (js "alice") (js "bob")
           Scenario.alice_ec Scenario.alice_rsa Scenario.bob_ec Scenario.bob_rsa
           Scenario.alice_row Scenario.bob_row
           Scenario.bob_public_ecdh Scenario.bob_public_rsa None None
           Scenario.bob_state);
    (split; reflexivity) || reflexivity.
Defined.

(** C4 at Alice and Bob, for the key and salt drawn at the start of the
    tape. *)
Lemma wrapAesKeyWithECDH_construction_witness :
  let aesKey := drawn_key (W := Toy.platform) Scenario.tape 0 in
  let raw := List.map Scenario.tape (seq 0 32) in
  let salt := drawn_salt Scenario.tape 0 in
  let alice := generateECDHKeypair (W := Toy.platform) Scenario.alice_ec in
  let bob := generateECDHKeypair (W := Toy.platform) Scenario.bob_ec in
  wrapAesKeyWithECDH aesKey alice.(privateKey) bob.(publicKey) salt =
    match wrapWithAgreement_spec (W := Toy.platform) raw Scenario.alice_ec
                                 (Toy.public_of Scenario.bob_ec) salt with
    | Some wrapped => Ok wrapped
    | None => Throw OperationError
    end
  /\
  exists wrapped,
    wrapAesKeyWithECDH aesKey alice.(privateKey) bob.(publicKey) salt
    = Ok wrapped /\
    unwrapAesKeyWithECDH wrapped bob.(privateKey) alice.(publicKey) salt =
    Ok {| algorithm := AES_GCM; extractable := false; usages := [U_decrypt];
          material := Secret raw |}.
Proof.
  intros aesKey raw salt alice bob.
  apply (@wrapAesKeyWithECDH_construction Toy.platform ToyFacts.laws
           aesKey alice.(privateKey) bob.(publicKey) raw Scenario.alice_ec
           (Toy.public_of Scenario.bob_ec) Scenario.alice_ec Scenario.bob_ec
           salt);
    reflexivity.
Defined.

(** C5 at the row Alice sealed for Bob. *)
Lemma integrity_hash_over_encoded_ciphertext_witness :
  arrayBufferToBase64
    (aes_gcm_seal (Platform := Toy.platform) (List.map Scenario.tape (seq 0 32))
                  (drawn_iv Scenario.tape 0) Scenario.plaintext)
    = Ok Scenario.agreement_row.(ciphertext_base64) /\
  Scenario.agreement_row.(hash_hex)
    = hex_string (sha256 (Platform := Toy.platform)
                         (utf8_encode (Platform := Toy.platform)
                                      Scenario.agreement_row.(ciphertext_base64))) /\
  Scenario.agreement_row.(hash_hex)
    = sha256Hex (W := Toy.platform) (inr Scenario.agreement_row.(ciphertext_base64)) /\
  forall user holder directory,
    (analyzeMessage (W := Toy.platform) user holder directory
                    Scenario.agreement_row).(hash_verified) = true.
Proof.
  apply (@integrity_hash_over_encoded_ciphertext Toy.platform
           (js "room") (js "alice") (js "bob") Scenario.alice_keys
           Scenario.bob_public_ecdh Scenario.bob_public_rsa Scenario.plaintext
           None None Scenario.tape 0 Scenario.agreement_row 60).
  vm_compute. reflexivity.
Defined.

(** C6 at the row tagged 'FOO'. *)
Lemma other_tags_open_as_RSA_witness :
  decryptMessage_payload (W := Toy.platform) Scenario.bob_state Scenario.foo_row =
    decryptMessage_payload Scenario.bob_state
                           (with_wrap_alg Scenario.foo_row (js "RSA-OAEP")) /\
  decryptMessage (W := Toy.platform) Scenario.bob_state Scenario.foo_row
  = decryptMessage Scenario.bob_state
                   (with_wrap_alg Scenario.foo_row (js "RSA-OAEP")).
Proof.
  apply (@other_tags_open_as_RSA Toy.platform Scenario.bob_state Scenario.foo_row).
  intro H. vm_compute in H. discriminate H.
Defined.

(** C7 at a bundle of two small JWKs. *)
Lemma backup_roundtrip_witness :
  exists blob,
    exportKeysSealed (W := Toy.platform) Scenario.bundle_ecdh Scenario.bundle_rsa
                     Scenario.passphrase Scenario.tape 0
    = Ok (blob, 28%nat) /\
    blob_text (W := Toy.platform) blob
    = JSON_stringify (Platform := Toy.platform) 2
        (sealed_backup (W := Toy.platform) Scenario.bundle_ecdh
                       Scenario.bundle_rsa Scenario.passphrase Scenario.tape 0) /\
    List.length (backup_salt Scenario.tape 0) = 16%nat /\
    (forall salt,
        deriveKeyFromPassphrase (W := Toy.platform) Scenario.passphrase salt =
        Ok {| algorithm := AES_GCM; extractable := false;
              usages := [U_encrypt; U_decrypt];
              material := Secret (pbkdf2_sha256 (Platform := Toy.platform)
                                    (utf8_encode (Platform := Toy.platform)
                                                 Scenario.passphrase)
                                    salt pbkdf2_iterations 256) |}) /\
    (200000 <= pbkdf2_iterations)%N /\
    importKeysSealed (W := Toy.platform) blob Scenario.passphrase
    = Ok (BackupData (W := Toy.platform) Scenario.bundle_ecdh Scenario.bundle_rsa).
Proof.
  apply (@backup_roundtrip Toy.platform ToyFacts.laws Scenario.bundle_ecdh
           Scenario.bundle_rsa Scenario.passphrase Scenario.tape 0).
  vm_compute. reflexivity.
Defined.

(** C8 at an empty backup file. *)
Lemma damaged_backup_escapes_opaque_error_witness :
  let blob := {| blob_bytes := []; blob_type := js "application/json" |} in
  (importKeysSealed (W := Toy.platform) blob Scenario.passphrase = Throw SyntaxError \/
   importKeysSealed (W := Toy.platform) blob Scenario.passphrase
   = Throw InvalidCharacterError) /\
  importKeysSealed (W := Toy.platform) blob Scenario.passphrase
  <> Throw BackupRestoreError.
Proof.
  intro blob.
  apply (@damaged_backup_escapes_opaque_error Toy.platform blob Scenario.passphrase).
  left. reflexivity.
Defined.

(** C9 at a three-octet ciphertext and a missing bucket. *)
Lemma inline_fallback_by_encoded_length_witness :
  let out :=
    {| upload_error := Some {| message := Some (js "Bucket not found");
                               statusCode := Some (StatusNumber 404) |};
       create_bucket_error := None; retry_error := None |} in
  let fileMeta :=
    {| meta_name := js "a.bin"; meta_type := js "application/octet-stream";
       meta_size := 3; meta_iv := []; meta_salt := [];
       meta_wrapped_key := []; meta_wrap_alg := js "ECDH";
       encrypted_data_base64 := None; storage_type := None |} in
  let encryptedFile := [x01; x02; x03] in
  let encryptedBase64 := js "AQID" in
  ((js_length encryptedBase64 < inline_threshold)%N <->
   (N.of_nat (List.length encryptedFile) <= 3932157)%N) /\
  ((js_length encryptedBase64 < inline_threshold)%N ->
   sendMessage_store out fileMeta encryptedBase64
   = Ok (store_inline fileMeta encryptedBase64)) /\
  ((inline_threshold <= js_length encryptedBase64)%N ->
   (exists e, sendMessage_store out fileMeta encryptedBase64 = Throw e) \/
   (sendMessage_store out fileMeta encryptedBase64 = Ok fileMeta /\
    out.(create_bucket_error) = None /\ out.(retry_error) = None)).
Proof.
  intros out fileMeta encryptedFile encryptedBase64.
  apply (@inline_fallback_by_encoded_length out fileMeta encryptedFile
           encryptedBase64
           {| message := Some (js "Bucket not found");
              statusCode := Some (StatusNumber 404) |});
    reflexivity.
Defined.


(* ================================================================== *)
(** * Further properties of the sources *)

(** ** The binary/text codec, continued *)

Section Base64More.
Import Base64 Base64Facts.

Lemma strip_padding_cases d :
  strip_padding d = d \/
  (d = strip_padding d ++ [pad_char]) \/
  (d = strip_padding d ++ [pad_char; pad_char]).
Proof.
  unfold strip_padding.
  destruct (rev d) as [|x l] eqn:E; [now left|].
  assert (Hd : d = rev l ++ [x])
    by (rewrite <- (rev_involutive d), E; reflexivity).
  destruct x as [|p]; [now left|].
  do 6 (destruct p as [p|p|]; try (now left)).
  destruct l as [|y l']; [right; left; exact Hd|].
  assert (Hd' : d = rev l' ++ [y; pad_char]).
  { rewrite Hd. cbn [rev]. now rewrite <- app_assoc. }
  destruct y as [|p]; [right; left; exact Hd|].
  do 6 (destruct p as [p|p|]; try (right; left; exact Hd)).
  right. right. exact Hd'.
Qed.

Lemma in_strip_padding c d :
  In c d -> c <> pad_char -> In c (strip_padding d).
Proof.
  intros Hin Hc.
  destruct (strip_padding_cases d) as [-> | [E | E]]; [exact Hin| |];
    rewrite E in Hin; apply in_app_or in Hin;
    destruct Hin as [Hin|Hin]; try exact Hin;
    cbn in Hin; intuition congruence.
Qed.

Lemma indices_none c d :
  In c d -> b64_index c = None -> indices d = None.
Proof.
  induction d as [|x d IH]; intros Hin Hc; [contradiction|].
  cbn [indices]. destruct Hin as [->|Hin].
  - now rewrite Hc.
  - rewrite (IH Hin Hc). now destruct (b64_index x).
Qed.

Lemma encode_alphabet l :
  octets l ->
  Forall (fun c => b64_index c <> None \/ c = pad_char) (encode l).
Proof.
  intro Hl. unfold encode. apply Forall_app. split.
  - apply Forall_map. eapply Forall_impl; [|exact (to_sextets_range Hl)].
    intros i Hi. left. cbv beta. rewrite (b64_index_char Hi). discriminate.
  - destruct (padding_cases l) as [-> | [-> | ->]];
      repeat constructor; now right.
Qed.

End Base64More.

(** X1. For every buffer of [n] bytes, [arrayBufferToBase64] returns a
    text of [4 * ceil(n / 3)] characters, each from the Base64 alphabet
    or the padding sign; and two buffers with the same text are the same
    buffer. *)
Theorem arrayBufferToBase64_shape (a b : ArrayBuffer) :
  (exists s,
      arrayBufferToBase64 a = Ok s /\
      js_length s = (4 * ((N.of_nat (List.length a) + 2) / 3))%N /\
      Forall (fun c => Base64.b64_index c <> None \/ c = Base64.pad_char) s) /\
  (arrayBufferToBase64 a = arrayBufferToBase64 b -> a = b).
Proof.
  split.
  - eexists. split; [apply arrayBufferToBase64_ok|].
    split; [apply encode_length|].
    apply encode_alphabet, Base64Facts.to_N_octets.
  - rewrite !arrayBufferToBase64_ok. intro H. injection H as H.
    pose proof (base64ToArrayBuffer_encode a) as Ha.
    rewrite H, base64ToArrayBuffer_encode in Ha. now injection Ha.
Qed.

(** X2. [base64ToArrayBuffer] is forgiving: it also decodes the text of
    a buffer written without its padding. *)
Theorem base64ToArrayBuffer_unpadded (b : ArrayBuffer) :
  base64ToArrayBuffer
    (List.map Base64.b64_char (Base64.to_sextets (List.map Byte.to_N b)))
  = Ok b.
Proof.
  pose proof (Base64Facts.to_N_octets b) as Hl.
  pose proof (Base64Facts.to_sextets_range Hl) as Hsx.
  assert (Hplain : Forall (fun c => c <> Base64.pad_char)
                          (List.map Base64.b64_char
                             (Base64.to_sextets (List.map Byte.to_N b)))).
  { apply Forall_map. eapply Forall_impl; [|exact Hsx].
    intros i Hi. exact (proj2 (Base64Facts.b64_char_plain Hi)). }
  unfold base64ToArrayBuffer, Base64.atob.
  rewrite Base64Facts.filter_id.
  2:{ apply Forall_map. eapply Forall_impl; [|exact Hsx].
      intros i Hi. cbv beta.
      now rewrite (proj1 (Base64Facts.b64_char_plain Hi)). }
  assert (Hstrip : (if (List.length
                          (List.map Base64.b64_char
                             (Base64.to_sextets (List.map Byte.to_N b)))
                        mod 4 =? 0)%nat
                    then Base64.strip_padding
                           (List.map Base64.b64_char
                              (Base64.to_sextets (List.map Byte.to_N b)))
                    else List.map Base64.b64_char
                           (Base64.to_sextets (List.map Byte.to_N b)))
                   = List.map Base64.b64_char
                       (Base64.to_sextets (List.map Byte.to_N b))).
  { destruct (_ =? 0)%nat; [|reflexivity].
    rewrite <- (app_nil_r (List.map _ _)) at 1.
    apply Base64Facts.strip_padding_spec; [exact Hplain | now left]. }
  rewrite Hstrip, length_map.
  destruct (Nat.eqb_spec
              (List.length (Base64.to_sextets (List.map Byte.to_N b)) mod 4) 1)
    as [E|_].
  - now apply Base64Facts.to_sextets_length_mod4 in E.
  - rewrite (Base64Facts.indices_chars Hsx), (Base64Facts.of_to_sextets Hl).
    cbn [bind]. f_equal. rewrite map_map.
    rewrite <- (map_id b) at 2. apply map_ext, Base64Facts.to_uint8_to_N.
Qed.

(** X3. A text holding a character that is neither of the Base64
    alphabet, nor ASCII whitespace, nor the padding sign is refused:
    [base64ToArrayBuffer] throws [InvalidCharacterError]. *)
Theorem base64ToArrayBuffer_rejects (s : jsstring) (c : N) :
  In c s ->
  Base64.b64_index c = None ->
  Base64.is_ascii_whitespace c = false ->
  c <> Base64.pad_char ->
  base64ToArrayBuffer s = Throw InvalidCharacterError.
Proof.
  intros Hin Hidx Hws Hpad. unfold base64ToArrayBuffer, Base64.atob.
  set (d0 := List.filter (fun c => negb (Base64.is_ascii_whitespace c)) s).
  assert (H0 : In c d0) by (apply filter_In; split; [exact Hin|now rewrite Hws]).
  set (d1 := if (List.length d0 mod 4 =? 0)%nat
             then Base64.strip_padding d0 else d0).
  assert (H1 : In c d1).
  { unfold d1. destruct (_ =? 0)%nat; [|exact H0].
    now apply in_strip_padding. }
  destruct (List.length d1 mod 4 =? 1)%nat; [reflexivity|].
  now rewrite (indices_none _ _ H1 Hidx).
Qed.

(** ** hash.ts *)

Lemma hex_digit_inj n m :
  (n < 16)%N -> (m < 16)%N -> hex_digit n = hex_digit m -> n = m.
Proof.
  unfold hex_digit. intros Hn Hm.
  destruct (N.ltb_spec n 10), (N.ltb_spec m 10); lia.
Qed.

Lemma hex_digit_range n :
  (n < 16)%N ->
  (48 <= hex_digit n <= 57)%N \/ (97 <= hex_digit n <= 102)%N.
Proof.
  unfold hex_digit. intro Hn. destruct (N.ltb_spec n 10); lia.
Qed.

Lemma byte_to_N_inj (x y : byte) : Byte.to_N x = Byte.to_N y -> x = y.
Proof.
  intro H. pose proof (Byte.of_to_N x) as Hx. rewrite H, Byte.of_to_N in Hx.
  now injection Hx.
Qed.

Lemma hex_of_byte_inj x y : hex_of_byte x = hex_of_byte y -> x = y.
Proof.
  unfold hex_of_byte. intro H. injection H as Hhi Hlo.
  pose proof (Byte.to_N_bounded x). pose proof (Byte.to_N_bounded y).
  apply hex_digit_inj in Hhi;
    [|apply N.Div0.div_lt_upper_bound; lia..].
  apply hex_digit_inj in Hlo; [|apply N.mod_lt; discriminate..].
  apply byte_to_N_inj.
  rewrite (N.div_mod (Byte.to_N x) 16), (N.div_mod (Byte.to_N y) 16)
    by discriminate.
  now rewrite Hhi, Hlo.
Qed.

Lemma hex_string_inj d1 d2 : hex_string d1 = hex_string d2 -> d1 = d2.
Proof.
  unfold hex_string. revert d2.
  induction d1 as [|x d1 IH]; intros [|y d2] H; try discriminate.
  - reflexivity.
  - cbn [List.map List.concat hex_of_byte app] in H.
    injection H as Hhi Hlo Hrest.
    f_equal.
    + apply hex_of_byte_inj. unfold hex_of_byte. now rewrite Hhi, Hlo.
    + now apply IH.
Qed.

Lemma hex_string_shape d :
  List.length (hex_string d) = (2 * List.length d)%nat /\
  Forall (fun c => (48 <= c <= 57)%N \/ (97 <= c <= 102)%N) (hex_string d).
Proof.
  unfold hex_string. induction d as [|x d [IHl IHf]]; [now split|].
  cbn [List.map List.concat hex_of_byte app List.length].
  pose proof (Byte.to_N_bounded x).
  split; [lia|].
  constructor; [apply hex_digit_range, N.Div0.div_lt_upper_bound; lia|].
  constructor; [apply hex_digit_range, N.mod_lt; discriminate|].
  exact IHf.
Qed.

(** X4. [sha256Hex] writes two lowercase hexadecimal digits per digest
    octet, and two of its results are the same text exactly when the
    digests are the same: comparing the texts compares the digests. *)
Theorem sha256Hex_text {W : Platform} (x y : ArrayBuffer + jsstring) :
  let octets_of (data : ArrayBuffer + jsstring) :=
    match data with
    | inr str => utf8_encode str
    | inl buf => buf
    end in
  List.length (sha256Hex x)
    = (2 * List.length (sha256 (octets_of x)))%nat /\
  Forall (fun c => (48 <= c <= 57)%N \/ (97 <= c <= 102)%N) (sha256Hex x) /\
  (jsstring_eqb (sha256Hex x) (sha256Hex y) = true <->
   sha256 (octets_of x) = sha256 (octets_of y)).
Proof.
  intro octets_of. unfold sha256Hex. fold (octets_of x). fold (octets_of y).
  split; [apply hex_string_shape|]. split; [apply hex_string_shape|].
  rewrite jsstring_eqb_eq. split.
  - apply hex_string_inj.
  - now intros ->.
Qed.

Section HammingFacts.

Lemma set_bits_octet n :
  (n < 256)%N -> (set_bits n <= 8)%N /\ (set_bits n = 0%N -> n = 0%N).
Proof.
  intro Hn.
  apply (Base64Facts.below_forallb
           (fun i => (set_bits i <=? 8)%N &&
                     (negb (set_bits i =? 0)%N || (i =? 0)%N)) 256) in Hn;
    [|now vm_compute].
  apply andb_true_iff in Hn. destruct Hn as [Hle Hz].
  apply N.leb_le in Hle. split; [exact Hle|].
  intro H0. rewrite H0 in Hz. cbn in Hz. now apply N.eqb_eq in Hz.
Qed.

Lemma single_bit k :
  (k < 8)%N -> (N.shiftl 1 k < 256)%N /\ set_bits (N.shiftl 1 k) = 1%N.
Proof.
  intro Hk.
  apply (Base64Facts.below_forallb
           (fun i => (N.shiftl 1 i <? 256)%N &&
                     (set_bits (N.shiftl 1 i) =? 1)%N) 8) in Hk;
    [|now vm_compute].
  apply andb_true_iff in Hk. destruct Hk as [Hlt Hone].
  apply N.ltb_lt in Hlt. apply N.eqb_eq in Hone. now split.
Qed.

Lemma lxor_octets a b : (a < 256)%N -> (b < 256)%N -> (N.lxor a b < 256)%N.
Proof.
  intros Ha Hb.
  destruct (N.eq_dec (N.lxor a b) 0) as [->|Hx]; [reflexivity|].
  change 256%N with (2 ^ 8)%N. apply N.log2_lt_pow2; [lia|].
  pose proof (N.log2_lxor a b) as Hl.
  assert (Hla : (N.log2 a < 8)%N).
  { destruct (N.eq_dec a 0) as [->|Ha0]; [reflexivity|].
    apply N.log2_lt_pow2; [lia|exact Ha]. }
  assert (Hlb : (N.log2 b < 8)%N).
  { destruct (N.eq_dec b 0) as [->|Hb0]; [reflexivity|].
    apply N.log2_lt_pow2; [lia|exact Hb]. }
  lia.
Qed.

Lemma hamming_loop_acc a b d :
  hamming_loop a b d = (d + hamming_loop a b 0)%N.
Proof.
  revert b d. induction a as [|x a IH]; intros [|y b] d;
    cbn [hamming_loop]; try lia.
  rewrite IH, (IH _ (0 + _)%N). lia.
Qed.

Lemma hamming_loop_sym a b : hamming_loop a b 0 = hamming_loop b a 0.
Proof.
  revert b. induction a as [|x a IH]; intros [|y b]; try reflexivity.
  cbn [hamming_loop]. rewrite hamming_loop_acc, (hamming_loop_acc b a).
  now rewrite IH, N.lxor_comm.
Qed.

Lemma hamming_loop_bound a b :
  (hamming_loop a b 0 <= 8 * N.of_nat (List.length a))%N.
Proof.
  revert b. induction a as [|x a IH]; intros [|y b];
    cbn [hamming_loop List.length]; try lia.
  rewrite hamming_loop_acc. specialize (IH b).
  pose proof (Byte.to_N_bounded x). pose proof (Byte.to_N_bounded y).
  assert (Hx : (N.lxor (Byte.to_N x) (Byte.to_N y) < 256)%N)
    by (apply lxor_octets; lia).
  pose proof (proj1 (set_bits_octet Hx)). lia.
Qed.

Lemma hamming_loop_zero a b :
  List.length a = List.length b ->
  (hamming_loop a b 0 = 0%N <-> a = b).
Proof.
  revert b. induction a as [|x a IH]; intros [|y b] Hlen; try discriminate.
  - now split.
  - cbn [hamming_loop]. rewrite hamming_loop_acc.
    injection Hlen as Hlen. specialize (IH b Hlen).
    pose proof (Byte.to_N_bounded x). pose proof (Byte.to_N_bounded y).
    assert (Hx : (N.lxor (Byte.to_N x) (Byte.to_N y) < 256)%N)
      by (apply lxor_octets; lia).
    split.
    + intro Hsum.
      assert (Hs : set_bits (N.lxor (Byte.to_N x) (Byte.to_N y)) = 0%N) by lia.
      assert (Hr : hamming_loop a b 0 = 0%N) by lia.
      apply (proj2 (set_bits_octet Hx)) in Hs. apply N.lxor_eq in Hs.
      apply byte_to_N_inj in Hs. apply IH in Hr. now subst.
    + intro E. injection E as -> ->.
      rewrite N.lxor_nilpotent. rewrite (proj2 IH eq_refl). reflexivity.
Qed.

End HammingFacts.

(** X5. [hammingDistanceBits] throws exactly when the two buffers differ
    in length.  Otherwise the distance it returns is the same in both
    orders, is at most 8 times the length, and is 0 exactly when the
    buffers are equal. *)
Theorem hammingDistanceBits_metric (a b : ArrayBuffer) :
  match hammingDistanceBits a b with
  | Ok d =>
      List.length a = List.length b /\
      hammingDistanceBits b a = Ok d /\
      (d <= 8 * N.of_nat (List.length a))%N /\
      (d = 0%N <-> a = b)
  | Throw e =>
      List.length a <> List.length b /\
      e = Error (js "Buffers must be same length for Hamming distance")
  end.
Proof.
  unfold hammingDistanceBits.
  destruct (Nat.eqb_spec (List.length a) (List.length b)) as [E|E].
  - split; [exact E|]. split.
    + rewrite <- E, Nat.eqb_refl. now rewrite hamming_loop_sym.
    + split; [apply hamming_loop_bound | now apply hamming_loop_zero].
  - now split.
Qed.

Section FlipFacts.

Lemma uint8_update_length l i f :
  List.length (uint8_update l i f) = List.length l.
Proof.
  revert i. induction l as [|x l IH]; intros [|i]; cbn; try reflexivity.
  now rewrite IH.
Qed.

Lemma uint8_update_out l i f :
  (List.length l <= i)%nat -> uint8_update l i f = l.
Proof.
  revert i. induction l as [|x l IH]; intros [|i] H; cbn in *;
    try reflexivity; try lia.
  rewrite IH by lia. reflexivity.
Qed.

Lemma hamming_loop_same l : hamming_loop l l 0 = 0%N.
Proof.
  apply hamming_loop_zero; reflexivity.
Qed.

Lemma hamming_loop_update l i f :
  (i < List.length l)%nat ->
  (forall x, set_bits (N.lxor (Byte.to_N x) (Byte.to_N (f x))) = 1%N) ->
  hamming_loop l (uint8_update l i f) 0 = 1%N.
Proof.
  intros Hi Hf. revert i Hi.
  induction l as [|x l IH]; intros [|i] Hi; cbn in Hi; try lia.
  - cbn [uint8_update hamming_loop]. rewrite hamming_loop_acc, Hf.
    rewrite hamming_loop_same. reflexivity.
  - cbn [uint8_update hamming_loop]. rewrite hamming_loop_acc.
    rewrite N.lxor_nilpotent, IH by lia. reflexivity.
Qed.

Lemma uint8_update_twice l i f :
  (forall x, f (f x) = x) -> uint8_update (uint8_update l i f) i f = l.
Proof.
  intro Hf. revert i.
  induction l as [|x l IH]; intros [|i]; cbn; try reflexivity.
  - now rewrite Hf.
  - now rewrite IH.
Qed.

Lemma flip_octet x k :
  (k < 8)%N ->
  Byte.to_N (to_uint8 (N.lxor (Byte.to_N x) (N.shiftl 1 k)))
  = N.lxor (Byte.to_N x) (N.shiftl 1 k).
Proof.
  intro Hk. apply ToyFacts.to_N_to_uint8.
  pose proof (Byte.to_N_bounded x).
  apply lxor_octets; [lia | apply (single_bit Hk)].
Qed.

End FlipFacts.

(** X6. For a bit index below 8, [flipRandomBit] keeps the length; when
    the byte index lies in the buffer, the result is at Hamming distance
    exactly 1 from the input and flipping the same bit again restores
    the input; when it does not (an empty buffer), the buffer is returned
    unchanged. *)
Theorem flipRandomBit_one_bit (byteIndex : nat) (bitIndex : N)
        (data : ArrayBuffer) :
  (bitIndex < 8)%N ->
  List.length (flipRandomBit byteIndex bitIndex data) = List.length data /\
  if (byteIndex <? List.length data)%nat then
    hammingDistanceBits data (flipRandomBit byteIndex bitIndex data) = Ok 1%N /\
    flipRandomBit byteIndex bitIndex (flipRandomBit byteIndex bitIndex data)
    = data
  else flipRandomBit byteIndex bitIndex data = data.
Proof.
  intro Hk. unfold flipRandomBit.
  split; [apply uint8_update_length|].
  destruct (Nat.ltb_spec byteIndex (List.length data)) as [Hi|Hi].
  - split.
    + unfold hammingDistanceBits.
      rewrite uint8_update_length, Nat.eqb_refl. f_equal.
      apply hamming_loop_update; [exact Hi|].
      intro x. rewrite (flip_octet x Hk).
      rewrite <- N.lxor_assoc.
      rewrite N.lxor_nilpotent, N.lxor_0_l. apply (single_bit Hk).
    + apply uint8_update_twice. intro x.
      rewrite (flip_octet x Hk), N.lxor_assoc, N.lxor_nilpotent, N.lxor_0_r.
      apply Base64Facts.to_uint8_to_N.
  - now apply uint8_update_out.
Qed.

Section CollisionFacts.
Context {W : Platform}.

Lemma testHashCollisions_loop_run todo :
  forall hashes collided (tape : Tape) (pos : nat),
  exists hashes' collided',
    testHashCollisions_loop todo hashes collided tape pos
    = Ok ((hashes', collided'), (pos + 64 * todo)%nat) /\
    (collided' + N.of_nat (List.length hashes')
     = collided + N.of_nat (List.length hashes) + N.of_nat todo)%N.
Proof.
  induction todo as [|todo IH]; intros hashes collided tape pos.
  - exists hashes, collided. cbn [testHashCollisions_loop ret].
    rewrite Nat.mul_0_r, Nat.add_0_r. split; [reflexivity | lia].
  - replace (pos + 64 * S todo)%nat with (pos + 64 + 64 * todo)%nat by lia.
    cbn [testHashCollisions_loop]. unfold bindR at 1. cbn [getRandomValues].
    cbv zeta. unfold set_add.
    destruct (set_has hashes _);
      match goal with
      | |- context [testHashCollisions_loop todo ?h ?c tape ?p] =>
          destruct (IH h c tape p) as [h' [c' [Hrun Hsum]]]
      end;
      exists h', c'; rewrite Hrun; (split; [reflexivity|]);
      rewrite ?length_app in Hsum; cbn [List.length] in Hsum; lia.
Qed.

End CollisionFacts.

(** X7. [testHashCollisions] always returns, after reading 64 octets of
    entropy per sample, and its report adds up: every sample is counted
    either as a collision or as a new hash, so [collisions + uniqueHashes]
    is [tested], the requested count. *)
Theorem testHashCollisions_adds_up
        {W : Platform} (count : nat) (tape : Tape) (pos : nat) :
  exists report,
    testHashCollisions count tape pos = Ok (report, (pos + 64 * count)%nat) /\
    report.(tested) = N.of_nat count /\
    (report.(collisions) + report.(uniqueHashes) = report.(tested))%N.
Proof.
  destruct (testHashCollisions_loop_run count [] 0%N tape pos)
    as [hashes [collided [Hrun Hsum]]].
  unfold testHashCollisions, bindR. rewrite Hrun. cbn [ret fst snd].
  eexists. split; [reflexivity|]. cbn [tested collisions uniqueHashes].
  split; [reflexivity|]. cbn [List.length] in Hsum. lia.
Qed.

(** ** Analytics.tsx, continued *)

Section LargeRandomFacts.

Lemma chunkSize_N : N.of_nat chunkSize = 65536%N.
Proof. vm_compute. reflexivity. Qed.

Lemma chunkSize_pos : (0 < chunkSize)%nat.
Proof.
  assert (H : (0 < N.of_nat chunkSize)%N) by now rewrite chunkSize_N.
  lia.
Qed.

Lemma getRandomValues_quota_chunk n (tape : Tape) pos :
  (n <= chunkSize)%nat ->
  getRandomValues_quota n tape pos
  = Ok (List.map tape (seq pos n), (pos + n)%nat).
Proof.
  intro Hn. unfold getRandomValues_quota.
  replace (N.of_nat n <=? 65536)%N with true; [reflexivity|].
  symmetry. apply N.leb_le. rewrite <- chunkSize_N. lia.
Qed.

(** The loop, started at chunk [i] with the first [i * chunkSize] octets
    written. *)
Lemma generateLargeRandomData_loop_run todo :
  forall i sizeBytes (tape : Tape) pos0,
    (todo = 0 \/ (i + todo) * chunkSize < sizeBytes + chunkSize)%nat ->
    (i * chunkSize <= sizeBytes)%nat ->
    generateLargeRandomData_loop
      todo i sizeBytes
      (List.map tape (seq pos0 (i * chunkSize))
         ++ repeat x00 (sizeBytes - i * chunkSize))
      tape (pos0 + i * chunkSize)%nat
    = Ok (List.map tape (seq pos0 (Nat.min ((i + todo) * chunkSize) sizeBytes))
            ++ repeat x00 (sizeBytes - Nat.min ((i + todo) * chunkSize) sizeBytes),
          (pos0 + Nat.min ((i + todo) * chunkSize) sizeBytes)%nat).
Proof.
  pose proof chunkSize_pos as Hcs.
  induction todo as [|todo IH]; intros i sizeBytes tape pos0 Hlast Hi.
  - rewrite Nat.add_0_r, Nat.min_l by exact Hi. reflexivity.
  - destruct Hlast as [Hlast|Hlast]; [discriminate|].
    assert (Hlt : (i * chunkSize < sizeBytes)%nat) by nia.
    cbn [generateLargeRandomData_loop]. cbv zeta.
    set (actual := (Nat.min (i * chunkSize + chunkSize) sizeBytes
                    - i * chunkSize)%nat).
    assert (Hactual : (actual <= chunkSize)%nat) by (unfold actual; lia).
    assert (Hnext : (i * chunkSize + actual
                     = Nat.min (S i * chunkSize) sizeBytes)%nat)
      by (unfold actual; cbn [Nat.mul]; lia).
    unfold bindR at 1. rewrite (getRandomValues_quota_chunk _ _ Hactual).
    unfold bindR at 1. unfold lift, typed_array_set.
    rewrite length_map, length_seq, length_app, length_map, length_seq,
      repeat_length.
    replace (i * chunkSize + actual <=? i * chunkSize + (sizeBytes - i * chunkSize))%nat
      with true by (symmetry; apply Nat.leb_le; unfold actual; lia).
    assert (Hresult :
              firstn (i * chunkSize)
                (List.map tape (seq pos0 (i * chunkSize))
                   ++ repeat x00 (sizeBytes - i * chunkSize))
              ++ List.map tape (seq (pos0 + i * chunkSize) actual)
              ++ skipn (i * chunkSize + actual)
                   (List.map tape (seq pos0 (i * chunkSize))
                      ++ repeat x00 (sizeBytes - i * chunkSize))
              = List.map tape (seq pos0 (i * chunkSize + actual))
                  ++ repeat x00 (sizeBytes - (i * chunkSize + actual))).
    { rewrite firstn_app, firstn_all2
        by (rewrite length_map, length_seq; lia).
      rewrite length_map, length_seq, Nat.sub_diag, firstn_O, app_nil_r.
      rewrite skipn_app, skipn_all2
        by (rewrite length_map, length_seq; lia).
      rewrite length_map, length_seq. cbn [app].
      replace (i * chunkSize + actual - i * chunkSize)%nat with actual by lia.
      rewrite skipn_repeat || idtac.
      rewrite seq_app, map_app, <- app_assoc. do 2 f_equal.
      replace (sizeBytes - (i * chunkSize + actual))%nat
        with (sizeBytes - i * chunkSize - actual)%nat by lia.
      clear. generalize (sizeBytes - i * chunkSize)%nat. intro m.
      revert m. induction actual as [|k IHk]; intro m;
        [now rewrite Nat.sub_0_r|].
      destruct m as [|m]; [reflexivity|]. cbn [repeat skipn Nat.sub].
      apply IHk. }
    rewrite Hresult.
    destruct (Nat.le_gt_cases (S i * chunkSize) sizeBytes) as [Hfull|Hpart].
    + assert (Hact : (i * chunkSize + actual = S i * chunkSize)%nat) by lia.
      rewrite Hact.
      replace (pos0 + i * chunkSize + actual)%nat
        with (pos0 + S i * chunkSize)%nat by lia.
      rewrite IH; [|destruct todo; [now left | right; nia] | exact Hfull].
      replace (S i + todo)%nat with (i + S todo)%nat by lia. reflexivity.
    + assert (Hact : (i * chunkSize + actual = sizeBytes)%nat) by lia.
      assert (Htodo : todo = 0%nat) by nia.
      subst todo. cbn [generateLargeRandomData_loop ret].
      rewrite Hact.
      rewrite Nat.min_r by nia.
      replace (pos0 + i * chunkSize + actual)%nat
        with (pos0 + sizeBytes)%nat by lia.
      reflexivity.
Qed.

End LargeRandomFacts.

(** X8. [generateLargeRandomData] returns exactly [sizeBytes] octets,
    the next [sizeBytes] octets of entropy in order: the split into
    chunks of 64 KiB is invisible in the result, no request exceeds the
    quota of [crypto.getRandomValues], and no write falls outside the
    result. *)
Theorem generateLargeRandomData_fills
        (sizeBytes : nat) (tape : Tape) (pos : nat) :
  generateLargeRandomData sizeBytes tape pos
  = Ok (List.map tape (seq pos sizeBytes), (pos + sizeBytes)%nat).
Proof.
  pose proof chunkSize_pos as Hcs.
  unfold generateLargeRandomData.
  set (chunks := ((sizeBytes + (chunkSize - 1)) / chunkSize)%nat).
  assert (Hq : (chunks * chunkSize <= sizeBytes + (chunkSize - 1)
                /\ sizeBytes + (chunkSize - 1) < chunks * chunkSize + chunkSize)%nat).
  { unfold chunks.
    pose proof (Nat.div_mod_eq (sizeBytes + (chunkSize - 1)) chunkSize) as E.
    pose proof (Nat.mod_upper_bound (sizeBytes + (chunkSize - 1)) chunkSize) as U.
    nia. }
  pose proof (@generateLargeRandomData_loop_run chunks 0 sizeBytes tape pos) as H.
  cbn [Nat.mul Nat.add seq List.map app] in H.
  rewrite Nat.sub_0_r, Nat.add_0_r in H.
  rewrite H; [|destruct chunks; [now left | right; lia] | lia].
  rewrite Nat.min_r by lia.
  now rewrite Nat.sub_diag, app_nil_r.
Qed.

Section SetFacts.

Lemma set_has_In s x : set_has s x = true <-> In x s.
Proof.
  unfold set_has. rewrite existsb_exists. split.
  - intros [y [Hy E]]. apply jsstring_eqb_eq in E. now subst.
  - intro H. exists x. split; [exact H | apply jsstring_eqb_refl].
Qed.

Lemma set_add_spec s x :
  NoDup s ->
  NoDup (set_add s x) /\ (forall h, In h (set_add s x) <-> In h s \/ h = x).
Proof.
  intro Hs. unfold set_add. destruct (set_has s x) eqn:E.
  - apply set_has_In in E. split; [exact Hs|].
    intro h. split; [now left|]. intros [H| ->]; assumption.
  - assert (Hx : ~ In x s)
      by (intro H; apply set_has_In in H; congruence).
    split.
    + apply NoDup_app; [exact Hs | repeat constructor; intros [] |].
      intros y Hy [<-|[]]. contradiction.
    + intro h. rewrite in_app_iff. cbn. intuition.
Qed.

Lemma filter_one l h :
  NoDup l -> In h l ->
  List.length (List.filter (fun y => jsstring_eqb y h) l) = 1%nat.
Proof.
  induction 1 as [|x l Hx Hl IH]; intro Hin; [contradiction|].
  cbn [List.filter]. destruct (jsstring_eqb x h) eqn:E.
  - apply jsstring_eqb_eq in E. subst x. cbn [List.length]. f_equal.
    clear IH Hin. induction l as [|y l IHl]; [reflexivity|].
    cbn [List.filter]. destruct (jsstring_eqb y h) eqn:E.
    + apply jsstring_eqb_eq in E. subst y. exfalso. apply Hx. now left.
    + apply IHl.
      * intro H. apply Hx. now right.
      * now inversion Hl.
  - destruct Hin as [->|Hin]; [now rewrite jsstring_eqb_refl in E|].
    now apply IH.
Qed.

Lemma allHashes_from (messages : list Message) :
  forall acc,
    NoDup acc ->
    NoDup (fold_left (fun hashes m => set_add hashes m.(hash_hex)) messages acc)
    /\ (forall h,
          In h (fold_left (fun hashes m => set_add hashes m.(hash_hex))
                          messages acc)
          <-> In h acc \/ In h (List.map hash_hex messages)).
Proof.
  induction messages as [|m messages IH]; intros acc Hacc.
  - split; [exact Hacc|]. intro h. cbn. intuition.
  - cbn [fold_left List.map].
    destruct (set_add_spec m.(hash_hex) Hacc) as [Hnd Hin].
    destruct (IH _ Hnd) as [Hnd' Hin']. split; [exact Hnd'|].
    intro h. rewrite Hin', Hin. cbn [In]. intuition.
Qed.

End SetFacts.

(** X9. The collision verdict of [loadMessageAnalytics] is always
    positive: the hashes are first collected into a [Set], so the hash
    of any loaded row is found there exactly once, also when several
    rows carry the same hash. *)
Theorem collision_resistant_always_true
        (messages : list Message) (msg : Message) :
  In msg messages ->
  collision_resistant messages msg = true.
Proof.
  intro Hin. unfold collision_resistant, allHashes.
  destruct (allHashes_from messages (NoDup_nil _)) as [Hnd Hmem].
  rewrite filter_one; [reflexivity | exact Hnd |].
  apply Hmem. right. now apply in_map.
Qed.

(** X10. The key [unwrapAesKeyForAnalytics] returns for an agreement
    row holds the same raw key as the one [unwrapAesKeyWithECDH] returns,
    but may encrypt: [aesGcmEncrypt] throws with the decryption key and
    succeeds with the analytics key.  For a tag that is neither 'ECDH'
    nor 'RSA-OAEP' the analytics key is [null]. *)
Theorem unwrapAesKeyForAnalytics_key
        {W : Platform} (wrappedKey salt : ArrayBuffer)
        (priv pub : CryptoKey) (rsa : option CryptoKey) (key : CryptoKey) :
  unwrapAesKeyWithECDH wrappedKey priv pub salt = Ok key ->
  (exists raw,
      key.(material) = Secret raw /\
      unwrapAesKeyForAnalytics wrappedKey (js "ECDH") (Some priv) rsa
                               (Some pub) salt
      = Some {| algorithm := AES_GCM; extractable := false;
                usages := [U_encrypt; U_decrypt]; material := Secret raw |} /\
      forall iv data,
        aesGcmEncrypt key iv data = Throw InvalidAccessError /\
        aesGcmEncrypt {| algorithm := AES_GCM; extractable := false;
                         usages := [U_encrypt; U_decrypt];
                         material := Secret raw |} iv data
        = Ok (aes_gcm_seal raw iv data)) /\
  (forall tag ecdh other,
      jsstring_eqb tag (js "ECDH") = false ->
      jsstring_eqb tag (js "RSA-OAEP") = false ->
      unwrapAesKeyForAnalytics wrappedKey tag ecdh rsa other salt = None).
Proof.
  intro Hkey. split.
  - unfold unwrapAesKeyWithECDH in Hkey.
    unfold unwrapAesKeyForAnalytics.
    change (jsstring_eqb (js "ECDH") (js "ECDH")) with true. cbv iota.
    destruct (deriveKEK_ECDH priv pub salt (js "wrap")) as [kek|e];
      [|discriminate].
    cbn [bind] in *. unfold subtle_unwrapKey_AES_GCM in *.
    destruct (usable kek AES_GCM U_unwrapKey); [|discriminate].
    destruct (material kek) as [k| | | |]; try discriminate.
    destruct (aes_gcm_open k (firstn 12 salt) wrappedKey) as [raw|];
      [|discriminate].
    unfold import_raw_AES_GCM in *.
    destruct (_ || _ || _)%bool; [|discriminate].
    injection Hkey as <-. exists raw. split; [reflexivity|].
    split; [reflexivity|]. intros iv data. split; reflexivity.
  - intros tag ecdh other H1 H2. unfold unwrapAesKeyForAnalytics.
    rewrite H1, H2. now destruct ecdh, other, rsa.
Qed.

(** ** keys.ts and wrap.ts, continued *)

(** X11. The key-encryption key [deriveKEK_ECDH] returns serves
    wrapping only: [aesGcmEncrypt] and [aesGcmDecrypt] refuse it, and its
    raw bytes cannot be exported. *)
Theorem deriveKEK_ECDH_wraps_only
        {W : Platform} (senderPriv recipientPub : CryptoKey)
        (salt : ArrayBuffer) (info : jsstring) (kek : CryptoKey) :
  deriveKEK_ECDH senderPriv recipientPub salt info = Ok kek ->
  usable kek AES_GCM U_wrapKey = true /\
  usable kek AES_GCM U_unwrapKey = true /\
  export_raw kek = Throw InvalidAccessError /\
  forall iv data,
    aesGcmEncrypt kek iv data = Throw InvalidAccessError /\
    aesGcmDecrypt kek iv data = Throw InvalidAccessError.
Proof.
  unfold deriveKEK_ECDH, subtle_deriveBits_ECDH.
  destruct (usable senderPriv ECDH U_deriveBits); [|discriminate].
  destruct (material senderPriv); try discriminate.
  destruct (algorithm recipientPub); try discriminate.
  destruct (material recipientPub); try discriminate.
  destruct (ecdh_p256 d q); [|discriminate].
  cbn. intro H. injection H as <-. repeat split.
Qed.

Section LibraryFacts.
Context {W : Platform}.

Lemma deriveKEK_ECDH_shape priv pub salt info kek :
  deriveKEK_ECDH priv pub salt info = Ok kek ->
  exists raw,
    kek = {| algorithm := AES_GCM; extractable := false;
             usages := [U_wrapKey; U_unwrapKey]; material := Secret raw |}.
Proof.
  unfold deriveKEK_ECDH, subtle_deriveBits_ECDH.
  destruct (usable priv ECDH U_deriveBits); [|discriminate].
  destruct (material priv); try discriminate.
  destruct (algorithm pub); try discriminate.
  destruct (material pub); try discriminate.
  destruct (ecdh_p256 d q); [|discriminate].
  cbn. intro H. injection H as <-. eexists. reflexivity.
Qed.

(** Unwrapping with the very key-encryption key that wrapped. *)
Lemma unwrap_own_wrap {L : PlatformLaws W} aesKey raw priv pub salt wrapped :
  aesKey.(material) = Secret raw ->
  List.length raw = 32%nat ->
  wrapAesKeyWithECDH aesKey priv pub salt = Ok wrapped ->
  unwrapAesKeyWithECDH wrapped priv pub salt
  = Ok {| algorithm := AES_GCM; extractable := false; usages := [U_decrypt];
          material := Secret raw |}.
Proof.
  intros Hm Hlen. unfold wrapAesKeyWithECDH, unwrapAesKeyWithECDH.
  destruct (deriveKEK_ECDH priv pub salt (js "wrap")) as [kek|e] eqn:E;
    [|discriminate].
  destruct (deriveKEK_ECDH_shape _ _ _ _ E) as [k ->].
  cbn [bind]. unfold subtle_wrapKey_AES_GCM, subtle_unwrapKey_AES_GCM, export_raw.
  cbn [usable algorithm usages alg_eqb existsb usage_eqb orb andb material].
  destruct (extractable aesKey); [|discriminate]. rewrite Hm. cbn [bind].
  intro H. injection H as <-. rewrite aes_gcm_open_seal.
  unfold import_raw_AES_GCM. now rewrite Hlen.
Qed.

End LibraryFacts.

(** X12. Two parties derive the same key-encryption key: [deriveKEK_ECDH]
    with one's own private key and the peer's public key succeeds on both
    sides and gives the same key for the same salt and info. *)
Theorem deriveKEK_ECDH_agreement
        {W : Platform} (L : PlatformLaws W)
        (a b : EcPrivate) (salt : ArrayBuffer) (info : jsstring) :
  exists kek,
    deriveKEK_ECDH (generateECDHKeypair a).(privateKey)
                   (generateECDHKeypair b).(publicKey) salt info = Ok kek /\
    deriveKEK_ECDH (generateECDHKeypair b).(privateKey)
                   (generateECDHKeypair a).(publicKey) salt info = Ok kek.
Proof.
  destruct (ecdh_agreement a b) as [secret [Hab Hba]].
  rewrite (@deriveKEK_ECDH_eq _ _ _ a (ec_public_of b)) by reflexivity.
  rewrite (@deriveKEK_ECDH_eq _ _ _ b (ec_public_of a)) by reflexivity.
  rewrite Hab, Hba. eexists. split; reflexivity.
Qed.

(** X13. [unwrapAesKeyWithRSA] inverts [wrapAesKeyWithRSA]: what the
    public half of an RSA pair wrapped, the private half unwraps to a
    key with the same raw bytes, not extractable and for decryption
    only.  A key that is not extractable cannot be wrapped. *)
Theorem unwrapAesKeyWithRSA_inverts
        {W : Platform} (L : PlatformLaws W)
        (aesKey : CryptoKey) (raw : ArrayBuffer) (r : RsaPrivate)
        (tape : Tape) (pos : nat) :
  aesKey.(material) = Secret raw ->
  List.length raw = 32%nat ->
  (forall wrapped pos',
      wrapAesKeyWithRSA aesKey (generateRSAKeypair r).(publicKey) tape pos
      = Ok (wrapped, pos') ->
      unwrapAesKeyWithRSA wrapped (generateRSAKeypair r).(privateKey)
      = Ok {| algorithm := AES_GCM; extractable := false;
              usages := [U_decrypt]; material := Secret raw |}) /\
  (aesKey.(extractable) = false ->
   wrapAesKeyWithRSA aesKey (generateRSAKeypair r).(publicKey) tape pos
   = Throw InvalidAccessError).
Proof.
  intros Hm Hlen.
  unfold wrapAesKeyWithRSA, bindR, getRandomValues, lift,
    subtle_wrapKey_RSA_OAEP, export_raw.
  cbn [usable generateRSAKeypair publicKey algorithm usages alg_eqb existsb
       usage_eqb orb andb material].
  split.
  - intros wrapped pos'.
    destruct (extractable aesKey); [|discriminate]. rewrite Hm. cbn [bind].
    destruct (rsa_oaep_seal _ _ raw) as [w|] eqn:E; [|discriminate].
    intro H. injection H as <- <-.
    unfold unwrapAesKeyWithRSA, subtle_unwrapKey_RSA_OAEP.
    cbn [usable generateRSAKeypair privateKey algorithm usages alg_eqb existsb
         usage_eqb orb andb material].
    rewrite (rsa_oaep_open_seal _ _ _ E).
    unfold import_raw_AES_GCM. now rewrite Hlen.
  - intros ->. reflexivity.
Qed.


(** ** Chat.tsx, continued *)

Section SendFacts.
Context {W : Platform}.

(** [sendMessage] for a text, once the state is loaded and the
    recipient's keys are imported. *)
Lemma sendMessage_text_run formatFileSize (st : ChatState) storage message
      chat k row u ePub rPub (tape : Tape) (pos : nat) :
  st.(chatId) = Some chat -> st.(keys) = Some k ->
  st.(recipient) = Some row -> st.(user) = Some u ->
  is_blank message = false ->
  importECDHPublicJwk row.(ecdh_public_key_jwk) = Ok ePub ->
  importRSAPublicJwk row.(rsa_public_key_jwk) = Ok rPub ->
  sendMessage formatFileSize st storage message None tape pos =
  match sendMessage_seal chat u st.(recipientId) k ePub rPub
                         (stringToArrayBuffer message) None None tape pos with
  | Ok (sent, p) => Ok (Some sent, p)
  | Throw e => Throw e
  end.
Proof.
  intros Hc Hk Hr Hu Hblank He Hrsa.
  unfold sendMessage. rewrite Hc, Hk, Hr, Hu, Hblank, He, Hrsa.
  cbn [andb]. unfold bindR at 1. cbn [lift]. unfold bindR at 1. cbn [lift].
  unfold bindR at 1. cbn [ret fst snd]. unfold bindR at 1.
  destruct (sendMessage_seal _ _ _ _ _ _ _ _ _ _ _) as [[sent p]|e];
    reflexivity.
Qed.

(** [sendMessage] for a file. *)
Lemma sendMessage_file_run formatFileSize (st : ChatState) storage message file
      chat k row u ePub rPub (tape : Tape) (pos : nat) :
  st.(chatId) = Some chat -> st.(keys) = Some k ->
  st.(recipient) = Some row -> st.(user) = Some u ->
  importECDHPublicJwk row.(ecdh_public_key_jwk) = Ok ePub ->
  importRSAPublicJwk row.(rsa_public_key_jwk) = Ok rPub ->
  sendMessage formatFileSize st storage message (Some file) tape pos =
  match wrap_prefer_ECDH k (drawn_key tape pos) ePub rPub (drawn_salt tape pos)
                         tape (pos + 32 + 12 + 16)%nat with
  | Throw e => Throw e
  | Ok (wrapped, p) =>
      match sendMessage_store storage
              (sealed_file_meta file tape pos (fst wrapped) (snd wrapped))
              (sealed_file_base64 file tape pos) with
      | Throw e => Throw e
      | Ok stored =>
          match sendMessage_seal chat u st.(recipientId) k ePub rPub
                  (file_caption formatFileSize file) None (Some stored)
                  tape p with
          | Ok (sent, p') => Ok (Some sent, p')
          | Throw e => Throw e
          end
      end
  end.
Proof.
  intros Hc Hk Hr Hu He Hrsa.
  unfold sendMessage. rewrite Hc, Hk, Hr, Hu, He, Hrsa.
  rewrite andb_false_r.
  unfold bindR at 1. cbn [lift]. unfold bindR at 1. cbn [lift].
  unfold bindR at 1. unfold bindR at 1.
  unfold genAesGcmKey, generateIV, generateSalt.
  unfold bindR at 1. cbn [getRandomValues ret].
  unfold bindR at 1. cbn [getRandomValues].
  unfold bindR at 1. cbn [getRandomValues].
  unfold bindR at 1.
  unfold aesGcmEncrypt, subtle_encrypt_AES_GCM.
  cbn [usable algorithm usages alg_eqb existsb usage_eqb orb andb material lift].
  unfold bindR at 1.
  fold (drawn_key tape pos). fold (drawn_iv tape pos). fold (drawn_salt tape pos).
  destruct (wrap_prefer_ECDH _ _ _ _ _ _ _) as [[wrapped p]|e]; [|reflexivity].
  unfold bindR at 1. unfold lift at 1. rewrite arrayBufferToBase64_ok.
  unfold bindR at 1. unfold lift at 1. rewrite arrayBufferToBase64_ok.
  unfold bindR at 1. unfold lift at 1. rewrite arrayBufferToBase64_ok.
  unfold bindR at 1. unfold lift at 1. rewrite arrayBufferToBase64_ok.
  unfold bindR at 1. unfold lift at 1.
  fold (sealed_file_base64 file tape pos).
  fold (sealed_file_meta file tape pos (fst wrapped) (snd wrapped)).
  destruct (sendMessage_store _ _ _) as [stored|e]; [|reflexivity].
  cbn [ret fst snd]. fold (file_caption formatFileSize file).
  unfold bindR at 1.
  destruct (sendMessage_seal _ _ _ _ _ _ _ _ _ _ _) as [[sent p']|e];
    reflexivity.
Qed.

End SendFacts.

Section RowFacts.
Context {W : Platform}.

(** Every row [sendMessage_seal] returns. *)
Lemma sendMessage_seal_row chat u rid k ePub rPub P fileUrl fileMeta
      (tape : Tape) (pos : nat) sent pos' :
  sendMessage_seal chat u rid k ePub rPub P fileUrl fileMeta tape pos
  = Ok (sent, pos') ->
  exists wrapped tag,
    (tag = js "ECDH" /\
     agreement_attempt k (drawn_key tape pos) ePub (drawn_salt tape pos)
     = Ok wrapped
     \/ tag = js "RSA-OAEP") /\
    sent = sealed_message chat u rid P tape pos wrapped tag fileUrl fileMeta.
Proof.
  rewrite sendMessage_seal_run, wrap_prefer_ECDH_run.
  destruct (agreement_attempt _ _ _ _) as [wrapped|e].
  - intro H. injection H as <- <-. exists wrapped, (js "ECDH").
    split; [left; split; reflexivity | reflexivity].
  - destruct (subtle_wrapKey_RSA_OAEP _ _ _) as [wrapped|e']; [|discriminate].
    intro H. injection H as <- <-. exists wrapped, (js "RSA-OAEP").
    split; [now right | reflexivity].
Qed.

(** Every row [sendMessage] returns. *)
Lemma sendMessage_row formatFileSize (st : ChatState) storage message
      selectedFile (tape : Tape) (pos : nat) sent pos' :
  sendMessage formatFileSize st storage message selectedFile tape pos
  = Ok (Some sent, pos') ->
  exists chat u p content wrapped tag meta,
    st.(chatId) = Some chat /\ st.(user) = Some u /\
    (tag = js "ECDH" \/ tag = js "RSA-OAEP") /\
    sent = sealed_message chat u st.(recipientId) content tape p wrapped tag
                          None meta /\
    match selectedFile with
    | None => meta = None /\ content = stringToArrayBuffer message
    | Some file =>
        exists wrappedF tagF stored,
          sendMessage_store storage
            (sealed_file_meta file tape pos wrappedF tagF)
            (sealed_file_base64 file tape pos) = Ok stored /\
          meta = Some stored /\
          content = file_caption formatFileSize file
    end.
Proof.
  intro H.
  destruct (chatId st) as [chat|] eqn:Hc;
    [|unfold sendMessage in H; rewrite Hc in H; discriminate].
  destruct (keys st) as [k|] eqn:Hk;
    [|unfold sendMessage in H; rewrite Hc, Hk in H; discriminate].
  destruct (recipient st) as [row|] eqn:Hr;
    [|unfold sendMessage in H; rewrite Hc, Hk, Hr in H; discriminate].
  destruct (user st) as [u|] eqn:Hu;
    [|unfold sendMessage in H; rewrite Hc, Hk, Hr, Hu in H; discriminate].
  destruct (importECDHPublicJwk row.(ecdh_public_key_jwk)) as [ePub|e] eqn:He.
  2:{ unfold sendMessage in H. rewrite Hc, Hk, Hr, Hu, He in H.
      destruct (_ && _) in H; discriminate. }
  destruct (importRSAPublicJwk row.(rsa_public_key_jwk)) as [rPub|e] eqn:Hrsa.
  2:{ unfold sendMessage in H. rewrite Hc, Hk, Hr, Hu, He, Hrsa in H.
      destruct (_ && _) in H; discriminate. }
  destruct selectedFile as [file|].
  - erewrite sendMessage_file_run in H by eassumption.
    destruct (wrap_prefer_ECDH _ _ _ _ _ _ _) as [[wrappedF p]|e];
      [|discriminate].
    destruct (sendMessage_store _ _ _) as [stored|e] eqn:Hstore; [|discriminate].
    destruct (sendMessage_seal _ _ _ _ _ _ _ _ _ _ _) as [[sent' p']|e] eqn:Hseal;
      [|discriminate].
    injection H as -> ->.
    apply sendMessage_seal_row in Hseal.
    destruct Hseal as [wrapped [tag [Htag ->]]].
    exists chat, u, p, (file_caption formatFileSize file), wrapped, tag,
      (Some stored).
    repeat split; try reflexivity.
    + destruct Htag as [[-> _]| ->]; [now left | now right].
    + exists (fst wrappedF), (snd wrappedF), stored. now repeat split.
  - destruct (is_blank message) eqn:Hblank.
    { unfold sendMessage in H. rewrite Hc, Hk, Hr, Hu, Hblank in H.
      discriminate. }
    erewrite sendMessage_text_run in H by eassumption.
    destruct (sendMessage_seal _ _ _ _ _ _ _ _ _ _ _) as [[sent' p']|e] eqn:Hseal;
      [|discriminate].
    injection H as -> ->.
    apply sendMessage_seal_row in Hseal.
    destruct Hseal as [wrapped [tag [Htag ->]]].
    exists chat, u, pos, (stringToArrayBuffer message), wrapped, tag, None.
    repeat split; try reflexivity.
    destruct Htag as [[-> _]| ->]; [now left | now right].
Qed.

Lemma drawn_iv_length (tape : Tape) pos : List.length (drawn_iv tape pos) = 12%nat.
Proof. unfold drawn_iv. now rewrite length_map, length_seq. Qed.

Lemma drawn_salt_length (tape : Tape) pos :
  List.length (drawn_salt tape pos) = 16%nat.
Proof. unfold drawn_salt. now rewrite length_map, length_seq. Qed.

End RowFacts.

(** X15. Every row [sendMessage] inserts names the chat, the sender and
    the recipient of the component state, carries a 12-byte nonce, a
    16-byte salt, the hash of its Base64 ciphertext and one of the two
    tags, has file metadata exactly when a file was selected, and never
    records a storage path: [file_url] is null on every path. *)
Theorem sendMessage_row_shape
        {W : Platform} (formatFileSize : N -> jsstring) (st : ChatState)
        (storage : StorageOutcome) (message : jsstring)
        (selectedFile : option File) (tape : Tape) (pos : nat)
        (sent : Message) (pos' : nat) :
  sendMessage formatFileSize st storage message selectedFile tape pos
  = Ok (Some sent, pos') ->
  st.(chatId) = Some sent.(chat_id) /\
  st.(user) = Some sent.(sender_id) /\
  sent.(recipient_id) = st.(recipientId) /\
  (exists iv, base64ToArrayBuffer sent.(iv_base64) = Ok iv /\
              List.length iv = 12%nat) /\
  (exists salt, base64ToArrayBuffer sent.(salt_base64) = Ok salt /\
                List.length salt = 16%nat) /\
  sent.(hash_hex) = sha256Hex (inr sent.(ciphertext_base64)) /\
  (sent.(wrap_alg) = js "ECDH" \/ sent.(wrap_alg) = js "RSA-OAEP") /\
  (sent.(file_meta) = None <-> selectedFile = None) /\
  sent.(file_url) = None.
Proof.
  intro H.
  apply sendMessage_row in H.
  destruct H
    as [chat [u [p [content [wrapped [tag [meta [Hc [Hu [Htag [-> Hfile]]]]]]]]]]].
  cbn [sealed_message chat_id sender_id recipient_id iv_base64 salt_base64
       hash_hex ciphertext_base64 wrap_alg file_meta file_url].
  repeat split; try assumption; try reflexivity.
  - exists (drawn_iv tape p). split;
      [apply base64ToArrayBuffer_encode | apply drawn_iv_length].
  - exists (drawn_salt tape p). split;
      [apply base64ToArrayBuffer_encode | apply drawn_salt_length].
  - intros ->. destruct selectedFile as [file|]; [|reflexivity].
    destruct Hfile as [? [? [? [_ [Hm _]]]]]. discriminate.
  - intros ->. now destruct Hfile.
Qed.


(** Opening, as its sender, a row sealed on the agreement path. *)
Lemma open_own_agreement_row
      {W : Platform} {L : PlatformLaws W} (st : ChatState) chat S R senderKeys
      recipientEcdhPub rowB P fileUrl fileMeta (tape : Tape) (pos : nat) wrapped :
  st.(user) = Some S ->
  st.(keys) = Some senderKeys ->
  st.(recipient) = Some rowB ->
  importECDHPublicJwk rowB.(ecdh_public_key_jwk) = Ok recipientEcdhPub ->
  agreement_attempt senderKeys (drawn_key tape pos) recipientEcdhPub
                    (drawn_salt tape pos) = Ok wrapped ->
  decryptMessage_payload
    st (sealed_message chat S R P tape pos wrapped (js "ECDH")
                       fileUrl fileMeta) = Ok P.
Proof.
  intros Hu Hk Hr He Hatt.
  unfold agreement_attempt in Hatt.
  destruct (ecdhKeyPair senderKeys) as [own|] eqn:Hown; [|discriminate].
  cbn [non_null bind] in Hatt.
  apply (@unwrap_own_wrap W L _ (List.map tape (seq pos 32))) in Hatt;
    [|reflexivity | apply drawn_key_length].
  unfold decryptMessage_payload. rewrite Hu, Hk, Hr.
  cbn [sealed_message iv_base64 salt_base64 ciphertext_base64
       wrapped_key_base64 wrap_alg sender_id].
  rewrite !base64ToArrayBuffer_encode. cbn [bind].
  rewrite (jsstring_eqb_refl (js "ECDH")), (jsstring_eqb_refl S), He.
  cbn [bind]. rewrite Hown. cbn [non_null bind]. rewrite Hatt. cbn [bind].
  apply aesGcmDecrypt_unwrapped.
Qed.

(** X17. The sender can read back what they sent on the agreement path:
    a row [sendMessage_seal] tagged 'ECDH' opens, in the sender's own
    component state, to the plaintext it was sealed from. *)
Theorem sender_reads_own_agreement_rows
        {W : Platform} (L : PlatformLaws W) (st : ChatState)
        (chat S R : jsstring) (senderKeys : CryptoKeys)
        (recipientEcdhPub recipientRsaPub : CryptoKey) (rowB : UserKeysRow)
        (P : ArrayBuffer) (fileUrl : option jsstring)
        (fileMeta : option FileMeta) (tape : Tape) (pos : nat)
        (envelope : Message) (pos' : nat) :
  st.(user) = Some S ->
  st.(keys) = Some senderKeys ->
  st.(recipient) = Some rowB ->
  importECDHPublicJwk rowB.(ecdh_public_key_jwk) = Ok recipientEcdhPub ->
  sendMessage_seal chat S R senderKeys recipientEcdhPub recipientRsaPub P
                   fileUrl fileMeta tape pos = Ok (envelope, pos') ->
  envelope.(wrap_alg) = js "ECDH" ->
  decryptMessage_payload st envelope = Ok P /\
  decryptMessage st envelope = Ok (arrayBufferToString P).
Proof.
  intros Hu Hk Hr He Hseal Htag.
  apply sendMessage_seal_row in Hseal.
  destruct Hseal as [wrapped [tag [Hpath ->]]].
  cbn [sealed_message wrap_alg] in Htag. subst tag.
  destruct Hpath as [[_ Hatt]|Hrsa]; [|vm_compute in Hrsa; discriminate].
  assert (Hopen : decryptMessage_payload
                    st (sealed_message chat S R P tape pos wrapped (js "ECDH")
                                       fileUrl fileMeta) = Ok P)
    by (eapply open_own_agreement_row; eassumption).
  split; [exact Hopen|]. unfold decryptMessage. now rewrite Hopen.
Qed.


Section FileFacts.
Context {W : Platform}.

Lemma encode_nonempty (b : ArrayBuffer) :
  b <> [] -> truthy (Base64.encode (List.map Byte.to_N b)) = true.
Proof.
  intro Hb. destruct (Base64.encode _) eqn:E; [|reflexivity].
  exfalso. pose proof (base64ToArrayBuffer_encode b) as H.
  rewrite E in H. vm_compute in H. injection H as <-. now apply Hb.
Qed.

Lemma or_default_truthy a b : truthy a = true -> or_default a b = a.
Proof. now destruct a. Qed.

Lemma nonempty_of_length (b : ArrayBuffer) n :
  List.length b = S n -> b <> [].
Proof. now destruct b. Qed.

(** The file branch on a row without inline data and without a storage
    path: nothing is fetched. *)
Lemma decryptMessage_file_nothing (st : ChatState) k row u download msg meta :
  msg.(file_url) = None ->
  meta.(encrypted_data_base64) = None ->
  decryptMessage_file st k row u download msg meta = Ok None.
Proof.
  intros Hurl Hdata. unfold decryptMessage_file. rewrite Hurl, Hdata.
  now destruct (storage_type meta).
Qed.

End FileFacts.

(** X19. A file the blob store refused travels inline and arrives: when
    the first upload fails and the Base64 text of the encrypted file is
    shorter than the threshold, [sendMessage] returns a row from which the
    recipient's [decryptMessage] recovers the caption as text and the
    file's bytes, with its name, type and size (an empty name shown as
    'file', an empty type as 'application/octet-stream'), without
    asking the blob store.  Ciphertexts are taken to be non-empty, as
    those of AES-GCM are. *)
Theorem inline_file_roundtrip
        {W : Platform} (L : PlatformLaws W)
        (formatFileSize : N -> jsstring) (sender receiver : ChatState)
        (storage : StorageOutcome) (uploadError : StorageError)
        (message : jsstring) (file : File) (chat S R : jsstring)
        (a : EcPrivate) (ra : RsaPrivate) (b : EcPrivate) (rb : RsaPrivate)
        (rowA rowB : UserKeysRow) (tape : Tape) (pos : nat)
        (download : jsstring -> option ArrayBuffer) :
  (forall key iv data, aes_gcm_seal key iv data <> []) ->
  sender.(chatId) = Some chat ->
  sender.(user) = Some S ->
  sender.(keys) = Some (identity_keys a ra) ->
  sender.(recipient) = Some rowB ->
  sender.(recipientId) = R ->
  publishes rowA a ra ->
  publishes rowB b rb ->
  receiver.(user) = Some R ->
  receiver.(keys) = Some (identity_keys b rb) ->
  receiver.(recipient) = Some rowA ->
  receiver.(recipientId) = S ->
  storage.(upload_error) = Some uploadError ->
  (js_length (sealed_file_base64 file tape pos) < inline_threshold)%N ->
  exists sent pos',
    sendMessage formatFileSize sender storage message (Some file) tape pos
    = Ok (Some sent, pos') /\
    decryptMessage_result receiver download sent
    = Ok {| shown_text := arrayBufferToString (file_caption formatFileSize file);
            shown_file :=
              Some {| shown_blob :=
                        {| blob_bytes := file.(file_bytes);
                           blob_type :=
                             or_default file.(file_type)
                                        (js "application/octet-stream") |};
                      shown_name := or_default file.(file_name) (js "file");
                      shown_type :=
                        or_default file.(file_type)
                                   (js "application/octet-stream");
                      shown_size := file_size file |} |}.
Proof.
  intros Hne Hc Hs Hk Hr Hid HA HB Hu' Hk' Hr' Hid' Hup Hsmall.
  destruct (@unwrap_wrap_ECDH W L (drawn_key tape pos)
              (List.map tape (seq pos 32)) a b (drawn_salt tape pos)
              eq_refl eq_refl (drawn_key_length tape pos))
    as [wrappedF [HwF HuF]].
  set (stored := store_inline (sealed_file_meta file tape pos wrappedF (js "ECDH"))
                              (sealed_file_base64 file tape pos)).
  destruct (@seal_for_identity W L chat S R a ra b rb
              (file_caption formatFileSize file) None (Some stored)
              tape (pos + 32 + 12 + 16)%nat)
    as [wrapped [_ [Hunwrap Hseal]]].
  exists (sealed_message chat S R (file_caption formatFileSize file) tape
                         (pos + 32 + 12 + 16)%nat wrapped (js "ECDH")
                         None (Some stored)).
  eexists. split.
  - erewrite sendMessage_file_run;
      [ | eassumption | eassumption | eassumption | eassumption
        | apply (import_published_ecdh HB) | apply (import_published_rsa HB) ].
    rewrite wrap_prefer_ECDH_run. unfold agreement_attempt.
    cbn [identity_keys ecdhKeyPair non_null bind]. rewrite HwF. cbn [fst snd].
    erewrite sendMessage_store_small;
      [ | eassumption | now apply N.ltb_lt ].
    fold stored. rewrite Hid, Hseal. reflexivity.
  - assert (Hopen : decryptMessage_payload receiver
                      (sealed_message chat S R (file_caption formatFileSize file)
                                      tape (pos + 32 + 12 + 16)%nat wrapped
                                      (js "ECDH") None (Some stored))
                    = Ok (file_caption formatFileSize file))
      by (eapply open_sealed_ECDH; eassumption).
    unfold decryptMessage_result. rewrite Hk', Hr', Hu', Hopen.
    cbn [bind sealed_message file_meta]. do 2 f_equal.
    unfold decryptMessage_file, stored.
    cbn [store_inline sealed_file_meta storage_type encrypted_data_base64
         meta_iv meta_salt meta_wrapped_key meta_wrap_alg meta_name meta_type
         meta_size sealed_message file_url sender_id wrap_alg].
    assert (Htr : truthy (sealed_file_base64 file tape pos) = true)
      by (apply encode_nonempty, Hne).
    destruct (sealed_file_base64 file tape pos) as [|c data] eqn:E;
      [discriminate|].
    rewrite (jsstring_eqb_refl (js "inline")). rewrite <- E.
    unfold sealed_file_base64. rewrite base64ToArrayBuffer_encode.
    cbn [bind].
    rewrite (encode_nonempty (@nonempty_of_length _ 11 (drawn_iv_length tape pos))).
    rewrite (encode_nonempty
               (@nonempty_of_length _ 15 (drawn_salt_length tape pos))).
    assert (HwF' : wrappedF <> []).
    { unfold wrapAesKeyWithECDH in HwF.
      destruct (deriveKEK_ECDH _ _ _ _) as [kek|] eqn:Ek; [|discriminate].
      destruct (deriveKEK_ECDH_shape _ _ _ _ Ek) as [kr ->].
      cbn in HwF. injection HwF as <-. apply Hne. }
    rewrite (encode_nonempty HwF'). cbn [negb orb].
    rewrite !base64ToArrayBuffer_encode. cbn [bind].
    rewrite (or_default_truthy (js "ECDH")) by reflexivity.
    rewrite (jsstring_eqb_refl (js "ECDH")). rewrite Hid'.
    rewrite (jsstring_eqb_refl S), (import_published_ecdh HA).
    destruct (jsstring_eqb S R); cbn [bind identity_keys ecdhKeyPair non_null];
      rewrite HuF; cbn [bind]; rewrite aesGcmDecrypt_unwrapped; reflexivity.
Qed.

(** X20. A file the blob store accepted never arrives: when the first
    upload succeeds, the row [sendMessage] returns carries neither the
    storage path ([file_url] stays null) nor inline data, so whoever
    opens it, with whatever keys and whatever the blob store holds,
    gets the caption and no file. *)
Theorem uploaded_file_is_not_shown
        {W : Platform} (formatFileSize : N -> jsstring) (sender : ChatState)
        (storage : StorageOutcome) (message : jsstring) (file : File)
        (tape : Tape) (pos : nat) (sent : Message) (pos' : nat) :
  sendMessage formatFileSize sender storage message (Some file) tape pos
  = Ok (Some sent, pos') ->
  storage.(upload_error) = None ->
  sent.(file_url) = None /\
  (exists meta, sent.(file_meta) = Some meta /\
                meta.(encrypted_data_base64) = None /\
                meta.(storage_type) = None) /\
  forall (reader : ChatState) (download : jsstring -> option ArrayBuffer)
         (shown : Decrypted),
    decryptMessage_result reader download sent = Ok shown ->
    shown.(shown_file) = None.
Proof.
  intros H Hup. apply sendMessage_row in H.
  destruct H
    as [chat [u [p [content [wrapped [tag [meta [_ [_ [_ [-> Hfile]]]]]]]]]]].
  destruct Hfile as [wrappedF [tagF [stored [Hstore [-> _]]]]].
  unfold sendMessage_store in Hstore. rewrite Hup in Hstore.
  injection Hstore as <-.
  cbn [sealed_message file_url file_meta].
  split; [reflexivity|]. split.
  - eexists. split; [reflexivity|]. split; reflexivity.
  - intros reader download shown. unfold decryptMessage_result.
    destruct (keys reader) as [k|]; [|discriminate].
    destruct (recipient reader) as [row|]; [|discriminate].
    destruct (user reader) as [ru|]; [|discriminate].
    destruct (decryptMessage_payload _ _) as [text|e]; [|discriminate].
    cbn [bind sealed_message file_meta].
    rewrite decryptMessage_file_nothing by reflexivity.
    intro H. now injection H as <-.
Qed.

(** X21. The file branch never costs the text: whatever happens while
    the attachment is fetched, decoded, unwrapped or decrypted, the text
    [decryptMessage] resolves to, or the exception it throws, is that of
    the text path alone, and the message list shows that text, or
    '[Decryption failed]' when the text path throws. *)
Theorem file_branch_never_hides_text
        {W : Platform} (st : ChatState)
        (download : jsstring -> option ArrayBuffer) (msg : Message) :
  match decryptMessage_result st download msg with
  | Ok shown => decryptMessage st msg = Ok shown.(shown_text)
  | Throw e => decryptMessage st msg = Throw e
  end /\
  (show_message st download msg).(decryptedContent)
  = match decryptMessage st msg with
    | Ok text => text
    | Throw _ => js "[Decryption failed]"
    end /\
  forall data, List.map shown_row (loadMessages st download data) = data.
Proof.
  split; [|split].
  3:{ intro data. unfold loadMessages. rewrite map_map.
      rewrite <- (map_id data) at 2. apply map_ext. intro m.
      unfold show_message.
      now destruct (decryptMessage_result st download m). }
  all: unfold show_message, decryptMessage_result, decryptMessage.
  all: destruct (decryptMessage_payload st msg) as [text|e] eqn:E.
  all: destruct (keys st) as [k|] eqn:Hk.
  all: destruct (recipient st) as [row|] eqn:Hr.
  all: destruct (user st) as [u|] eqn:Hu.
  all: unfold decryptMessage_payload in E; rewrite ?Hk, ?Hr, ?Hu in E.
  all: cbv beta iota in E; try discriminate.
  all: try (injection E as <-); cbn [bind]; try reflexivity.
  all: now destruct (file_meta msg).
Qed.

Section RoomFacts.

Lemma js_string_ltb_asym a :
  forall b, js_string_ltb a b = true -> js_string_ltb b a = false.
Proof.
  induction a as [|x a IH]; intros [|y b] H; try reflexivity; try discriminate.
  cbn [js_string_ltb] in *.
  destruct (N.ltb_spec x y) as [Hxy|Hxy].
  - destruct (N.ltb_spec y x) as [Hyx|Hyx]; [lia | reflexivity].
  - destruct (N.ltb_spec y x) as [Hyx|Hyx]; [discriminate|].
    now apply IH.
Qed.

Lemma js_string_ltb_total a :
  forall b, js_string_ltb a b = false -> js_string_ltb b a = false -> a = b.
Proof.
  induction a as [|x a IH]; intros [|y b] Hab Hba; try reflexivity;
    try discriminate.
  cbn [js_string_ltb] in *.
  destruct (N.ltb_spec x y) as [Hxy|Hxy]; [discriminate|].
  destruct (N.ltb_spec y x) as [Hyx|Hyx]; [discriminate|].
  assert (x = y) by lia. subst y. f_equal. now apply IH.
Qed.

End RoomFacts.

(** X22. Both participants of a conversation compute the same room id:
    [roomId] does not depend on which of the two ids is the user's, and
    it is the two ids joined by '-', the smaller (by code units) first. *)
Theorem roomId_symmetric (a b : jsstring) :
  roomId a b = roomId b a /\
  roomId a b = (if js_string_ltb b a then b ++ js "-" ++ a
                else a ++ js "-" ++ b).
Proof.
  unfold roomId, js_sort.
  cbn [fold_right js_sort_insert].
  destruct (js_string_ltb b a) eqn:Hba.
  - rewrite (js_string_ltb_asym _ _ Hba). split; reflexivity.
  - split; [|reflexivity].
    destruct (js_string_ltb a b) eqn:Hab; [reflexivity|].
    now rewrite (js_string_ltb_total _ _ Hab Hba).
Qed.

(** X23. Outside full view, [truncate] shows at most [len] code units of
    the stored value followed by '...': the result has at most
    [len + 3] code units and agrees with the value on the first [len];
    a value of at most [len] code units is shown as it is, and in full
    view every value is. *)
Theorem truncate_bound (str : jsstring) (len : nat) :
  (List.length (truncate false str len) <= len + 3)%nat /\
  firstn len (truncate false str len) = firstn len str /\
  truncate false str len
  = (if (List.length str <=? len)%nat then str
     else firstn len str ++ js "...") /\
  truncate true str len = str.
Proof.
  unfold truncate.
  destruct (Nat.ltb_spec len (List.length str)) as [Hlt|Hle].
  - replace (List.length str <=? len)%nat with false
      by (symmetry; apply Nat.leb_gt; exact Hlt).
    repeat split.
    + rewrite length_app, length_firstn. cbn [List.length js].
      change (List.length (js "...")) with 3%nat. lia.
    + rewrite firstn_app, length_firstn.
      replace (len - Nat.min len (List.length str))%nat with 0%nat by lia.
      rewrite firstn_O, app_nil_r, firstn_firstn. now rewrite Nat.min_id.
  - replace (List.length str <=? len)%nat with true
      by (symmetry; apply Nat.leb_le; exact Hle).
    repeat split. lia.
Qed.


(** ** Analytics.tsx: the decryption verdict *)

(** X25. The analytics pass reads what the chat sealed: on a row one
    identity sealed for another, [loadMessageAnalytics], run by the
    recipient with a directory that lists the sender, records a verified
    hash, a successful decryption and the sealed text. *)
Theorem analyzeMessage_reads_sealed_rows
        {W : Platform} (L : PlatformLaws W) (chat S R : jsstring)
        (a : EcPrivate) (ra : RsaPrivate) (b : EcPrivate) (rb : RsaPrivate)
        (rowA : UserKeysRow) (P : ArrayBuffer)
        (fileUrl : option jsstring) (fileMeta : option FileMeta)
        (tape : Tape) (pos : nat)
        (directory : jsstring -> option UserKeysRow) :
  publishes rowA a ra ->
  directory S = Some rowA ->
  exists envelope pos',
    sendMessage_seal chat S R (identity_keys a ra)
                     (generateECDHKeypair b).(publicKey)
                     (generateRSAKeypair rb).(publicKey)
                     P fileUrl fileMeta tape pos = Ok (envelope, pos') /\
    analyzeMessage R (identity_keys b rb) directory envelope
    = {| hash_verified := true; decryption_success := true;
         decrypted := arrayBufferToString P |}.
Proof.
  intros HA Hdir.
  destruct (@seal_for_identity W L chat S R a ra b rb P fileUrl fileMeta tape pos)
    as [wrapped [_ [Hunwrap Hseal]]].
  do 2 eexists. split; [exact Hseal|].
  unfold analyzeMessage.
  cbn [sealed_message iv_base64 salt_base64 ciphertext_base64
       wrapped_key_base64 hash_hex sender_id recipient_id wrap_alg].
  rewrite !base64ToArrayBuffer_encode. cbn [bind].
  rewrite (jsstring_eqb_refl (sha256Hex _)).
  assert (Hother : (if jsstring_eqb S R then R else S) = S).
  { destruct (jsstring_eqb S R) eqn:E; [|reflexivity].
    apply jsstring_eqb_eq in E. now subst. }
  rewrite Hother, Hdir, (jsstring_eqb_refl (js "ECDH")),
    (import_published_ecdh HA).
  unfold analytics_decrypt. cbn [sealed_message wrap_alg].
  rewrite (jsstring_eqb_refl (js "ECDH")).
  cbn [identity_keys ecdhKeyPair non_null bind]. rewrite Hunwrap. cbn [bind].
  rewrite aesGcmDecrypt_unwrapped. reflexivity.
Qed.

(** ** backup.ts: the wrong passphrase *)

(** X26. A backup opened with a passphrase whose key does not
    authenticate the ciphertext is answered by the one opaque error:
    [importKeysSealed] on what [exportKeysSealed] wrote throws 'Invalid
    passphrase or corrupted backup file', and nothing of the platform's
    own exception. *)
Theorem wrong_passphrase_gets_opaque_error
        {W : Platform} (L : PlatformLaws W)
        (ecdhPrivateJwk rsaPrivateJwk : JsonValue)
        (passphrase other : jsstring) (tape : Tape) (pos : nat) :
  aes_gcm_open
    (backup_key other (backup_salt tape pos)) (backup_iv tape pos)
    (aes_gcm_seal (backup_key passphrase (backup_salt tape pos))
                  (backup_iv tape pos)
                  (utf8_encode (JSON_stringify 0 (BackupData ecdhPrivateJwk
                                                             rsaPrivateJwk))))
  = None ->
  exists blob pos',
    exportKeysSealed ecdhPrivateJwk rsaPrivateJwk passphrase tape pos
    = Ok (blob, pos') /\
    importKeysSealed blob other = Throw BackupRestoreError.
Proof.
  intro Hopen. rewrite exportKeysSealed_run.
  do 2 eexists. split; [reflexivity|].
  eapply importKeysSealed_wrong_key.
  - unfold blob_text, blob_of_string. cbn [blob_bytes].
    rewrite JSON_text_utf8. unfold sealed_backup, SealedBackup.
    apply JSON_parse_stringify_sealed.
  - reflexivity.
  - cbn [to_string json_to_string]. apply base64ToArrayBuffer_encode.
  - reflexivity.
  - cbn [to_string json_to_string]. apply base64ToArrayBuffer_encode.
  - reflexivity.
  - cbn [to_string json_to_string]. apply base64ToArrayBuffer_encode.
  - exact Hopen.
Qed.

(* ================================================================== *)
(** * The further properties at concrete inputs *)


Lemma toy_seal_nonempty key iv data : Toy.seal key iv data <> [].
Proof.
  intro H. apply (f_equal (@List.length byte)) in H.
  unfold Toy.seal in H. rewrite length_app, ToyFacts.tag_length in H.
  cbn [List.length] in H. lia.
Qed.

(** X3 at the text 'a*b'. *)
Lemma base64ToArrayBuffer_rejects_witness :
  base64ToArrayBuffer (js "a*b") = Throw InvalidCharacterError.
Proof.
  apply (@base64ToArrayBuffer_rejects (js "a*b") 42%N);
    [right; left; reflexivity | reflexivity | reflexivity | discriminate].
Defined.

(** X6 at bit 3 of the second of three octets. *)
Lemma flipRandomBit_one_bit_witness :
  let data := [x00; xff; x10] in
  List.length (flipRandomBit 1 3 data) = List.length data /\
  if (1 <? List.length data)%nat then
    hammingDistanceBits data (flipRandomBit 1 3 data) = Ok 1%N /\
    flipRandomBit 1 3 (flipRandomBit 1 3 data) = data
  else flipRandomBit 1 3 data = data.
Proof.
  intro data. apply (@flipRandomBit_one_bit 1 3%N data). reflexivity.
Defined.

(** X9 at two rows that carry the same hash. *)
Lemma collision_resistant_always_true_witness :
  Scenario.agreement_row.(hash_hex) = Scenario.rsa_row.(hash_hex) /\
  collision_resistant [Scenario.agreement_row; Scenario.rsa_row]
                      Scenario.rsa_row = true.
Proof.
  split; [vm_compute; reflexivity|].
  apply (@collision_resistant_always_true
           [Scenario.agreement_row; Scenario.rsa_row] Scenario.rsa_row).
  right; left; reflexivity.
Defined.

(** X10 at the key Alice wrapped for Bob. *)
Lemma unwrapAesKeyForAnalytics_key_witness :
  let salt := drawn_salt Scenario.tape 0 in
  let alice := generateECDHKeypair (W := Toy.platform) Scenario.alice_ec in
  let bob := generateECDHKeypair (W := Toy.platform) Scenario.bob_ec in
  let key := {| algorithm := AES_GCM; extractable := false;
                usages := [U_decrypt];
                material := Secret (W := Toy.platform)
                                   (List.map Scenario.tape (seq 0 32)) |}
             : CryptoKey (W := Toy.platform) in
  (exists raw,
      key.(material) = Secret raw /\
      unwrapAesKeyForAnalytics (W := Toy.platform) Attachment.wrapped_for_bob
        (js "ECDH") (Some bob.(privateKey)) None (Some alice.(publicKey)) salt
      = Some {| algorithm := AES_GCM; extractable := false;
                usages := [U_encrypt; U_decrypt];
                material := Secret (W := Toy.platform) raw |} /\
      forall iv data,
        aesGcmEncrypt (W := Toy.platform) key iv data = Throw InvalidAccessError /\
        aesGcmEncrypt (W := Toy.platform) {| algorithm := AES_GCM; extractable := false;
                         usages := [U_encrypt; U_decrypt];
                         material := Secret (W := Toy.platform) raw |} iv data
        = Ok (aes_gcm_seal (Platform := Toy.platform) raw iv data)) /\
  (forall tag ecdh other,
      jsstring_eqb tag (js "ECDH") = false ->
      jsstring_eqb tag (js "RSA-OAEP") = false ->
      unwrapAesKeyForAnalytics (W := Toy.platform) Attachment.wrapped_for_bob
        tag ecdh None other salt = None).
Proof.
  intros salt alice bob key.
  apply (@unwrapAesKeyForAnalytics_key Toy.platform Attachment.wrapped_for_bob
           salt bob.(privateKey) alice.(publicKey) None key).
  reflexivity.
Defined.

(** X11 at the key-encryption key Alice derives for Bob. *)
Lemma deriveKEK_ECDH_wraps_only_witness :
  let kek := {| algorithm := AES_GCM; extractable := false;
                usages := [U_wrapKey; U_unwrapKey];
                material :=
                  Secret (W := Toy.platform)
                         (Toy.kdf [to_uint8 ((5 * Toy.public_of 9) mod Toy.modulus)]
                                  (drawn_salt Scenario.tape 0)
                                  (Toy.encode_text (js "wrap")) 256) |} in
  usable kek AES_GCM U_wrapKey = true /\
  usable kek AES_GCM U_unwrapKey = true /\
  export_raw kek = Throw InvalidAccessError /\
  forall iv data,
    aesGcmEncrypt (W := Toy.platform) kek iv data = Throw InvalidAccessError /\
    aesGcmDecrypt (W := Toy.platform) kek iv data = Throw InvalidAccessError.
Proof.
  intro kek.
  apply (@deriveKEK_ECDH_wraps_only Toy.platform
           (generateECDHKeypair (W := Toy.platform) Scenario.alice_ec).(privateKey)
           Scenario.bob_public_ecdh (drawn_salt Scenario.tape 0) (js "wrap") kek).
  reflexivity.
Defined.

(** X12 at Alice and Bob. *)
Lemma deriveKEK_ECDH_agreement_witness :
  exists kek,
    deriveKEK_ECDH (W := Toy.platform)
      (generateECDHKeypair (W := Toy.platform) Scenario.alice_ec).(privateKey)
      (generateECDHKeypair (W := Toy.platform) Scenario.bob_ec).(publicKey)
      (drawn_salt Scenario.tape 0) (js "wrap") = Ok kek /\
    deriveKEK_ECDH (W := Toy.platform)
      (generateECDHKeypair (W := Toy.platform) Scenario.bob_ec).(privateKey)
      (generateECDHKeypair (W := Toy.platform) Scenario.alice_ec).(publicKey)
      (drawn_salt Scenario.tape 0) (js "wrap") = Ok kek.
Proof.
  apply (@deriveKEK_ECDH_agreement Toy.platform ToyFacts.laws
           Scenario.alice_ec Scenario.bob_ec (drawn_salt Scenario.tape 0)
           (js "wrap")).
Defined.

(** X13 at the one-time key drawn at the start of the tape and Bob's
    RSA pair. *)
Lemma unwrapAesKeyWithRSA_inverts_witness :
  let aesKey := drawn_key (W := Toy.platform) Scenario.tape 0 in
  let raw := List.map Scenario.tape (seq 0 32) in
  let bob := generateRSAKeypair (W := Toy.platform) Scenario.bob_rsa in
  (forall wrapped pos',
      wrapAesKeyWithRSA aesKey bob.(publicKey) Scenario.tape 60
      = Ok (wrapped, pos') ->
      unwrapAesKeyWithRSA wrapped bob.(privateKey)
      = Ok {| algorithm := AES_GCM; extractable := false;
              usages := [U_decrypt];
              material := Secret (W := Toy.platform) raw |}) /\
  (aesKey.(extractable) = false ->
   wrapAesKeyWithRSA aesKey bob.(publicKey) Scenario.tape 60
   = Throw InvalidAccessError).
Proof.
  intros aesKey raw bob.
  apply (@unwrapAesKeyWithRSA_inverts Toy.platform ToyFacts.laws aesKey raw
           Scenario.bob_rsa Scenario.tape 60); reflexivity.
Defined.


(** X15 at the row Alice sends with the file, the bucket missing. *)
Lemma sendMessage_row_shape_witness :
  let st := Attachment.alice_state in
  let sent := Attachment.sent st Attachment.refused (Some Attachment.note) in
  st.(chatId) = Some sent.(chat_id) /\
  st.(user) = Some sent.(sender_id) /\
  sent.(recipient_id) = st.(recipientId) /\
  (exists iv, base64ToArrayBuffer sent.(iv_base64) = Ok iv /\
              List.length iv = 12%nat) /\
  (exists salt, base64ToArrayBuffer sent.(salt_base64) = Ok salt /\
                List.length salt = 16%nat) /\
  sent.(hash_hex) = sha256Hex (W := Toy.platform) (inr sent.(ciphertext_base64)) /\
  (sent.(wrap_alg) = js "ECDH" \/ sent.(wrap_alg) = js "RSA-OAEP") /\
  (sent.(file_meta) = None <-> Some Attachment.note = None) /\
  sent.(file_url) = None.
Proof.
  intros st sent.
  apply (@sendMessage_row_shape Toy.platform Attachment.formatFileSize st
           Attachment.refused Scenario.greeting (Some Attachment.note)
           Scenario.tape 0 sent 120).
  subst st sent. vm_compute. reflexivity.
Defined.


(** X17 at the row Alice sealed for Bob, read by Alice. *)
Lemma sender_reads_own_agreement_rows_witness :
  decryptMessage_payload Attachment.alice_state Scenario.agreement_row
  = Ok Scenario.plaintext /\
  decryptMessage Attachment.alice_state Scenario.agreement_row
  = Ok (arrayBufferToString (W := Toy.platform) Scenario.plaintext).
Proof.
  apply (@sender_reads_own_agreement_rows Toy.platform ToyFacts.laws
           Attachment.alice_state (js "room") (js "alice") (js "bob")
           Scenario.alice_keys Scenario.bob_public_ecdh Scenario.bob_public_rsa
           Scenario.bob_row Scenario.plaintext None None Scenario.tape 0
           Scenario.agreement_row 60);
    [ reflexivity | reflexivity | reflexivity | reflexivity
    | vm_compute; reflexivity | reflexivity ].
Defined.


(** X19 at the file Alice sends Bob, the bucket missing. *)
Lemma inline_file_roundtrip_witness :
  exists sent pos',
    sendMessage (W := Toy.platform) Attachment.formatFileSize
                Attachment.alice_state Attachment.refused Scenario.greeting
                (Some Attachment.note) Scenario.tape 0
    = Ok (Some sent, pos') /\
    decryptMessage_result Scenario.bob_state (fun _ => None) sent
    = Ok {| shown_text :=
              arrayBufferToString (W := Toy.platform)
                (file_caption (W := Toy.platform) Attachment.formatFileSize
                              Attachment.note);
            shown_file :=
              Some {| shown_blob :=
                        {| blob_bytes := Attachment.note.(file_bytes);
                           blob_type :=
                             or_default Attachment.note.(file_type)
                                        (js "application/octet-stream") |};
                      shown_name :=
                        or_default Attachment.note.(file_name) (js "file");
                      shown_type :=
                        or_default Attachment.note.(file_type)
                                   (js "application/octet-stream");
                      shown_size := file_size Attachment.note |} |}.
Proof.
  apply (@inline_file_roundtrip Toy.platform ToyFacts.laws
           Attachment.formatFileSize Attachment.alice_state Scenario.bob_state
           Attachment.refused
           {| message := Some (js "Bucket not found");
              statusCode := Some (StatusNumber 404) |}
           Scenario.greeting Attachment.note (js "room") (js "alice") (js "bob")
           Scenario.alice_ec Scenario.alice_rsa Scenario.bob_ec Scenario.bob_rsa
           Scenario.alice_row Scenario.bob_row Scenario.tape 0 (fun _ => None));
    try exact toy_seal_nonempty;
    (split; reflexivity) || reflexivity.
Defined.

(** X20 at the file Alice sends Bob, the upload accepted. *)
Lemma uploaded_file_is_not_shown_witness :
  let sent := Attachment.sent Attachment.alice_state Attachment.accepted
                              (Some Attachment.note) in
  sent.(file_url) = None /\
  (exists meta, sent.(file_meta) = Some meta /\
                meta.(encrypted_data_base64) = None /\
                meta.(storage_type) = None) /\
  forall (reader : ChatState (W := Toy.platform))
         (download : jsstring -> option ArrayBuffer) (shown : Decrypted),
    decryptMessage_result reader download sent = Ok shown ->
    shown.(shown_file) = None.
Proof.
  intro sent.
  apply (@uploaded_file_is_not_shown Toy.platform Attachment.formatFileSize
           Attachment.alice_state Attachment.accepted Scenario.greeting
           Attachment.note Scenario.tape 0 sent 120).
  - subst sent. vm_compute. reflexivity.
  - reflexivity.
Defined.


(** X25 at the row Alice seals for Bob. *)
Lemma analyzeMessage_reads_sealed_rows_witness :
  exists envelope pos',
    sendMessage_seal (W := Toy.platform) (js "room") (js "alice") (js "bob")
                     Scenario.alice_keys Scenario.bob_public_ecdh
                     Scenario.bob_public_rsa Scenario.plaintext None None
                     Scenario.tape 0 = Ok (envelope, pos') /\
    analyzeMessage (W := Toy.platform) (js "bob")
                   (identity_keys (W := Toy.platform) Scenario.bob_ec
                                  Scenario.bob_rsa)
                   (fun _ => Some Scenario.alice_row) envelope
    = {| hash_verified := true; decryption_success := true;
         decrypted := arrayBufferToString (W := Toy.platform) Scenario.plaintext |}.
Proof.
  apply (@analyzeMessage_reads_sealed_rows Toy.platform ToyFacts.laws
           (js "room") (js "alice") (js "bob") Scenario.alice_ec
           Scenario.alice_rsa Scenario.bob_ec Scenario.bob_rsa Scenario.alice_row
           Scenario.plaintext None None Scenario.tape 0
           (fun _ => Some Scenario.alice_row));
    (split; reflexivity) || reflexivity.
Defined.

(** X26 at the backup of two small JWKs and the passphrase 'wrong-pass'. *)
Lemma wrong_passphrase_gets_opaque_error_witness :
  exists blob pos',
    exportKeysSealed (W := Toy.platform) Scenario.bundle_ecdh Scenario.bundle_rsa
                     Scenario.passphrase Scenario.tape 0
    = Ok (blob, pos') /\
    importKeysSealed (W := Toy.platform) blob (js "wrong-pass")
    = Throw BackupRestoreError.
Proof.
  apply (@wrong_passphrase_gets_opaque_error Toy.platform ToyFacts.laws
           Scenario.bundle_ecdh Scenario.bundle_rsa Scenario.passphrase
           (js "wrong-pass") Scenario.tape 0).
  vm_compute. reflexivity.
Defined.
